(** * vscode-switch-font: font enumeration and the two-stage selection flow

    A shallow embedding of [src/extension.ts] and of the second variant of
    the same extension ([part_000], which adds the current-font marker, the
    live preview of the weight and the navigation back to the font picker).

    JavaScript strings are sequences of UTF-16 code units; the embedding
    covers the strings whose code units are below 256 and stores one code
    unit per [ascii].  All the literals of the program are of that kind. *)

From Stdlib Require Import String Ascii List ZArith Lia Bool.
From stdpp Require Import base option list strings gmap.
Import ListNotations.

Open Scope Z_scope.

(** ** JavaScript primitives used by the program *)

Module Js.

Abbreviation chars := list_ascii_of_string.
Abbreviation str := string_of_list_ascii.

Definition code (c : ascii) : nat := nat_of_ascii c.

(** LineTerminator code units: LF and CR (LS and PS lie above 255). *)
Definition is_line_terminator (c : ascii) : bool :=
  Nat.eqb (code c) 10 || Nat.eqb (code c) 13.

(** WhiteSpace and LineTerminator code units, the set used both by
    [String.prototype.trim] and by the character class [\s]:
    TAB, LF, VT, FF, CR, SP and NBSP. *)
Definition is_white_space (c : ascii) : bool :=
  Nat.eqb (code c) 9 || Nat.eqb (code c) 10 || Nat.eqb (code c) 11
  || Nat.eqb (code c) 12 || Nat.eqb (code c) 13 || Nat.eqb (code c) 32
  || Nat.eqb (code c) 160.

(** A string is truthy when it is not empty. *)
Definition truthy (s : string) : bool :=
  match s with EmptyString => false | String _ _ => true end.

(** [value ? ... : ...] on a [string | undefined]. *)
Definition truthy_opt (o : option string) : bool :=
  match o with Some s => truthy s | None => false end.

Fixpoint drop_white (l : list ascii) : list ascii :=
  match l with
  | c :: r => if is_white_space c then drop_white r else l
  | [] => []
  end.

(** [s.trim()] *)
Definition trim (s : string) : string :=
  str (rev (drop_white (rev (drop_white (chars s))))).

(** [s.split(sep)] for a separator of one code unit: never empty. *)
Fixpoint split_chars (sep : ascii) (l : list ascii) : list (list ascii) :=
  match l with
  | [] => [[]]
  | c :: r =>
      if Ascii.eqb c sep then [] :: split_chars sep r
      else match split_chars sep r with
           | h :: t => (c :: h) :: t
           | [] => [[c]]
           end
  end.

Definition split (sep : ascii) (s : string) : list string :=
  map str (split_chars sep (chars s)).

(** [s.startsWith(p)] *)
Fixpoint starts_with_chars (p l : list ascii) : bool :=
  match p, l with
  | [], _ => true
  | a :: p', b :: l' => Ascii.eqb a b && starts_with_chars p' l'
  | _ :: _, [] => false
  end.

Definition startsWith (p s : string) : bool :=
  starts_with_chars (chars p) (chars s).

(** [s.includes(p)] *)
Fixpoint includes_chars (p l : list ascii) : bool :=
  starts_with_chars p l
  || match l with
     | [] => false
     | _ :: r => includes_chars p r
     end.

Definition includes (p s : string) : bool :=
  includes_chars (chars p) (chars s).

(** [s.toLowerCase()] on code units below 256: A-Z and the upper-case
    letters of Latin-1 (all of 0xC0-0xDE except the multiplication sign)
    move up by 32. *)
Definition lower_char (c : ascii) : ascii :=
  let n := code c in
  if (Nat.leb 65 n && Nat.leb n 90)
     || (Nat.leb 192 n && Nat.leb n 222 && negb (Nat.eqb n 215))
  then ascii_of_nat (n + 32) else c.

Definition toLowerCase (s : string) : string :=
  str (map lower_char (chars s)).

(** [s.replace(p, r)] with a string pattern: the first occurrence only. *)
Fixpoint replace_chars (p r l : list ascii) : list ascii :=
  if starts_with_chars p l then r ++ skipn (length p) l
  else match l with
       | [] => []
       | c :: l' => c :: replace_chars p r l'
       end.

Definition replace (p r s : string) : string :=
  str (replace_chars (chars p) (chars r) (chars s)).

(** [a.join(sep)] *)
Fixpoint join (sep : string) (a : list string) : string :=
  match a with
  | [] => EmptyString
  | [x] => x
  | x :: r => x +:+ sep +:+ join sep r
  end.

(** [a.indexOf(v)]: the first index holding [v], or -1. *)
Fixpoint indexOf_from (a : list string) (v : string) (i : Z) : Z :=
  match a with
  | [] => -1
  | x :: r => if String.eqb x v then i else indexOf_from r v (i + 1)
  end.

Definition indexOf (a : list string) (v : string) : Z := indexOf_from a v 0.

(** [a.findIndex(p)] *)
Fixpoint findIndex_from {A} (p : A -> bool) (a : list A) (i : Z) : Z :=
  match a with
  | [] => -1
  | x :: r => if p x then i else findIndex_from p r (i + 1)
  end.

Definition findIndex {A} (p : A -> bool) (a : list A) : Z :=
  findIndex_from p a 0.

(** [a.filter((v, i, a) => ...)]: the callback sees the element, its index
    and the whole array. *)
Fixpoint filter_from {A} (f : A -> Z -> bool) (l : list A) (i : Z) : list A :=
  match l with
  | [] => []
  | x :: r => if f x i then x :: filter_from f r (i + 1)
              else filter_from f r (i + 1)
  end.

Definition filter {A} (f : A -> Z -> list A -> bool) (a : list A) : list A :=
  filter_from (fun v i => f v i a) a 0.

(** [Set<string>]: iteration follows insertion order, [add] of a member
    changes nothing. *)
Definition StringSet := list string.

Definition set_has (s : StringSet) (x : string) : bool :=
  existsb (String.eqb x) s.

Definition set_add (s : StringSet) (x : string) : StringSet :=
  if set_has s x then s else s ++ [x].

Definition Array_from (s : StringSet) : list string := s.

(** Decoding of the body of a string literal.  A backslash followed by a
    character that starts no escape sequence (a NonEscapeCharacter)
    denotes that character alone.  Hexadecimal, Unicode and octal escapes
    are outside this model ([None]). *)
Definition escape_char (c : ascii) : option ascii :=
  let n := code c in
  if Nat.eqb n 110 then Some (ascii_of_nat 10)        (* n *)
  else if Nat.eqb n 116 then Some (ascii_of_nat 9)    (* t *)
  else if Nat.eqb n 114 then Some (ascii_of_nat 13)   (* r *)
  else if Nat.eqb n 98 then Some (ascii_of_nat 8)     (* b *)
  else if Nat.eqb n 102 then Some (ascii_of_nat 12)   (* f *)
  else if Nat.eqb n 118 then Some (ascii_of_nat 11)   (* v *)
  else if Nat.eqb n 120 || Nat.eqb n 117 then None    (* x, u *)
  else if Nat.leb 48 n && Nat.leb n 57 then None      (* digits *)
  else if is_line_terminator c then None
  else Some c.

Fixpoint literal_chars (l : list ascii) : option (list ascii) :=
  match l with
  | [] => Some []
  | c :: r =>
      if Nat.eqb (code c) 92 then
        match r with
        | [] => None
        | e :: r' =>
            match escape_char e, literal_chars r' with
            | Some d, Some t => Some (d :: t)
            | _, _ => None
            end
        end
      else option_map (cons c) (literal_chars r)
  end.

Definition literal (body : string) : option string :=
  option_map str (literal_chars (chars body)).

End Js.

(** ** Font enumeration ([getMonospacedFonts], [parseMonospacedFonts])

    The two source files hold the same text for both functions. *)

Module Enumerator.
Import Js.

Definition dquote : string := String (ascii_of_nat 34) EmptyString.
Definition LF : ascii := ascii_of_nat 10.

(** The bodies of the two command literals, as written in the source. *)
Definition win32_command_source : string :=
  "reg query " +:+ dquote
    +:+ "HKLM\SOFTWARE\Microsoft\Windows NT\CurrentVersion\Fonts"
    +:+ dquote +:+ " /s".

Definition unix_command_source : string :=
  "fc-list :spacing=mono --format=" +:+ dquote +:+ "%{family[0]}\n"
    +:+ dquote +:+ " | sort | uniq".

Definition literal_value (body : string) : string :=
  match literal body with Some s => s | None => EmptyString end.

(** [command] as it stands when [exec] is called. *)
Definition command_for (platform : string) : string :=
  if String.eqb platform "win32" then literal_value win32_command_source
  else if String.eqb platform "darwin" || String.eqb platform "linux"
       then literal_value unix_command_source
  else EmptyString.

Definition recognized (platform : string) : bool :=
  String.eqb platform "win32" || String.eqb platform "darwin"
  || String.eqb platform "linux".

(** *** The regular expression
    [/^\s*([^\s]+)\s+REG_SZ\s+(.*\.ttf)$/gm]

    Matching follows the backtracking semantics of the language: a matcher
    takes the continuation of the pattern and the current position, given
    by the code unit before it ([None] at index 0) and the remaining
    input; the first successful alternative wins. *)

Definition Cont (R : Type) : Type := option ascii -> list ascii -> option R.

Definition m_char {R} (p : ascii -> bool) (k : Cont R) : Cont R :=
  fun prev rest =>
    match rest with
    | c :: r => if p c then k (Some c) r else None
    | [] => None
    end.

(** Greedy [p*]: one more repetition first, the continuation otherwise. *)
Fixpoint m_star {R} (p : ascii -> bool) (k : Cont R)
    (prev : option ascii) (rest : list ascii) : option R :=
  match rest with
  | c :: r =>
      if p c then
        match m_star p k (Some c) r with
        | Some x => Some x
        | None => k prev rest
        end
      else k prev rest
  | [] => k prev rest
  end.

Definition m_plus {R} (p : ascii -> bool) (k : Cont R) : Cont R :=
  m_char p (m_star p k).

Fixpoint m_lit {R} (s : list ascii) (k : Cont R) : Cont R :=
  match s with
  | [] => k
  | c :: s' => m_char (Ascii.eqb c) (m_lit s' k)
  end.

(** [^] and [$] under the flag [m]. *)
Definition m_bol {R} (k : Cont R) : Cont R :=
  fun prev rest =>
    match prev with
    | None => k prev rest
    | Some c => if is_line_terminator c then k prev rest else None
    end.

Definition m_eol {R} (k : Cont R) : Cont R :=
  fun prev rest =>
    match rest with
    | [] => k prev rest
    | c :: _ => if is_line_terminator c then k prev rest else None
    end.

Definition cls_space (c : ascii) : bool := is_white_space c.
Definition cls_not_space (c : ascii) : bool := negb (is_white_space c).
Definition cls_dot (c : ascii) : bool := negb (is_line_terminator c).

(** A match: group 1, and the position where the match ends. *)
Definition Match : Type := (list ascii * option ascii * list ascii)%type.

Definition regex_here : Cont Match :=
  m_bol (m_star cls_space (fun p1 r1 =>
    m_plus cls_not_space (fun p2 r2 =>
      let group1 := firstn (length r1 - length r2) r1 in
      m_plus cls_space
        (m_lit (chars "REG_SZ")
          (m_plus cls_space
            (m_star cls_dot
              (m_lit (chars ".ttf")
                (m_eol (fun p r => Some (group1, p, r)))))))
        p2 r2) p1 r1)).

(** [regex.exec(output)] with the flag [g]: the leftmost match at or
    after [lastIndex]. *)
Fixpoint regex_exec (prev : option ascii) (rest : list ascii) : option Match :=
  match regex_here prev rest with
  | Some m => Some m
  | None =>
      match rest with
      | [] => None
      | c :: r => regex_exec (Some c) r
      end
  end.

(** The [while] loop over the matches.  [lastIndex] moves to the end of
    each match; a loop that never leaves runs out of fuel ([None]). *)
Fixpoint exec_loop (fuel : nat) (prev : option ascii) (rest : list ascii)
    (fonts : StringSet) : option StringSet :=
  match fuel with
  | O => None
  | S fuel' =>
      match regex_exec prev rest with
      | None => Some fonts
      | Some (g1, prev', rest') =>
          let name := str g1 in
          exec_loop fuel' prev' rest'
            (if includes "mono" (toLowerCase name) then set_add fonts name
             else fonts)
      end
  end.

Definition add_line (fonts : StringSet) (line : string) : StringSet :=
  if truthy line && negb (startsWith "." line)
  then set_add fonts (trim line) else fonts.

Definition parseMonospacedFonts (output platform : string)
    : option (list string) :=
  if String.eqb platform "win32" then
    option_map Array_from
      (exec_loop (S (String.length output)) None (chars output) [])
  else if String.eqb platform "darwin" || String.eqb platform "linux" then
    let lines := split LF output in
    Some (Array_from (fold_left add_line lines []))
  else Some (Array_from []).

(** *** The process executor

    [exec] of [child_process] is outside the program.  What the program
    relies on: an empty command is refused with an exception before any
    process is started; otherwise the callback is called once the process
    is over: with an error when the process cannot be run, exits with a
    code other than 0 or writes more than [maxBuffer] bytes to its output
    or to its error stream, and with [null] and the output when it exits
    with 0.  The output is decoded as UTF-8 and the buffer is counted in
    bytes.  While the process neither exits nor fills the buffer the
    callback is not called: there is no timeout. *)

Record JsError := { message : string }.

(** [Buffer.byteLength(s, 'utf8')] for code units below 256: one byte
    below 128, two from there on. *)
Definition utf8_length (s : string) : Z :=
  fold_right (fun c n => (if Nat.ltb (code c) 128 then 1 else 2) + n) 0
    (chars s).

Inductive ChildResult :=
| Exited (code : Z) (stdout stderr : string)
| Hangs
| NotRun (reason : string).

Record Env := { platform : string; shell : string -> ChildResult }.

Inductive ExecOutcome :=
| ExecThrows (e : JsError)
| ExecCalls (error : option JsError) (stdout : string)
| ExecSilent.

Definition exec (env : Env) (command : string) (maxBuffer : Z) : ExecOutcome :=
  if truthy command then
    match shell env command with
    | NotRun reason => ExecCalls (Some {| message := reason |}) EmptyString
    | Hangs => ExecSilent
    | Exited code out err =>
        if Z.ltb maxBuffer (utf8_length out) then
          ExecCalls (Some {| message := "stdout maxBuffer length exceeded" |})
                    out
        else if Z.ltb maxBuffer (utf8_length err) then
          ExecCalls (Some {| message := "stderr maxBuffer length exceeded" |})
                    out
        else if Z.eqb code 0 then ExecCalls None out
        else
          ExecCalls
            (Some {| message :=
                       "Command failed: " +:+ command +:+ String LF err |})
            out
    end
  else
    ExecThrows
      {| message := "The argument 'file' cannot be empty. Received ''" |}.

Inductive Promise (A : Type) :=
| Resolved (v : A)
| Rejected (e : JsError)
| Pending.
Arguments Resolved {A} v.
Arguments Rejected {A} e.
Arguments Pending {A}.

(** An exception inside the executor of [new Promise] rejects it; while
    the callback is not called the promise stays pending. *)
Definition getMonospacedFonts (env : Env) : Promise (list string) :=
  let platform := platform env in
  let command := command_for platform in
  match exec env command (1024 * 1024) with
  | ExecThrows e => Rejected e
  | ExecCalls (Some e) _ => Rejected e
  | ExecCalls None stdout =>
      match parseMonospacedFonts stdout platform with
      | Some fonts => Resolved fonts
      | None => Pending
      end
  | ExecSilent => Pending
  end.

End Enumerator.

(** ** The host: configuration store, quick picks, notifications

    The configuration store, the quick-pick widgets and the notifications
    belong to the editor.  The model keeps what the program can observe of
    them and records every call in a log. *)

Module Host.

Inductive PickerId := FontPicker | WeightPicker.

Inductive Effect :=
| ShowErrorMessage (text : string)
| GetConfiguration (section : string)
| ConfigGet (key : string)
| ConfigUpdate (key value : string)
| CreateQuickPick (p : PickerId)
| SetItems (p : PickerId) (labels : list string)
| SetPlaceholder (p : PickerId) (text : string)
| SetActiveItems (p : PickerId) (labels : list string)
| Show (p : PickerId)
| Hide (p : PickerId)
| Dispose (p : PickerId).

(** A quick pick; an item is its label. *)
Record QuickPick := {
  items : list string;
  placeholder : string;
  activeItems : list string;
  selectedItems : list string;
  visible : bool;
  disposed : bool
}.

Definition createQuickPick : QuickPick :=
  {| items := []; placeholder := EmptyString; activeItems := [];
     selectedItems := []; visible := false; disposed := false |}.

Definition set_items (l : list string) (q : QuickPick) : QuickPick :=
  {| items := l; placeholder := placeholder q; activeItems := activeItems q;
     selectedItems := selectedItems q; visible := visible q;
     disposed := disposed q |}.

Definition set_placeholder (t : string) (q : QuickPick) : QuickPick :=
  {| items := items q; placeholder := t; activeItems := activeItems q;
     selectedItems := selectedItems q; visible := visible q;
     disposed := disposed q |}.

Definition set_activeItems (l : list string) (q : QuickPick) : QuickPick :=
  {| items := items q; placeholder := placeholder q; activeItems := l;
     selectedItems := selectedItems q; visible := visible q;
     disposed := disposed q |}.

Definition set_selectedItems (l : list string) (q : QuickPick) : QuickPick :=
  {| items := items q; placeholder := placeholder q;
     activeItems := activeItems q; selectedItems := l; visible := visible q;
     disposed := disposed q |}.

Definition set_visible (b : bool) (q : QuickPick) : QuickPick :=
  {| items := items q; placeholder := placeholder q;
     activeItems := activeItems q; selectedItems := selectedItems q;
     visible := b; disposed := disposed q |}.

(** [show()] does nothing on a disposed quick pick. *)
Definition shown (q : QuickPick) : QuickPick :=
  if disposed q then q else set_visible true q.

Definition hidden (q : QuickPick) : QuickPick := set_visible false q.

Definition disposed_of (q : QuickPick) : QuickPick :=
  {| items := items q; placeholder := placeholder q;
     activeItems := activeItems q; selectedItems := selectedItems q;
     visible := false; disposed := true |}.

(** The state of one invocation of the command: the store, the variables
    captured by the handlers, the two widgets and the log. *)
Record State := {
  config : gmap string string;
  originalFont : option string;
  lastActiveFontIndex : option Z;
  fontQuickPick : option QuickPick;
  weightQuickPick : option QuickPick;
  log : list Effect
}.

Definition initial (cfg : gmap string string) : State :=
  {| config := cfg; originalFont := None; lastActiveFontIndex := None;
     fontQuickPick := None; weightQuickPick := None; log := [] |}.

Definition emit (e : Effect) (st : State) : State :=
  {| config := config st; originalFont := originalFont st;
     lastActiveFontIndex := lastActiveFontIndex st;
     fontQuickPick := fontQuickPick st;
     weightQuickPick := weightQuickPick st; log := log st ++ [e] |}.

Definition with_config (c : gmap string string) (st : State) : State :=
  {| config := c; originalFont := originalFont st;
     lastActiveFontIndex := lastActiveFontIndex st;
     fontQuickPick := fontQuickPick st;
     weightQuickPick := weightQuickPick st; log := log st |}.

Definition with_originalFont (o : option string) (st : State) : State :=
  {| config := config st; originalFont := o;
     lastActiveFontIndex := lastActiveFontIndex st;
     fontQuickPick := fontQuickPick st;
     weightQuickPick := weightQuickPick st; log := log st |}.

Definition with_lastActiveFontIndex (i : option Z) (st : State) : State :=
  {| config := config st; originalFont := originalFont st;
     lastActiveFontIndex := i; fontQuickPick := fontQuickPick st;
     weightQuickPick := weightQuickPick st; log := log st |}.

Definition with_font (q : option QuickPick) (st : State) : State :=
  {| config := config st; originalFont := originalFont st;
     lastActiveFontIndex := lastActiveFontIndex st; fontQuickPick := q;
     weightQuickPick := weightQuickPick st; log := log st |}.

Definition with_weight (q : option QuickPick) (st : State) : State :=
  {| config := config st; originalFont := originalFont st;
     lastActiveFontIndex := lastActiveFontIndex st;
     fontQuickPick := fontQuickPick st; weightQuickPick := q;
     log := log st |}.

Definition picker (p : PickerId) (st : State) : option QuickPick :=
  match p with
  | FontPicker => fontQuickPick st
  | WeightPicker => weightQuickPick st
  end.

Definition with_picker (p : PickerId) (q : option QuickPick) (st : State)
    : State :=
  match p with
  | FontPicker => with_font q st
  | WeightPicker => with_weight q st
  end.

Definition other (p : PickerId) : PickerId :=
  match p with FontPicker => WeightPicker | WeightPicker => FontPicker end.

Definition update_picker (p : PickerId) (f : QuickPick -> QuickPick)
    (st : State) : State :=
  with_picker p (option_map f (picker p st)) st.

(** [config.get(key)] and [config.update(key, value, Global)]. *)
Definition config_get (key : string) (st : State) : option string * State :=
  (config st !! key, emit (ConfigGet key) st).

Definition config_update (key value : string) (st : State) : State :=
  emit (ConfigUpdate key value) (with_config (<[key := value]> (config st)) st).

Definition showErrorMessage (text : string) (st : State) : State :=
  emit (ShowErrorMessage text) st.

Definition create (p : PickerId) (st : State) : State :=
  emit (CreateQuickPick p) (with_picker p (Some createQuickPick) st).

Definition assign_items (p : PickerId) (l : list string) (st : State) : State :=
  emit (SetItems p l) (update_picker p (set_items l) st).

Definition assign_placeholder (p : PickerId) (t : string) (st : State)
    : State :=
  emit (SetPlaceholder p t) (update_picker p (set_placeholder t) st).

Definition assign_activeItems (p : PickerId) (l : list string) (st : State)
    : State :=
  emit (SetActiveItems p l) (update_picker p (set_activeItems l) st).

(** One quick pick is on screen at a time: showing one takes the other
    off the screen. *)
Definition show (p : PickerId) (st : State) : State :=
  match picker p st with
  | Some q =>
      if disposed q then emit (Show p) st
      else emit (Show p)
             (update_picker (other p) hidden (update_picker p shown st))
  | None => st
  end.

Definition hide (p : PickerId) (st : State) : State :=
  emit (Hide p) (update_picker p hidden st).

Definition dispose (p : PickerId) (st : State) : State :=
  emit (Dispose p) (update_picker p disposed_of st).

(** *** Events

    The host reports three events of a quick pick that has not been
    disposed: a change of the highlighted items and an acceptance, both
    only while the quick pick is on screen and only about its own items,
    and its hiding.  Before it calls the handler the host has updated
    [activeItems], [selectedItems] or the visibility. *)
Inductive Event :=
| DidChangeActive (p : PickerId) (active : list string)
| DidAccept (p : PickerId) (selected : list string)
| DidHide (p : PickerId).

Definition all_in (l items : list string) : bool :=
  forallb (fun x => existsb (String.eqb x) items) l.

Definition on_screen (p : PickerId) (st : State) : bool :=
  match picker p st with
  | Some q => visible q && negb (disposed q)
  | None => false
  end.

Definition alive (p : PickerId) (st : State) : bool :=
  match picker p st with
  | Some q => negb (disposed q)
  | None => false
  end.

Definition items_of (p : PickerId) (st : State) : list string :=
  match picker p st with Some q => items q | None => [] end.

Definition enabled (e : Event) (st : State) : bool :=
  match e with
  | DidChangeActive p l => on_screen p st && all_in l (items_of p st)
  | DidAccept p l => on_screen p st && all_in l (items_of p st)
  | DidHide p => alive p st
  end.

Record Handlers := {
  onDidChangeActive : PickerId -> list string -> State -> State;
  onDidAccept : PickerId -> State -> State;
  onDidHide : PickerId -> State -> State
}.

Definition deliver (h : Handlers) (e : Event) (st : State) : State :=
  if enabled e st then
    match e with
    | DidChangeActive p l =>
        onDidChangeActive h p l (update_picker p (set_activeItems l) st)
    | DidAccept p l =>
        onDidAccept h p (update_picker p (set_selectedItems l) st)
    | DidHide p => onDidHide h p (update_picker p hidden st)
    end
  else st.

Definition run (h : Handlers) (es : list Event) (st : State) : State :=
  fold_left (fun s e => deliver h e s) es st.

(** The configuration writes of a log. *)
Definition is_write (e : Effect) : bool :=
  match e with ConfigUpdate _ _ => true | _ => false end.

Definition writes (l : list Effect) : list Effect := List.filter is_write l.

Definition touches_config (e : Effect) : bool :=
  match e with
  | GetConfiguration _ | ConfigGet _ | ConfigUpdate _ _ => true
  | _ => false
  end.

Definition touches_picker (e : Effect) : bool :=
  match e with
  | CreateQuickPick _ | SetItems _ _ | SetPlaceholder _ _
  | SetActiveItems _ _ | Show _ | Hide _ | Dispose _ => true
  | _ => false
  end.

End Host.

(** ** The selection flow *)

Module Flow.
Import Js Enumerator Host.

Definition fontWeights : list string :=
  ["normal"; "bold"; "100"; "200"; "300"; "400"; "500"; "600"; "700";
   "800"; "900"].

Definition selected_of (p : PickerId) (st : State) : list string :=
  match picker p st with Some q => selectedItems q | None => [] end.

(** [originalFont ? originalFont.split(',').map(f => f.trim()) : []] *)
Definition fallback_chain (originalFont : option string) : list string :=
  match originalFont with
  | Some o => if truthy o then map trim (split "," o) else []
  | None => []
  end.

(** [[selectedFont, ...chain].filter((v, i, a) => a.indexOf(v) === i)
      .join(', ')] *)
Definition updatedFontFamily (selectedFont : string)
    (originalFont : option string) : string :=
  join ", "
    (Js.filter (fun v i a => Z.eqb (indexOf a v) i)
       (selectedFont :: fallback_chain originalFont)).

(** The hide handler of the font picker, the same text in both files. *)
Definition font_onDidHide (st : State) : State :=
  let st :=
    match originalFont st with
    | Some o =>
        if Nat.eqb (length (selected_of FontPicker st)) 0 && truthy o
        then config_update "fontFamily" o st else st
    | None => st
    end in
  dispose FontPicker st.

End Flow.

(** *** [src/extension.ts] *)

Module ExtensionTs.
Import Js Enumerator Host Flow.

Definition font_onDidChangeActive (active : list string) (st : State)
    : State :=
  match active with
  | item0 :: _ =>
      let selectedFont := item0 in
      config_update "fontFamily"
        (updatedFontFamily selectedFont (originalFont st)) st
  | [] => st
  end.

Definition weight_onDidAccept (st : State) : State :=
  let st :=
    match head (selected_of WeightPicker st) with
    | Some selectedWeight =>
        if truthy selectedWeight
        then config_update "fontWeight" selectedWeight st else st
    | None => st
    end in
  dispose WeightPicker st.

Definition weight_onDidHide (st : State) : State :=
  dispose WeightPicker st.

Definition font_onDidAccept (st : State) : State :=
  match head (selected_of FontPicker st) with
  | Some selectedFont =>
      if truthy selectedFont then
        let st := create WeightPicker st in
        let st := assign_items WeightPicker fontWeights st in
        let st :=
          assign_placeholder WeightPicker
            ("Select a font weight for " +:+ selectedFont) st in
        show WeightPicker st
      else st
  | None => st
  end.

Definition handlers : Handlers :=
  {| onDidChangeActive p active st :=
       match p with
       | FontPicker => font_onDidChangeActive active st
       | WeightPicker => st
       end;
     onDidAccept p st :=
       match p with
       | FontPicker => font_onDidAccept st
       | WeightPicker => weight_onDidAccept st
       end;
     onDidHide p st :=
       match p with
       | FontPicker => font_onDidHide st
       | WeightPicker => weight_onDidHide st
       end |}.

(** The callback registered for [extension.selectMonospacedFont]. *)
Definition command (env : Env) (st : State) : State :=
  match getMonospacedFonts env with
  | Resolved fonts =>
      if Nat.eqb (length fonts) 0 then
        showErrorMessage "No monospaced fonts found on the system." st
      else
        let st := emit (GetConfiguration "editor") st in
        let (value, st) := config_get "fontFamily" st in
        let st := with_originalFont value st in
        let st := create FontPicker st in
        let st := assign_items FontPicker fonts st in
        let st :=
          assign_placeholder FontPicker "Select a monospaced font" st in
        show FontPicker st
  | Rejected error =>
      showErrorMessage ("Error fetching fonts: " +:+ message error) st
  | Pending => st
  end.

End ExtensionTs.

(** *** The second variant ([part_000]) *)

Module Part000.
Import Js Enumerator Host Flow.

Definition marker : string := "Current Font: ".

(** [label.replace('Current Font: ', '').trim()] *)
Definition font_of_label (label : string) : string :=
  trim (replace marker EmptyString label).

Definition applyWeight (weight : option string) (st : State) : State :=
  match weight with
  | Some w => if truthy w then config_update "fontWeight" w st else st
  | None => st
  end.

Definition weight_onDidChangeActive (weightItems : list string) (st : State)
    : State :=
  let selectedWeight := head weightItems in
  applyWeight selectedWeight st.

Definition weight_onDidAccept (st : State) : State :=
  let selectedWeight := head (selected_of WeightPicker st) in
  dispose WeightPicker (applyWeight selectedWeight st).

Definition weight_onDidHide (st : State) : State :=
  let st :=
    if Nat.eqb (length (selected_of WeightPicker st)) 0
    then show FontPicker st else st in
  dispose WeightPicker st.

Definition handleWeightSelection (selectedFont : string) (st : State)
    : State :=
  let st := create WeightPicker st in
  let st := assign_items WeightPicker fontWeights st in
  let st :=
    assign_placeholder WeightPicker
      ("Select a font weight for " +:+ selectedFont) st in
  let st := show WeightPicker st in
  hide FontPicker st.

Definition font_onDidChangeActive (active : list string) (st : State)
    : State :=
  match active with
  | item0 :: _ =>
      let selectedFont := font_of_label item0 in
      let st :=
        with_lastActiveFontIndex
          (Some (findIndex (fun item => String.eqb item item0)
                   (items_of FontPicker st))) st in
      config_update "fontFamily"
        (updatedFontFamily selectedFont (originalFont st)) st
  | [] => st
  end.

Definition font_onDidAccept (st : State) : State :=
  match option_map font_of_label (head (selected_of FontPicker st)) with
  | Some selectedFont =>
      if truthy selectedFont then handleWeightSelection selectedFont st
      else st
  | None => st
  end.

Definition handlers : Handlers :=
  {| onDidChangeActive p active st :=
       match p with
       | FontPicker => font_onDidChangeActive active st
       | WeightPicker => weight_onDidChangeActive active st
       end;
     onDidAccept p st :=
       match p with
       | FontPicker => font_onDidAccept st
       | WeightPicker => weight_onDidAccept st
       end;
     onDidHide p st :=
       match p with
       | FontPicker => font_onDidHide st
       | WeightPicker => weight_onDidHide st
       end |}.

(** [handleFontSelection].  [lastActiveFontIndex] is declared without a
    value and tested on the spot, before any handler has run. *)
Definition handleFontSelection (fonts : list string)
    (originalFont : option string) (st : State) : State :=
  let st := with_originalFont originalFont st in
  let st := create FontPicker st in
  let firstFontinOriginalFont :=
    option_map (fun o => trim (hd EmptyString (split "," o))) originalFont in
  let fonts :=
    match firstFontinOriginalFont with
    | Some first => if truthy first then (marker +:+ first) :: fonts
                    else fonts
    | None => fonts
    end in
  let st := assign_items FontPicker fonts st in
  let st := assign_placeholder FontPicker "Select a monospaced font" st in
  let st := with_lastActiveFontIndex None st in
  let st :=
    match lastActiveFontIndex st with
    | Some i =>
        assign_activeItems FontPicker
          (match nth_error (items_of FontPicker st) (Z.to_nat i) with
           | Some item => [item]
           | None => []
           end) st
    | None => st
    end in
  show FontPicker st.

(** The callback registered for [extension.selectMonospacedFont].  Every
    rejection of the enumeration carries an [Error] object. *)
Definition command (env : Env) (st : State) : State :=
  match getMonospacedFonts env with
  | Resolved fonts =>
      if Nat.eqb (length fonts) 0 then
        showErrorMessage "No monospaced fonts found on the system." st
      else
        let st := emit (GetConfiguration "editor") st in
        let (originalFont, st) := config_get "fontFamily" st in
        handleFontSelection fonts originalFont st
  | Rejected error =>
      let errorMessage := message error in
      showErrorMessage ("Error fetching fonts: " +:+ errorMessage) st
  | Pending => st
  end.

End Part000.

(** ** Vocabulary of the specification *)

Module Spec.
Import Js Enumerator Host Flow.

(** Removal of duplicates, stable, the first occurrence wins. *)
Fixpoint dedup_first (l : list string) : list string :=
  match l with
  | [] => []
  | x :: r => x :: List.filter (fun y => negb (String.eqb y x)) (dedup_first r)
  end.

Definition without (c : string) (l : list string) : list string :=
  List.filter (fun y => negb (String.eqb y c)) l.

(** The previewed value: the candidate, then the fallback chain without
    the candidate and without later duplicates. *)
Definition preview (c : string) (original : option string) : string :=
  join ", " (c :: dedup_first (without c (fallback_chain original))).

(** A line of the Unix listing is dropped when it is empty or begins with
    a full stop. *)
Definition empty_line (line : string) : bool := negb (truthy line).
Definition dot_line (line : string) : bool := startsWith "." line.

Definition kept_line (line : string) : bool :=
  negb (empty_line line) && negb (dot_line line).

Definition unix_fonts (output : string) : list string :=
  dedup_first (map trim (List.filter kept_line (split LF output))).

(** *** Registry listings

    A value line of the listing: indentation, the name of the value, the
    type [REG_SZ] and the data, with blanks in between, followed by a line
    break.  The name may have several words, as [reg query] prints them.
    [token_line] holds of the lines whose name is one token without white
    space; the data begin with a visible character and stay on the line. *)
Record RegEntry := {
  indent : list ascii;
  name : list ascii;
  gap1 : list ascii;
  gap2 : list ascii;
  data : list ascii;
  eol : list ascii
}.

Definition blank (c : ascii) : bool :=
  is_white_space c && negb (is_line_terminator c).

Definition nonempty {A} (l : list A) : bool :=
  match l with [] => false | _ :: _ => true end.

Definition token_line (e : RegEntry) : bool :=
  forallb blank (indent e)
  && nonempty (name e) && forallb cls_not_space (name e)
  && nonempty (gap1 e) && forallb blank (gap1 e)
  && nonempty (gap2 e) && forallb blank (gap2 e)
  && match data e with
     | c :: _ => cls_not_space c
     | [] => false
     end
  && forallb cls_dot (data e)
  && forallb is_line_terminator (eol e).

Definition line (e : RegEntry) : list ascii :=
  indent e ++ name e ++ gap1 e ++ chars "REG_SZ" ++ gap2 e ++ data e.

Fixpoint render (es : list RegEntry) : list ascii :=
  match es with
  | [] => []
  | e :: r => line e ++ eol e ++ render r
  end.

(** [l] ends with [p]. *)
Fixpoint ends_with (p l : list ascii) : bool :=
  bool_decide (l = p)
  || match l with
     | [] => false
     | _ :: r => ends_with p r
     end.

Definition is_letter (lower upper c : ascii) : bool :=
  Ascii.eqb c lower || Ascii.eqb c upper.

Definition mono_here (l : list ascii) : bool :=
  match l with
  | a :: b :: c :: d :: _ =>
      is_letter "m" "M" a && is_letter "o" "O" b && is_letter "n" "N" c
      && is_letter "o" "O" d
  | _ => false
  end.

(** The name contains [mono] in any letter case. *)
Fixpoint mono_anycase (l : list ascii) : bool :=
  mono_here l
  || match l with
     | [] => false
     | _ :: r => mono_anycase r
     end.

Definition ttf_path (e : RegEntry) : bool := ends_with (chars ".ttf") (data e).

(** The listing as the sentence of the specification reads: every entry
    with [mono] in its name and [.ttf] at the end of its data, whatever
    the name. *)
Definition wanted (e : RegEntry) : bool :=
  mono_anycase (name e) && ttf_path e.

Definition registry_fonts (es : list RegEntry) : list string :=
  dedup_first (map (fun e => str (name e)) (List.filter wanted es)).

(** *** The registry listing as text

    The listing line by line.  A line is cut at its white space: its
    first word, its second word, and what follows the second word after
    the white space. *)

Fixpoint leading (p : ascii -> bool) (l : list ascii) : list ascii :=
  match l with
  | c :: r => if p c then c :: leading p r else []
  | [] => []
  end.

Fixpoint behind (p : ascii -> bool) (l : list ascii) : list ascii :=
  match l with
  | c :: r => if p c then behind p r else l
  | [] => []
  end.

Definition word1 (l : list ascii) : list ascii :=
  leading cls_not_space (behind is_white_space l).

Definition past1 (l : list ascii) : list ascii :=
  behind cls_not_space (behind is_white_space l).

Definition word2 (l : list ascii) : list ascii := word1 (past1 l).

Definition value_of (l : list ascii) : list ascii :=
  behind is_white_space (past1 (past1 l)).

Definition is_REG_SZ (w : list ascii) : bool :=
  bool_decide (w = chars "REG_SZ").

(** A value line of type [REG_SZ] whose name is one word:
    [<name> REG_SZ <data>], and the lines the listing extracts. *)
Definition is_value_line (l : list ascii) : bool :=
  nonempty (word1 l) && is_REG_SZ (word2 l) && nonempty (value_of l).

Definition matched (l : list ascii) : bool :=
  is_value_line l && ends_with (chars ".ttf") (value_of l).

Definition extracted (l : list ascii) : bool :=
  matched l && mono_anycase (word1 l).

(** The lines of a text, each with its line terminator; the last line has
    none.  LF and CR each end a line, as for [^] and [$] under the flag
    [m], so that CR LF leaves an empty line in between. *)
Fixpoint text_lines (t : list ascii) : list (list ascii * list ascii) :=
  match t with
  | [] => [([], [])]
  | c :: r =>
      if is_line_terminator c then ([], [c]) :: text_lines r
      else match text_lines r with
           | (l, e) :: ls => (c :: l, e) :: ls
           | [] => [([c], [])]
           end
  end.

Fixpoint render_lines (ls : list (list ascii * list ascii)) : list ascii :=
  match ls with
  | [] => []
  | (l, e) :: r => l ++ e ++ render_lines r
  end.

Definition lines (output : string) : list (list ascii) :=
  map fst (text_lines (chars output)).

(** No value line is broken across lines.  With [n] the next line that
    is not blank: a line of one word does not stand before a line that
    begins with the word [REG_SZ], and a line that is a name and the word
    [REG_SZ] without data does not stand before a line that ends with
    [.ttf]. *)
Definition one_word (l : list ascii) : bool :=
  nonempty (word1 l) && negb (nonempty (word2 l)).

Definition no_data (l : list ascii) : bool :=
  is_REG_SZ (word2 l) && negb (nonempty (value_of l)).

Definition next_line (r : list (list ascii)) : list ascii :=
  hd [] (List.filter (fun l => nonempty (word1 l)) r).

Definition unbroken (l n : list ascii) : bool :=
  negb (one_word l && is_REG_SZ (word1 n))
  && negb (no_data l && ends_with (chars ".ttf") n).

Fixpoint regular_lines (ls : list (list ascii)) : bool :=
  match ls with
  | [] => true
  | l :: r => unbroken l (next_line r) && regular_lines r
  end.

Definition regular_listing (output : string) : bool :=
  regular_lines (lines output).

Definition registry_names (output : string) : list string :=
  dedup_first
    (map (fun l => str (word1 l)) (List.filter extracted (lines output))).

(** Lines as [text_lines] gives them: no terminator inside a line, one
    after each line but the last. *)
Definition eol_ok (e : list ascii) (r : list (list ascii * list ascii))
    : bool :=
  match e with
  | [] => negb (nonempty r)
  | [t] => is_line_terminator t
  | _ => false
  end.

Fixpoint lines_ok (ls : list (list ascii * list ascii)) : bool :=
  match ls with
  | [] => true
  | (l, e) :: r => forallb cls_dot l && eol_ok e r && lines_ok r
  end.

(** The first line of a listing that the pattern matches, with the lines
    after it; the same when only blank lines may be passed over. *)
Fixpoint first_hit (ls : list (list ascii * list ascii))
    : option (list ascii * list ascii * list (list ascii * list ascii)) :=
  match ls with
  | [] => None
  | (l, e) :: r => if matched l then Some (word1 l, e, r) else first_hit r
  end.

Fixpoint head_hit (ls : list (list ascii * list ascii))
    : option (list ascii * list ascii * list (list ascii * list ascii)) :=
  match ls with
  | [] => None
  | (l, e) :: r =>
      if nonempty (word1 l)
      then if matched l then Some (word1 l, e, r) else None
      else head_hit r
  end.

Definition hit_match
    (h : option (list ascii * list ascii * list (list ascii * list ascii)))
    : option Match :=
  match h with
  | Some (g, e, r) => Some (g, Some "f"%char, e ++ render_lines r)
  | None => None
  end.

(** The body of the loop over the matches, for one matched name. *)
Definition add_name (fonts : StringSet) (g : list ascii) : StringSet :=
  if includes "mono" (toLowerCase (str g)) then set_add fonts (str g)
  else fonts.

(** *** States of the flow *)

Definition has_selection (p : PickerId) (st : State) : bool :=
  nonempty (selected_of p st).

(** While the weight picker lives, the font picker is off the screen and
    holds the accepted item. *)
Definition weight_stage_inv (st : State) : Prop :=
  alive WeightPicker st = true ->
  on_screen FontPicker st = false /\ has_selection FontPicker st = true.

(** The weight picker offers the eleven weight tokens. *)
Definition weight_items_inv (st : State) : Prop :=
  forall q, weightQuickPick st = Some q -> items q = fontWeights.

Definition flow_inv (st : State) : Prop :=
  weight_stage_inv st /\ weight_items_inv st.

(** After the acceptance of a weight: nothing is on the screen, and
    the font picker still holds the accepted item. *)
Definition committed (st : State) : Prop :=
  alive WeightPicker st = false
  /\ on_screen FontPicker st = false
  /\ has_selection FontPicker st = true.

(** The font stage before any acceptance. *)
Definition font_stage (cfg0 : gmap string string) (st : State) : Prop :=
  originalFont st = cfg0 !! "fontFamily"
  /\ selected_of FontPicker st = []
  /\ alive FontPicker st = true
  /\ weightQuickPick st = None
  /\ (forall k, k <> "fontFamily" -> config st !! k = cfg0 !! k).

Definition backslash (c : ascii) : bool := Nat.eqb (code c) 92.

Definition is_set_active (e : Effect) : bool :=
  match e with SetActiveItems _ _ => true | _ => false end.

Definition set_actives (l : list Effect) : list Effect :=
  List.filter is_set_active l.

(** Positions of the matcher: [l] is empty or begins outside the class
    [p]; the code unit before the position reached by reading [l]; the
    positions where [^] holds. *)
Definition stops (p : ascii -> bool) (l : list ascii) : bool :=
  match l with [] => true | c :: _ => negb (p c) end.

Fixpoint after (prev : option ascii) (l : list ascii) : option ascii :=
  match l with [] => prev | c :: r => after (Some c) r end.

Definition bol (prev : option ascii) : bool :=
  match prev with None => true | Some c => is_line_terminator c end.

(** The continuations of the pattern after group 1, from the end
    backwards; [regex_here] is built from the same pieces. *)
Definition k_end (g : list ascii) : Cont Match := fun p r => Some (g, p, r).
Definition k_ttf (g : list ascii) : Cont Match :=
  m_lit (chars ".ttf") (m_eol (k_end g)).
Definition k_data (g : list ascii) : Cont Match := m_star cls_dot (k_ttf g).
Definition k_gap2 (g : list ascii) : Cont Match := m_plus cls_space (k_data g).
Definition k_type (g : list ascii) : Cont Match :=
  m_lit (chars "REG_SZ") (k_gap2 g).
Definition k_gap1 (g : list ascii) : Cont Match := m_plus cls_space (k_type g).

Definition found (g : list ascii) (b : bool) (rest : list ascii)
    : option Match :=
  if b then Some (g, Some "f"%char, rest) else None.

(** A continuation that succeeds only after reading at least [n] code
    units. *)
Definition shrinks (k : Cont Match) (n : nat) : Prop :=
  forall prev rest g p r,
    k prev rest = Some (g, p, r) -> (length r + n <= length rest)%nat.

(** The Unix listing as the sentence of the specification reads: blank
    lines, also those of white space only, and lines beginning with a
    full stop dropped, the rest deduplicated. *)
Definition blank_line (line : string) : bool :=
  forallb is_white_space (chars line).

Definition unix_fonts_as_specified (output : string) : list string :=
  dedup_first
    (List.filter (fun l => negb (blank_line l) && negb (dot_line l))
       (split LF output)).


(** The two variants of the extension. *)
Inductive Variant := ExtensionTsFile | Part000File.

Definition handlers_of (v : Variant) : Handlers :=
  match v with
  | ExtensionTsFile => ExtensionTs.handlers
  | Part000File => Part000.handlers
  end.

Definition command_of (v : Variant) : Env -> State -> State :=
  match v with
  | ExtensionTsFile => ExtensionTs.command
  | Part000File => Part000.command
  end.

(** The states an invocation goes through: the command, then events. *)
Definition trace (v : Variant) (env : Env) (cfg0 : gmap string string)
    (es : list Event) : State :=
  run (handlers_of v) es (command_of v env (initial cfg0)).

(** A listing of two fonts on linux, and a session that reaches the
    weight stage. *)
Definition two_fonts : Env :=
  {| platform := "linux";
     shell := fun _ => Exited 0 ("A" +:+ String LF "B") EmptyString |}.

Definition to_weight_stage : list Event :=
  [DidChangeActive FontPicker ["B"]; DidAccept FontPicker ["B"]].

Definition fira_consolas : gmap string string :=
  <["fontFamily" := "Fira Code, Consolas"]> ∅.

(** Value lines as [reg query] prints them. *)
Definition value_line (nm dat : string) (el : list ascii) : RegEntry :=
  {| indent := chars "    "; name := chars nm; gap1 := chars "    ";
     gap2 := chars "    "; data := chars dat; eol := el |}.

Definition CRLF : list ascii := [ascii_of_nat 13; LF].

Definition cascadia : RegEntry :=
  value_line "Cascadia Mono (TrueType)" "CascadiaMono.ttf" CRLF.

(** A listing as [reg query] prints it: an empty line, the key, the
    values; among them names of several words, a value without data and
    a value of another type; then a subkey. *)
Definition reg_query_listing : string :=
  str (CRLF
       ++ chars "HKEY_LOCAL_MACHINE\SOFTWARE\Microsoft\Windows NT"
       ++ chars "\CurrentVersion\Fonts" ++ CRLF
       ++ chars "    Arial (TrueType)    REG_SZ    arial.ttf" ++ CRLF
       ++ chars "    Cascadia Mono (TrueType)    REG_SZ    CascadiaMono.ttf"
       ++ CRLF
       ++ chars "    JetBrainsMono-Regular    REG_SZ    "
       ++ chars "C:\Fonts\JetBrainsMono.ttf" ++ CRLF
       ++ chars "    monoempty    REG_SZ    " ++ CRLF
       ++ chars "    DejaVuSansMONO    REG_SZ    DejaVuSansMono.TTF" ++ CRLF
       ++ chars "    Version    REG_DWORD    0x1" ++ CRLF
       ++ chars "    JetBrainsMono-Regular    REG_SZ    jbm.ttf" ++ CRLF
       ++ chars "    monofur    REG_SZ    monof55.ttf" ++ CRLF
       ++ CRLF
       ++ chars "HKEY_LOCAL_MACHINE\SOFTWARE\Mono" ++ CRLF
       ++ chars "    (Default)    REG_SZ    x.ttf" ++ CRLF
       ++ CRLF).

(** Value lines broken across lines: a value without data before a line
    that ends with [.ttf], and a key of one word before a value named
    [REG_SZ]. *)
Definition value_without_data : string :=
  str (chars "    FooMono    REG_SZ    " ++ CRLF
       ++ chars "    Arial    REG_SZ    arial.ttf").

Definition word_before_REG_SZ : string :=
  str (chars "HKLM\Mono" ++ CRLF ++ chars "    REG_SZ    REG_SZ    x.ttf").

(** The empty font family, a value that exists and is not truthy. *)
Definition empty_family : gmap string string :=
  <["fontFamily" := EmptyString]> ∅.

End Spec.

Import Js Enumerator Host Flow Spec.

(** ** Proof steps used more than once *)

Ltac inv_unfold :=
  unfold flow_inv, weight_stage_inv, weight_items_inv, alive, on_screen,
    has_selection, selected_of, items_of in *.

Ltac inv_close H1 H2 :=
  split;
  [ intros Ha; try discriminate Ha; try (now destruct (H1 Ha)); auto
  | intros q Hq;
    first [ discriminate Hq
          | now apply H2
          | injection Hq as <-; cbn;
            first [reflexivity | now apply (H2 _ eq_refl)] ] ].

Ltac log_done :=
  unfold set_actives; cbn; rewrite ?List.filter_app; cbn;
  rewrite ?app_nil_r; reflexivity.

Ltac case_all :=
  repeat match goal with
         | |- context [match ?x with _ => _ end] => destruct x; cbn
         end.

(** ** Vocabulary of the further properties *)

Module Cover.
Import Js Enumerator Host Flow Spec.

(** The font that a highlighted or accepted label stands for. *)
Definition candidate (v : Variant) (label : string) : string :=
  match v with
  | ExtensionTsFile => label
  | Part000File => Part000.font_of_label label
  end.

(** The array that the preview joins. *)
Definition preview_entries (selectedFont : string)
    (originalFont : option string) : list string :=
  Js.filter (fun v i a => Z.eqb (indexOf a v) i)
    (selectedFont :: fallback_chain originalFont).

Definition comma : ascii := ","%char.

Definition comma_free (s : string) : bool :=
  negb (existsb (Ascii.eqb comma) (chars s)).

(** [originalFont?.split(',')[0].trim()] on a font family that is set. *)
Definition first_font (o : string) : string :=
  trim (hd EmptyString (split comma o)).

Definition placeholder_of (p : PickerId) (st : State) : string :=
  match picker p st with Some q => placeholder q | None => EmptyString end.

(** A continuation that can only answer with the group [g]. *)
Definition yields (g : list ascii) (k : Cont Match) : Prop :=
  forall prev rest g' p r, k prev rest = Some (g', p, r) -> g' = g.

(** A name as the pattern can capture it and the loop keeps it: not empty,
    without white space, with [mono] in some letter case. *)
Definition mono_token (s : string) : bool :=
  truthy s && forallb cls_not_space (chars s) && mono_anycase (chars s).

Definition MiB : Z := 1024 * 1024.

(** The writes of an invocation: a preview of an item of the font picker
    over the captured font family [o], the captured font family itself,
    or one of the weight tokens. *)
Definition preview_write (v : Variant) (o : option string)
    (items : list string) (value : string) : Prop :=
  exists label,
    In label items /\ value = updatedFontFamily (candidate v label) o.

Definition legal_write (v : Variant) (o : option string)
    (items : list string) (e : Effect) : Prop :=
  match e with
  | ConfigUpdate key value =>
      (key = "fontFamily" /\ (o = Some value \/ preview_write v o items value))
      \/ (key = "fontWeight" /\ In value fontWeights)
  | _ => True
  end.

End Cover.

Import Cover.

(** Case analysis from the inside: the scrutinee holds no other case. *)
Ltac case_inner :=
  repeat match goal with
         | |- context [match ?x with _ => _ end] =>
             lazymatch x with
             | context [match _ with _ => _ end] => fail
             | _ => destruct x; cbn
             end
         end.

(** * Properties *)

(** ** Lists without duplicates *)

Section Dedup.

Implicit Types (l acc : list string) (x y : string).

Lemma filter_swap {A} (p q : A -> bool) (l : list A) :
  List.filter p (List.filter q l) = List.filter q (List.filter p l).
Proof.
  induction l as [|a l IH]; simpl; [reflexivity|].
  destruct (q a) eqn:Hq, (p a) eqn:Hp; simpl; rewrite ?Hq, ?Hp, IH; reflexivity.
Qed.

Lemma filter_all {A} (p : A -> bool) (l : list A) :
  (forall a, In a l -> p a = true) -> List.filter p l = l.
Proof.
  induction l as [|a l IH]; simpl; intros H; [reflexivity|].
  rewrite (H a) by now left.
  f_equal. apply IH. intros b Hb. apply H. now right.
Qed.

Lemma dedup_first_In x l : In x (dedup_first l) <-> In x l.
Proof.
  induction l as [|a l IH]; simpl; [tauto|].
  rewrite filter_In, IH.
  destruct (String.eqb_spec x a) as [->|Hne]; simpl; intuition congruence.
Qed.

Lemma dedup_first_filter (p : string -> bool) l :
  List.filter p (dedup_first l) = dedup_first (List.filter p l).
Proof.
  induction l as [|a l IH]; simpl; [reflexivity|].
  destruct (p a) eqn:Hp; simpl.
  - f_equal. rewrite filter_swap, IH. reflexivity.
  - rewrite filter_swap, IH. apply filter_all.
    intros b Hb. apply dedup_first_In, filter_In in Hb as [_ Hb].
    destruct (String.eqb_spec b a) as [->|]; [congruence|reflexivity].
Qed.

Lemma dedup_first_NoDup l : List.NoDup (dedup_first l).
Proof.
  induction l as [|a l IH]; simpl; constructor.
  - rewrite filter_In, String.eqb_refl. simpl. intros [_ H]. discriminate.
  - now apply List.NoDup_filter.
Qed.

(** The head stays and leaves the rest. *)
Lemma dedup_first_head x l :
  dedup_first (x :: l) = x :: dedup_first (without x l).
Proof. simpl. unfold without. now rewrite dedup_first_filter. Qed.

Lemma set_has_In acc x : set_has acc x = true <-> In x acc.
Proof.
  unfold set_has. rewrite existsb_exists. split.
  - intros (y & Hy & Heq). apply String.eqb_eq in Heq. now subst.
  - intros H. exists x. split; [assumption|apply String.eqb_refl].
Qed.

Lemma set_has_snoc acc a x :
  set_has (acc ++ [a]) x = set_has acc x || String.eqb x a.
Proof.
  unfold set_has. rewrite existsb_app. simpl. now rewrite orb_false_r.
Qed.

Lemma filter_not_has_snoc acc a l :
  List.filter (fun x => negb (set_has (acc ++ [a]) x)) l
  = without a (List.filter (fun x => negb (set_has acc x)) l).
Proof.
  unfold without.
  induction l as [|b l IH]; simpl; [reflexivity|].
  rewrite set_has_snoc.
  destruct (set_has acc b); simpl; [assumption|].
  destruct (String.eqb b a); simpl; now rewrite IH.
Qed.

(** Adding the elements of [l] one by one to a [Set] that holds [acc]. *)
Lemma fold_set_add l : forall acc,
  fold_left set_add l acc
  = acc ++ dedup_first (List.filter (fun x => negb (set_has acc x)) l).
Proof.
  induction l as [|a l IH]; intros acc; simpl.
  - now rewrite app_nil_r.
  - unfold set_add at 2. destruct (set_has acc a) eqn:Ha; simpl.
    + apply IH.
    + rewrite IH, <- app_assoc. simpl. do 2 f_equal.
      rewrite filter_not_has_snoc. unfold without.
      now rewrite dedup_first_filter.
Qed.

Lemma fold_set_add_nil l : fold_left set_add l [] = dedup_first l.
Proof.
  rewrite fold_set_add. simpl. f_equal. now apply filter_all.
Qed.

Lemma indexOf_from_app pre v suf i :
  ~ In v pre ->
  indexOf_from (pre ++ v :: suf) v i = i + Z.of_nat (length pre).
Proof.
  revert i. induction pre as [|a pre IH]; intros i Hn; simpl.
  - rewrite String.eqb_refl. lia.
  - destruct (String.eqb_spec a v) as [->|_]; [exfalso; apply Hn; now left|].
    rewrite IH; [lia|]. intros H. apply Hn. now right.
Qed.

Lemma indexOf_from_lt pre v suf i :
  In v pre -> indexOf_from (pre ++ suf) v i < i + Z.of_nat (length pre).
Proof.
  revert i. induction pre as [|a pre IH]; intros i Hin; simpl; [destruct Hin|].
  destruct (String.eqb_spec a v) as [->|Hne]; [lia|].
  destruct Hin as [->|Hin]; [congruence|].
  specialize (IH (i + 1) Hin). lia.
Qed.

(** [filter((v, i, a) => a.indexOf(v) === i)] keeps the first occurrences. *)
Lemma filter_from_indexOf suf : forall pre,
  filter_from (fun v i => Z.eqb (indexOf (pre ++ suf) v) i) suf
    (Z.of_nat (length pre))
  = dedup_first (List.filter (fun x => negb (set_has pre x)) suf).
Proof.
  induction suf as [|a suf IH]; intros pre; simpl; [reflexivity|].
  assert (Hstep : Z.of_nat (length pre) + 1 = Z.of_nat (length (pre ++ [a])))
    by (rewrite length_app; simpl; lia).
  assert (Happ : pre ++ a :: suf = (pre ++ [a]) ++ suf)
    by now rewrite <- app_assoc.
  destruct (set_has pre a) eqn:Ha; simpl.
  - apply set_has_In in Ha.
    pose proof (indexOf_from_lt pre a (a :: suf) 0 Ha) as Hlt.
    unfold indexOf at 1.
    destruct (Z.eqb_spec (indexOf_from (pre ++ a :: suf) a 0)
                (Z.of_nat (length pre))) as [Heq|_]; [lia|].
    rewrite Hstep, Happ, IH, filter_not_has_snoc. f_equal.
    apply filter_all. intros b Hb. apply filter_In in Hb as [_ Hb].
    destruct (String.eqb_spec b a) as [->|]; [|reflexivity].
    apply set_has_In in Ha. rewrite Ha in Hb. discriminate.
  - assert (Hn : ~ In a pre)
      by (intros H; apply set_has_In in H; congruence).
    unfold indexOf at 1. rewrite (indexOf_from_app pre a suf 0 Hn).
    rewrite Z.add_0_l, Z.eqb_refl. f_equal.
    rewrite Hstep, Happ, IH, filter_not_has_snoc. unfold without.
    now rewrite dedup_first_filter.
Qed.

Lemma js_filter_first_occurrence l :
  Js.filter (fun v i a => Z.eqb (indexOf a v) i) l = dedup_first l.
Proof.
  unfold Js.filter. pose proof (filter_from_indexOf l []) as H.
  change (Z.of_nat (length (@nil string))) with 0 in H.
  change ([] ++ l) with l in H.
  rewrite H. f_equal. now apply filter_all.
Qed.

End Dedup.

(** ** The Unix listing *)

Lemma fold_add_line lines : forall fonts,
  fold_left add_line lines fonts
  = fold_left set_add (map trim (List.filter kept_line lines)) fonts.
Proof.
  induction lines as [|l lines IH]; intros fonts; simpl; [reflexivity|].
  unfold add_line at 2, kept_line, empty_line, dot_line.
  rewrite negb_involutive.
  destruct (truthy l && negb (startsWith "." l)); simpl; apply IH.
Qed.

Lemma parse_unix output :
  Array_from (fold_left add_line (split LF output) []) = unix_fonts output.
Proof.
  unfold Array_from, unix_fonts. now rewrite fold_add_line, fold_set_add_nil.
Qed.

(** C5, amended. On darwin and on linux the parsed list is the list of
    the trimmed lines of the output that are neither empty nor begin with a
    full stop, without duplicates, every name at the place where it is
    first seen. *)
Theorem unix_output_filtered_and_deduplicated (output : string) :
  parseMonospacedFonts output "darwin" = Some (unix_fonts output)
  /\ parseMonospacedFonts output "linux" = Some (unix_fonts output)
  /\ List.NoDup (unix_fonts output)
  /\ (forall font, In font (unix_fonts output) <->
        exists l, In l (split LF output) /\ empty_line l = false
                  /\ dot_line l = false /\ font = trim l).
Proof.
  repeat split.
  - unfold parseMonospacedFonts. simpl. now rewrite parse_unix.
  - unfold parseMonospacedFonts. simpl. now rewrite parse_unix.
  - apply dedup_first_NoDup.
  - unfold unix_fonts. rewrite dedup_first_In, in_map_iff.
    intros (l & <- & Hl). apply filter_In in Hl as [Hin Hk].
    unfold kept_line in Hk. apply andb_true_iff in Hk as [H1 H2].
    exists l. repeat split; try assumption; now apply negb_true_iff.
  - intros (l & Hin & He & Hd & ->).
    unfold unix_fonts. rewrite dedup_first_In, in_map_iff.
    exists l. split; [reflexivity|]. apply filter_In. split; [assumption|].
    unfold kept_line. now rewrite He, Hd.
Qed.

(** C5 as stated fails on a line of white space: it is not dropped, and
    the empty name enters the list. *)
Lemma whitespace_line_not_excluded :
  parseMonospacedFonts ("A" +:+ String LF ("  " +:+ String LF "B")) "linux"
  = Some ["A"; EmptyString; "B"]
  /\ unix_fonts_as_specified ("A" +:+ String LF ("  " +:+ String LF "B"))
     = ["A"; "B"]
  /\ parseMonospacedFonts ("A" +:+ String LF ("  " +:+ String LF "B")) "linux"
     <> Some (unix_fonts_as_specified
                ("A" +:+ String LF ("  " +:+ String LF "B"))).
Proof.
  repeat split; try (vm_compute; reflexivity).
  intros H. vm_compute in H. discriminate H.
Qed.

(** ** The live preview of the font *)

Lemma updatedFontFamily_preview c o : updatedFontFamily c o = preview c o.
Proof.
  unfold updatedFontFamily, preview.
  now rewrite js_filter_first_occurrence, dedup_first_head.
Qed.

(** C1. A highlight change in the font stage writes the candidate followed
    by the fallback chain of the original preference, without the
    candidate and without later duplicates; the candidate is the label in
    [extension.ts] and the label without the marker in the second variant. *)
Theorem live_preview_candidate_first (st : State) (label : string)
    (others : list string) :
  let s1 := ExtensionTs.font_onDidChangeActive (label :: others) st in
  let s2 := Part000.font_onDidChangeActive (label :: others) st in
  let c := Part000.font_of_label label in
  config s1 = <["fontFamily" := preview label (originalFont st)]> (config st)
  /\ log s1
     = log st ++ [ConfigUpdate "fontFamily" (preview label (originalFont st))]
  /\ config s2 = <["fontFamily" := preview c (originalFont st)]> (config st)
  /\ log s2
     = log st ++ [ConfigUpdate "fontFamily" (preview c (originalFont st))]
  /\ preview "Consolas" (Some "Fira Code, Consolas") = "Consolas, Fira Code"
  /\ preview "Fira Code" (Some "Consolas, Courier New")
     = "Fira Code, Consolas, Courier New"
  /\ preview "Consolas" None = "Consolas".
Proof.
  simpl. unfold ExtensionTs.font_onDidChangeActive,
    Part000.font_onDidChangeActive, config_update. simpl.
  rewrite !updatedFontFamily_preview.
  repeat split; reflexivity.
Qed.

(** ** The commands and the executor *)

Lemma command_for_unrecognized platform :
  recognized platform = false -> command_for platform = EmptyString.
Proof.
  unfold recognized, command_for. intros H.
  destruct (String.eqb platform "win32"); [discriminate|].
  destruct (String.eqb platform "darwin"); [discriminate|].
  destruct (String.eqb platform "linux"); [discriminate|reflexivity].
Qed.

(** C7. The literal of the registry query holds five backslashes, each
    before a character that starts no escape sequence; the command handed to
    the executor on win32 holds none of them. *)
Theorem windows_command_loses_backslashes :
  length (List.filter backslash (chars win32_command_source)) = 5%nat
  /\ command_for "win32"
     = "reg query " +:+ dquote
         +:+ "HKLMSOFTWAREMicrosoftWindows NTCurrentVersionFonts"
         +:+ dquote +:+ " /s"
  /\ List.filter backslash (chars (command_for "win32")) = []
  /\ (forall sh,
        let env := {| platform := "win32"; shell := sh |} in
        getMonospacedFonts env
        = match exec env (command_for "win32") (1024 * 1024) with
          | ExecThrows e => Rejected e
          | ExecCalls (Some e) _ => Rejected e
          | ExecCalls None stdout =>
              match parseMonospacedFonts stdout "win32" with
              | Some fonts => Resolved fonts
              | None => Pending
              end
          | ExecSilent => Pending
          end).
Proof.
  repeat split; vm_compute; reflexivity.
Qed.

(** C4. The enumeration is rejected on every platform other than win32,
    darwin and linux, where the command is empty and the executor refuses
    it, and whenever the process exits with a code other than 0. *)
Theorem enumeration_rejected (env : Env) :
  recognized (platform env) = false
  \/ (exists code out err,
        shell env (command_for (platform env)) = Exited code out err
        /\ code <> 0) ->
  exists e, getMonospacedFonts env = Rejected e.
Proof.
  unfold getMonospacedFonts, exec.
  intros [Hu | (code & out & err & Hs & Hc)].
  - rewrite (command_for_unrecognized _ Hu). simpl. eauto.
  - destruct (truthy (command_for (platform env))); [|eauto].
    rewrite Hs.
    destruct (Z.ltb (1024 * 1024) (utf8_length out)); [eauto|].
    destruct (Z.ltb (1024 * 1024) (utf8_length err)); [eauto|].
    destruct (Z.eqb_spec code 0); [contradiction|eauto].
Qed.

Lemma enumeration_rejected_witness :
  (exists e, getMonospacedFonts
               {| platform := "freebsd";
                  shell := fun _ => Exited 0 "Mono" EmptyString |}
             = Rejected e)
  /\ (exists e, getMonospacedFonts
                  {| platform := "linux";
                     shell := fun _ => Exited 1 "Mono" EmptyString |}
                = Rejected e).
Proof.
  split.
  - apply enumeration_rejected. left. reflexivity.
  - apply enumeration_rejected. right. exists 1, "Mono", EmptyString.
    split; [reflexivity|discriminate].
Defined.

(** ** The flow: general facts *)

Lemma writes_app l1 l2 : writes (l1 ++ l2) = writes l1 ++ writes l2.
Proof. apply List.filter_app. Qed.

Lemma on_screen_alive p st : on_screen p st = true -> alive p st = true.
Proof.
  unfold on_screen, alive. destruct (picker p st); [|discriminate].
  now intros [_ H]%andb_true_iff.
Qed.

Lemma all_in_In x l items : all_in (x :: l) items = true -> In x items.
Proof.
  unfold all_in. simpl. intros [H _]%andb_true_iff.
  apply existsb_exists in H as (y & Hy & Heq).
  apply String.eqb_eq in Heq. now subst.
Qed.

Lemma fontWeights_truthy w : In w fontWeights -> truthy w = true.
Proof.
  unfold fontWeights. simpl. intros H.
  repeat (destruct H as [<-|H]; [reflexivity|]). destruct H.
Qed.

(** Without a quick pick no event is delivered. *)
Lemma run_without_pickers h es st :
  fontQuickPick st = None -> weightQuickPick st = None -> run h es st = st.
Proof.
  intros Hf Hw. induction es as [|e es IH]; [reflexivity|].
  assert (He : enabled e st = false).
  { destruct e as [[] l|[] l|[]]; unfold enabled, on_screen, alive; simpl;
      rewrite ?Hf, ?Hw; reflexivity. }
  change (run h (e :: es) st) with (run h es (deliver h e st)).
  unfold deliver. rewrite He. exact IH.
Qed.

(** C10. When the enumeration succeeds with an empty list, the command
    shows one error notification and does nothing else: the store is
    neither read nor written, no quick pick is created, and no event can
    follow. *)
Theorem empty_enumeration_only_notifies (env : Env) (cfg : gmap string string) :
  getMonospacedFonts env = Resolved [] ->
  let notified :=
    showErrorMessage "No monospaced fonts found on the system." (initial cfg) in
  ExtensionTs.command env (initial cfg) = notified
  /\ Part000.command env (initial cfg) = notified
  /\ log notified
     = [ShowErrorMessage "No monospaced fonts found on the system."]
  /\ List.filter touches_config (log notified) = []
  /\ List.filter touches_picker (log notified) = []
  /\ config notified = cfg
  /\ (forall es, run ExtensionTs.handlers es notified = notified)
  /\ (forall es, run Part000.handlers es notified = notified).
Proof.
  intros H. unfold ExtensionTs.command, Part000.command. rewrite H. simpl.
  repeat split; intros es; now apply run_without_pickers.
Qed.

Lemma empty_enumeration_witness :
  ExtensionTs.command
    {| platform := "linux";
       shell := fun _ => Exited 0 EmptyString EmptyString |}
    (initial ∅)
  = showErrorMessage "No monospaced fonts found on the system." (initial ∅).
Proof.
  apply (empty_enumeration_only_notifies
           {| platform := "linux";
              shell := fun _ => Exited 0 EmptyString EmptyString |} ∅).
  vm_compute. reflexivity.
Defined.

(** ** The flow: invariants *)

Lemma committed_step_part (st : State) (e : Event) :
  committed st ->
  let st' := deliver Part000.handlers e st in
  committed st' /\ config st' = config st /\ writes (log st') = writes (log st).
Proof.
  intros (Hw & Hf & Hs). cbv zeta. unfold deliver.
  destruct (enabled e st) eqn:He; [|unfold committed; auto].
  destruct e as [[] l|[] l|[]]; cbn [enabled] in He.
  - apply andb_true_iff in He as [He _]. congruence.
  - apply andb_true_iff in He as [He%on_screen_alive _]. congruence.
  - apply andb_true_iff in He as [He _]. congruence.
  - apply andb_true_iff in He as [He%on_screen_alive _]. congruence.
  - destruct st as [cfg orig last [fq|] wq lg]; [|discriminate He].
    unfold committed, alive, on_screen, has_selection, selected_of in *.
    cbn in *.
    destruct fq as [fi fp fa fs fv fd]. cbn in *.
    destruct fs as [|x fs]; [discriminate Hs|]. cbn.
    destruct orig; cbn; rewrite ?writes_app; cbn; rewrite ?app_nil_r; auto.
  - congruence.
Qed.

Lemma committed_step_ext (st : State) (e : Event) :
  committed st ->
  let st' := deliver ExtensionTs.handlers e st in
  committed st' /\ config st' = config st /\ writes (log st') = writes (log st).
Proof.
  intros (Hw & Hf & Hs). cbv zeta. unfold deliver.
  destruct (enabled e st) eqn:He; [|unfold committed; auto].
  destruct e as [[] l|[] l|[]]; cbn [enabled] in He.
  - apply andb_true_iff in He as [He _]. congruence.
  - apply andb_true_iff in He as [He%on_screen_alive _]. congruence.
  - apply andb_true_iff in He as [He _]. congruence.
  - apply andb_true_iff in He as [He%on_screen_alive _]. congruence.
  - destruct st as [cfg orig last [fq|] wq lg]; [|discriminate He].
    unfold committed, alive, on_screen, has_selection, selected_of in *.
    cbn in *.
    destruct fq as [fi fp fa fs fv fd]. cbn in *.
    destruct fs as [|x fs]; [discriminate Hs|]. cbn.
    destruct orig; cbn; rewrite ?writes_app; cbn; rewrite ?app_nil_r; auto.
  - congruence.
Qed.

(** Once committed, always committed: no event writes to the store. *)
Lemma committed_run (h : Handlers) :
  (forall st e, committed st ->
     committed (deliver h e st) /\ config (deliver h e st) = config st
     /\ writes (log (deliver h e st)) = writes (log st)) ->
  forall es st, committed st ->
    committed (run h es st) /\ config (run h es st) = config st
    /\ writes (log (run h es st)) = writes (log st).
Proof.
  intros Hstep es. induction es as [|e es IH]; intros st Hc; [auto|].
  change (run h (e :: es) st) with (run h es (deliver h e st)).
  destruct (Hstep st e Hc) as (Hc' & Hcfg & Hw).
  destruct (IH _ Hc') as (? & ? & ?). split; [assumption|split; congruence].
Qed.

Lemma flow_inv_step_part (st : State) (e : Event) :
  flow_inv st -> flow_inv (deliver Part000.handlers e st).
Proof.
  intros Hinv. unfold deliver.
  destruct (enabled e st) eqn:He; [|assumption].
  destruct Hinv as [H1 H2].
  destruct st as [cfg orig last fq wq lg].
  destruct e as [[] l|[] l|[]]; cbn [enabled] in He;
    try apply andb_true_iff in He as [He Hall]; inv_unfold; cbn in *.
  - (* highlight change in the font picker *)
    destruct fq as [[fi fp fa fs fv fd]|]; [|discriminate He]. cbn in *.
    unfold Part000.font_onDidChangeActive. destruct l; cbn; inv_close H1 H2.
  - (* highlight change in the weight picker *)
    destruct wq as [[wi wp wa ws wv wd]|]; [|discriminate He]. cbn in *.
    unfold Part000.weight_onDidChangeActive, Part000.applyWeight.
    destruct l as [|w l]; cbn; [inv_close H1 H2|].
    destruct (truthy w); cbn; inv_close H1 H2.
  - (* acceptance in the font picker *)
    destruct fq as [[fi fp fa fs fv fd]|]; [|discriminate He]. cbn in *.
    apply andb_true_iff in He as [-> Hd].
    assert (Hw : match wq with Some q => negb (disposed q) | None => false end
                 = false).
    { destruct (match wq with Some q => negb (disposed q) | None => false end)
        eqn:Hq; [|reflexivity].
      destruct (H1 eq_refl) as [Hx _]. rewrite Hd in Hx. discriminate Hx. }
    unfold Part000.font_onDidAccept. cbn.
    destruct l as [|x l]; cbn.
    + split; [intros Ha; rewrite Ha in Hw; discriminate Hw|exact H2].
    + destruct (truthy (Part000.font_of_label x)); cbn.
      * split; [intros _; split; reflexivity|].
        intros q Hq. injection Hq as <-. reflexivity.
      * split; [intros Ha; rewrite Ha in Hw; discriminate Hw|exact H2].
  - (* acceptance in the weight picker *)
    destruct wq as [[wi wp wa ws wv wd]|]; [|discriminate He]. cbn in *.
    unfold Part000.weight_onDidAccept, Part000.applyWeight. cbn.
    destruct l as [|w l]; cbn; [inv_close H1 H2|].
    destruct (truthy w); cbn; inv_close H1 H2.
  - (* the font picker is hidden *)
    destruct fq as [[fi fp fa fs fv fd]|]; [|discriminate He]. cbn in *.
    unfold font_onDidHide. cbn.
    assert (Hsel : forall b : bool,
              match wq with Some q => negb (disposed q) | None => false end
              = true -> b && false = false /\ nonempty fs = true).
    { intros b Ha. destruct (H1 Ha) as [_ Hs]. rewrite andb_false_r. auto. }
    destruct orig as [o|]; cbn;
      [destruct (Nat.eqb (length fs) 0 && truthy o); cbn|];
      (split; [intros Ha; now apply (Hsel false)|exact H2]).
  - (* the weight picker is hidden *)
    destruct wq as [[wi wp wa ws wv wd]|]; [|discriminate He]. cbn in *.
    unfold Part000.weight_onDidHide. cbn.
    destruct (Nat.eqb (length ws) 0); cbn.
    + destruct fq as [[fi fp fa fs fv fd]|]; cbn.
      * destruct fd; cbn; inv_close H1 H2.
      * inv_close H1 H2.
    + inv_close H1 H2.
Qed.

Lemma flow_inv_step_ext (st : State) (e : Event) :
  flow_inv st -> flow_inv (deliver ExtensionTs.handlers e st).
Proof.
  intros Hinv. unfold deliver.
  destruct (enabled e st) eqn:He; [|assumption].
  destruct Hinv as [H1 H2].
  destruct st as [cfg orig last fq wq lg].
  destruct e as [[] l|[] l|[]]; cbn [enabled] in He;
    try apply andb_true_iff in He as [He Hall]; inv_unfold; cbn in *.
  - destruct fq as [[fi fp fa fs fv fd]|]; [|discriminate He]. cbn in *.
    unfold ExtensionTs.font_onDidChangeActive. destruct l; cbn; inv_close H1 H2.
  - destruct wq as [[wi wp wa ws wv wd]|]; [|discriminate He]. cbn in *.
    inv_close H1 H2.
  - destruct fq as [[fi fp fa fs fv fd]|]; [|discriminate He]. cbn in *.
    apply andb_true_iff in He as [-> Hd].
    assert (Hw : match wq with Some q => negb (disposed q) | None => false end
                 = false).
    { destruct (match wq with Some q => negb (disposed q) | None => false end)
        eqn:Hq; [|reflexivity].
      destruct (H1 eq_refl) as [Hx _]. rewrite Hd in Hx. discriminate Hx. }
    unfold ExtensionTs.font_onDidAccept. cbn.
    destruct l as [|x l]; cbn.
    + split; [intros Ha; rewrite Ha in Hw; discriminate Hw|exact H2].
    + destruct (truthy x); cbn.
      * split; [intros _; split; reflexivity|].
        intros q Hq. injection Hq as <-. reflexivity.
      * split; [intros Ha; rewrite Ha in Hw; discriminate Hw|exact H2].
  - destruct wq as [[wi wp wa ws wv wd]|]; [|discriminate He]. cbn in *.
    unfold ExtensionTs.weight_onDidAccept. cbn.
    destruct l as [|w l]; cbn; [inv_close H1 H2|].
    destruct (truthy w); cbn; inv_close H1 H2.
  - destruct fq as [[fi fp fa fs fv fd]|]; [|discriminate He]. cbn in *.
    unfold font_onDidHide. cbn.
    assert (Hsel : forall b : bool,
              match wq with Some q => negb (disposed q) | None => false end
              = true -> b && false = false /\ nonempty fs = true).
    { intros b Ha. destruct (H1 Ha) as [_ Hs]. rewrite andb_false_r. auto. }
    destruct orig as [o|]; cbn;
      [destruct (Nat.eqb (length fs) 0 && truthy o); cbn|];
      (split; [intros Ha; now apply (Hsel false)|exact H2]).
  - destruct wq as [[wi wp wa ws wv wd]|]; [|discriminate He]. cbn in *.
    unfold ExtensionTs.weight_onDidHide. cbn. inv_close H1 H2.
Qed.

Lemma flow_inv_run (h : Handlers) :
  (forall st e, flow_inv st -> flow_inv (deliver h e st)) ->
  forall es st, flow_inv st -> flow_inv (run h es st).
Proof.
  intros Hstep es. induction es as [|e es IH]; intros st Hi; [assumption|].
  change (run h (e :: es) st) with (run h es (deliver h e st)). auto.
Qed.

Lemma flow_inv_without_weight st : weightQuickPick st = None -> flow_inv st.
Proof.
  intros H. split.
  - unfold weight_stage_inv, alive. cbn. rewrite H. discriminate.
  - intros q Hq. congruence.
Qed.

Lemma command_ext_no_weight env cfg :
  weightQuickPick (ExtensionTs.command env (initial cfg)) = None.
Proof.
  unfold ExtensionTs.command.
  destruct (getMonospacedFonts env) as [fonts|e|]; try reflexivity.
  destruct (Nat.eqb (length fonts) 0); reflexivity.
Qed.

Lemma command_part_no_weight env cfg :
  weightQuickPick (Part000.command env (initial cfg)) = None.
Proof.
  unfold Part000.command.
  destruct (getMonospacedFonts env) as [fonts|e|]; try reflexivity.
  destruct (Nat.eqb (length fonts) 0); reflexivity.
Qed.

Lemma trace_inv v env cfg es : flow_inv (trace v env cfg es).
Proof.
  destruct v; unfold trace; cbn [handlers_of command_of].
  - apply flow_inv_run; [apply flow_inv_step_ext|].
    apply flow_inv_without_weight, command_ext_no_weight.
  - apply flow_inv_run; [apply flow_inv_step_part|].
    apply flow_inv_without_weight, command_part_no_weight.
Qed.

(** What the acceptance of the weight [w] does in a state of the flow. *)
Lemma weight_accept_step (v : Variant) st w rest :
  flow_inv st ->
  enabled (DidAccept WeightPicker (w :: rest)) st = true ->
  let st' := deliver (handlers_of v) (DidAccept WeightPicker (w :: rest)) st in
  In w fontWeights
  /\ config st' = <["fontWeight" := w]> (config st)
  /\ log st' = log st ++ [ConfigUpdate "fontWeight" w; Dispose WeightPicker]
  /\ committed st'.
Proof.
  intros [H1 H2] He. cbv zeta. unfold deliver. rewrite He.
  cbn [enabled] in He. apply andb_true_iff in He as [Hs Ha].
  apply all_in_In in Ha.
  pose proof (on_screen_alive _ _ Hs) as Hal.
  destruct (H1 Hal) as [Hf Hsel].
  destruct st as [cfg orig last fq wq lg].
  destruct wq as [[wi wp wa ws wv wd]|]; [|discriminate Hs].
  pose proof (H2 _ eq_refl) as Hi. cbn in Hi. subst wi.
  unfold items_of in Ha. cbn in Ha.
  pose proof (fontWeights_truthy w Ha) as Ht.
  unfold committed, alive, on_screen, has_selection, selected_of in *.
  destruct v; cbn in *;
    unfold ExtensionTs.weight_onDidAccept, Part000.weight_onDidAccept,
      Part000.applyWeight; cbn; rewrite Ht; cbn;
    rewrite <- app_assoc; cbn;
    (split; [exact Ha|repeat split; auto]).
Qed.

(** C9. Accepting a weight writes that weight, one of the eleven tokens, to
    the font-weight setting and disposes of the picker; whatever events
    follow in the invocation, the store is not written again. *)
Theorem weight_acceptance_commits (v : Variant) (env : Env)
    (cfg0 : gmap string string) (es : list Event) (w : string)
    (rest : list string) :
  let s := trace v env cfg0 es in
  let accept := DidAccept WeightPicker (w :: rest) in
  enabled accept s = true ->
  let s' := deliver (handlers_of v) accept s in
  In w fontWeights
  /\ config s' = <["fontWeight" := w]> (config s)
  /\ log s' = log s ++ [ConfigUpdate "fontWeight" w; Dispose WeightPicker]
  /\ on_screen FontPicker s' = false /\ alive WeightPicker s' = false
  /\ (forall es',
        config (run (handlers_of v) es' s') = config s'
        /\ writes (log (run (handlers_of v) es' s')) = writes (log s')).
Proof.
  intros s accept He s'.
  destruct (weight_accept_step v s w rest (trace_inv v env cfg0 es) He)
    as (Hin & Hcfg & Hlog & Hc).
  fold accept in Hcfg, Hlog, Hc. fold s' in Hcfg, Hlog, Hc.
  repeat split; try assumption; try apply Hc.
  - destruct v; cbn [handlers_of];
      [apply (committed_run _ committed_step_ext es' s' Hc)
      |apply (committed_run _ committed_step_part es' s' Hc)].
  - destruct v; cbn [handlers_of];
      [apply (committed_run _ committed_step_ext es' s' Hc)
      |apply (committed_run _ committed_step_part es' s' Hc)].
Qed.

Lemma weight_acceptance_witness :
  config (deliver (handlers_of Part000File) (DidAccept WeightPicker ["bold"])
            (trace Part000File two_fonts ∅ to_weight_stage))
  = <["fontWeight" := "bold"]>
      (config (trace Part000File two_fonts ∅ to_weight_stage)).
Proof.
  destruct (weight_acceptance_commits Part000File two_fonts ∅ to_weight_stage
              "bold" []) as (_ & H & _).
  - vm_compute. reflexivity.
  - exact H.
Defined.

(** ** The weight stage *)

Lemma weight_highlight_step st w rest :
  flow_inv st ->
  enabled (DidChangeActive WeightPicker (w :: rest)) st = true ->
  let st' :=
    deliver Part000.handlers (DidChangeActive WeightPicker (w :: rest)) st in
  In w fontWeights
  /\ config st' = <["fontWeight" := w]> (config st)
  /\ log st' = log st ++ [ConfigUpdate "fontWeight" w]
  /\ selected_of WeightPicker st' = selected_of WeightPicker st.
Proof.
  intros [H1 H2] He. cbv zeta. unfold deliver. rewrite He.
  cbn [enabled] in He. apply andb_true_iff in He as [Hs Ha].
  apply all_in_In in Ha.
  destruct st as [cfg orig last fq wq lg].
  destruct wq as [[wi wp wa ws wv wd]|]; [|discriminate Hs].
  pose proof (H2 _ eq_refl) as Hi. cbn in Hi. subst wi.
  unfold items_of in Ha. cbn in Ha.
  pose proof (fontWeights_truthy w Ha) as Ht.
  unfold selected_of. cbn.
  unfold Part000.weight_onDidChangeActive, Part000.applyWeight. cbn.
  rewrite Ht. cbn. split; [exact Ha|repeat split].
Qed.

(** C8, amended. In the second variant every highlight change of the
    weight picker writes the highlighted token to the font-weight setting
    at once, whether or not anything has been accepted. The weight picker
    of [extension.ts] has no handler for the event: there a highlight
    change writes nothing. *)
Theorem weight_highlight_previews (env : Env) (cfg0 : gmap string string)
    (es : list Event) (w : string) (rest : list string) :
  let s := trace Part000File env cfg0 es in
  let highlight := DidChangeActive WeightPicker (w :: rest) in
  enabled highlight s = true ->
  let s' := deliver Part000.handlers highlight s in
  (In w fontWeights
   /\ config s' = <["fontWeight" := w]> (config s)
   /\ log s' = log s ++ [ConfigUpdate "fontWeight" w]
   /\ selected_of WeightPicker s' = selected_of WeightPicker s)
  /\ (forall st active,
        let t :=
          deliver ExtensionTs.handlers (DidChangeActive WeightPicker active) st
        in config t = config st /\ log t = log st).
Proof.
  intros s highlight He s'. split.
  - apply weight_highlight_step; [apply trace_inv|exact He].
  - intros st active. cbv zeta. unfold deliver.
    destruct (enabled _ st); [|auto].
    destruct st as [cfg orig last fq [wq|] lg]; cbn; auto.
Qed.

Lemma weight_highlight_witness :
  log (deliver Part000.handlers (DidChangeActive WeightPicker ["bold"])
         (trace Part000File two_fonts ∅ to_weight_stage))
  = log (trace Part000File two_fonts ∅ to_weight_stage)
    ++ [ConfigUpdate "fontWeight" "bold"].
Proof.
  destruct (weight_highlight_previews two_fonts ∅ to_weight_stage "bold" [])
    as ((_ & _ & H & _) & _).
  - vm_compute. reflexivity.
  - exact H.
Defined.

(** C8 as stated fails in [extension.ts]: with the weight picker on the
    screen, highlighting [bold] leaves the log and the setting as they
    were. *)
Lemma extension_ts_weight_highlight_silent :
  enabled (DidChangeActive WeightPicker ["bold"])
    (trace ExtensionTsFile two_fonts ∅ to_weight_stage) = true
  /\ log (deliver ExtensionTs.handlers (DidChangeActive WeightPicker ["bold"])
            (trace ExtensionTsFile two_fonts ∅ to_weight_stage))
     = log (trace ExtensionTsFile two_fonts ∅ to_weight_stage)
  /\ config (deliver ExtensionTs.handlers
               (DidChangeActive WeightPicker ["bold"])
               (trace ExtensionTsFile two_fonts ∅ to_weight_stage))
       !! "fontWeight" <> Some "bold".
Proof.
  split; [vm_compute; reflexivity|].
  split; [vm_compute; reflexivity|].
  intros H. vm_compute in H. discriminate H.
Qed.

(** ** The font stage *)

Lemma command_font_stage v env cfg0 fonts :
  getMonospacedFonts env = Resolved fonts -> fonts <> [] ->
  font_stage cfg0 (command_of v env (initial cfg0)).
Proof.
  intros H Hne. destruct fonts as [|f fonts]; [congruence|].
  destruct v; cbn [command_of]; unfold ExtensionTs.command, Part000.command;
    rewrite H; cbn; unfold font_stage, selected_of, alive; cbn;
    repeat split; auto.
Qed.

Lemma font_stage_highlight v cfg0 st active :
  font_stage cfg0 st ->
  font_stage cfg0
    (deliver (handlers_of v) (DidChangeActive FontPicker active) st).
Proof.
  intros Hst. unfold deliver. destruct (enabled _ st) eqn:He; [|assumption].
  destruct Hst as (Ho & Hs & Ha & Hw & Hk).
  destruct st as [cfg orig last fq wq lg]. cbn in Ho, Hw. subst orig wq.
  unfold selected_of, alive in *.
  destruct fq as [[fi fp fa fs fv fd]|]; [|discriminate Ha]. cbn in *.
  subst fs.
  destruct v; cbn; unfold ExtensionTs.font_onDidChangeActive,
    Part000.font_onDidChangeActive; destruct active as [|a active]; cbn;
    unfold font_stage, selected_of, alive; cbn; repeat split; auto;
    intros k Hne; rewrite lookup_insert_ne by congruence; auto.
Qed.

Lemma font_stage_highlights v cfg0 actives : forall st,
  font_stage cfg0 st ->
  font_stage cfg0
    (run (handlers_of v) (map (DidChangeActive FontPicker) actives) st).
Proof.
  induction actives as [|a actives IH]; intros st Hst; [assumption|].
  cbn [map].
  change (run (handlers_of v) (?e :: ?es) st)
    with (run (handlers_of v) es (deliver (handlers_of v) e st)).
  apply IH. now apply font_stage_highlight.
Qed.

Lemma rollback_idempotent st :
  config (font_onDidHide (font_onDidHide st)) = config (font_onDidHide st).
Proof.
  destruct st as [cfg orig last fq wq lg]. unfold font_onDidHide, selected_of.
  destruct fq as [[fi fp fa fs fv fd]|]; cbn;
    (destruct orig as [o|]; cbn; [|reflexivity]).
  - destruct (Nat.eqb (length fs) 0 && truthy o) eqn:Hb; cbn; rewrite Hb; cbn;
      [apply insert_insert_eq|reflexivity].
  - destruct (truthy o) eqn:Hb; cbn; rewrite Hb; cbn;
      [apply insert_insert_eq|reflexivity].
Qed.

Lemma font_hide_handler v st :
  onDidHide (handlers_of v) FontPicker st = font_onDidHide st.
Proof. destruct v; reflexivity. Qed.

Lemma font_stage_hide cfg0 st :
  font_stage cfg0 st ->
  let s2 := font_onDidHide (update_picker FontPicker hidden st) in
  (truthy_opt (cfg0 !! "fontFamily") = true -> config s2 = cfg0)
  /\ (truthy_opt (cfg0 !! "fontFamily") = false ->
        config s2 = config st /\ writes (log s2) = writes (log st)).
Proof.
  intros (Ho & Hs & Ha & Hw & Hk).
  destruct st as [cfg orig last fq wq lg]. cbn in Ho, Hw. subst orig wq.
  unfold selected_of, alive in *.
  destruct fq as [[fi fp fa fs fv fd]|]; [|discriminate Ha]. cbn in *.
  subst fs. unfold font_onDidHide, selected_of. cbn.
  destruct (cfg0 !! "fontFamily") as [o|] eqn:Hff; cbn.
  - split; intros Ht; rewrite Ht; cbn.
    + apply map_eq. intros k. destruct (decide (k = "fontFamily")) as [->|Hk'].
      * now rewrite lookup_insert_eq.
      * rewrite lookup_insert_ne by congruence. auto.
    + rewrite writes_app. cbn. now rewrite app_nil_r.
  - split; [discriminate|]. intros _.
    rewrite writes_app. cbn. now rewrite app_nil_r.
Qed.

Lemma deliver_original v st e :
  originalFont (deliver (handlers_of v) e st) = originalFont st
  /\ (alive FontPicker (deliver (handlers_of v) e st) = true ->
      alive FontPicker st = true).
Proof.
  unfold deliver. destruct (enabled e st); [|auto].
  destruct st as [cfg orig last fq wq lg].
  destruct fq as [[fi fp fa fs fv fd]|]; destruct wq as [[wi wp wa ws wv wd]|];
    destruct e as [[] l|[] l|[]]; destruct v; cbn;
    unfold ExtensionTs.font_onDidChangeActive, ExtensionTs.font_onDidAccept,
      ExtensionTs.weight_onDidAccept, ExtensionTs.weight_onDidHide,
      Part000.font_onDidChangeActive, Part000.font_onDidAccept,
      Part000.weight_onDidChangeActive, Part000.weight_onDidAccept,
      Part000.weight_onDidHide, Part000.handleWeightSelection,
      Part000.applyWeight, font_onDidHide, selected_of, alive, show; cbn;
    case_all; first [now auto | split; [reflexivity|discriminate]].
Qed.

Lemma run_original v es : forall st,
  originalFont (run (handlers_of v) es st) = originalFont st
  /\ (alive FontPicker (run (handlers_of v) es st) = true ->
      alive FontPicker st = true).
Proof.
  induction es as [|e es IH]; intros st; [auto|].
  change (run (handlers_of v) (e :: es) st)
    with (run (handlers_of v) es (deliver (handlers_of v) e st)).
  destruct (IH (deliver (handlers_of v) e st)) as [Ho Ha].
  destruct (deliver_original v st e) as [Ho' Ha'].
  split; [congruence|auto].
Qed.

(** A font picker exists only after a successful enumeration of at least
    one font, and the command has then captured the font family. *)
Lemma command_alive_font v env cfg0 :
  alive FontPicker (command_of v env (initial cfg0)) = true ->
  originalFont (command_of v env (initial cfg0)) = cfg0 !! "fontFamily"
  /\ exists fonts, getMonospacedFonts env = Resolved fonts /\ fonts <> [].
Proof.
  destruct v; cbn [command_of]; unfold ExtensionTs.command, Part000.command;
    (destruct (getMonospacedFonts env) as [fonts|e|]; [|discriminate..]);
    (destruct fonts as [|f fonts]; [discriminate|]); intros _;
    (split; [reflexivity|]); exists (f :: fonts); split; congruence.
Qed.

Lemma font_hide_step st :
  selected_of FontPicker st = [] ->
  let s' := font_onDidHide (update_picker FontPicker hidden st) in
  (truthy_opt (originalFont st) = true ->
     config s' !! "fontFamily" = originalFont st
     /\ (forall k, k <> "fontFamily" -> config s' !! k = config st !! k))
  /\ (truthy_opt (originalFont st) = false ->
        config s' = config st /\ writes (log s') = writes (log st)).
Proof.
  intros Hsel. destruct st as [cfg orig last fq wq lg].
  unfold font_onDidHide, selected_of in *. cbn in *.
  destruct fq as [[fi fp fa fs fv fd]|]; cbn in *; subst;
    (destruct orig as [o|]; cbn; [|split; [discriminate|]; intros _;
       rewrite writes_app; cbn; now rewrite app_nil_r]);
    (split; intros Ht; rewrite Ht; cbn;
       [split; [now rewrite lookup_insert_eq
               |intros k Hk; rewrite lookup_insert_ne by congruence; auto]
       |rewrite writes_app; cbn; now rewrite app_nil_r]).
Qed.

(** C2. In every state of an invocation, hiding the font picker while it
    holds no accepted item puts the font family back to the value it had
    before the command when that value was not empty, and doing the
    rollback again changes nothing; when there was none (or the empty
    string), nothing is written and the last preview stays. When only
    previews happened before, the whole store is as it was before the
    command. *)
Theorem font_dismissal_rolls_back (v : Variant) (env : Env)
    (cfg0 : gmap string string) (es : list Event) :
  let s := trace v env cfg0 es in
  let s' := deliver (handlers_of v) (DidHide FontPicker) s in
  enabled (DidHide FontPicker) s = true ->
  selected_of FontPicker s = [] ->
  (truthy_opt (cfg0 !! "fontFamily") = true ->
     config s' !! "fontFamily" = cfg0 !! "fontFamily"
     /\ (forall k, k <> "fontFamily" -> config s' !! k = config s !! k)
     /\ config (font_onDidHide s') = config s'
     /\ (forall actives,
           es = map (DidChangeActive FontPicker) actives -> config s' = cfg0))
  /\ (truthy_opt (cfg0 !! "fontFamily") = false ->
        config s' = config s /\ writes (log s') = writes (log s)).
Proof.
  intros s s' He Hsel. cbn [enabled] in He.
  assert (Hs' : s' = font_onDidHide (update_picker FontPicker hidden s)).
  { unfold s', deliver. cbn [enabled]. rewrite He. apply font_hide_handler. }
  destruct (run_original v es (command_of v env (initial cfg0))) as [Ho Ha].
  fold (trace v env cfg0 es) in Ho, Ha. fold s in Ho, Ha.
  destruct (command_alive_font v env cfg0 (Ha He))
    as (Horig & fonts & Hfonts & Hne).
  rewrite Horig in Ho. clear Ha Horig.
  destruct (font_hide_step s Hsel) as [Hyes Hno]. rewrite Ho in Hyes, Hno.
  rewrite <- Hs' in Hyes, Hno.
  split; [|exact Hno].
  intros Ht. destruct (Hyes Ht) as [Hff Hother].
  split; [exact Hff|]. split; [exact Hother|].
  split; [rewrite Hs'; apply rollback_idempotent|].
  intros actives ->.
  assert (Hst : font_stage cfg0 s).
  { apply font_stage_highlights.
    now apply (command_font_stage v env cfg0 fonts). }
  rewrite Hs'. now apply (font_stage_hide cfg0 s Hst).
Qed.

Lemma font_dismissal_witness :
  config (deliver (handlers_of Part000File) (DidHide FontPicker)
            (trace Part000File two_fonts fira_consolas
               (map (DidChangeActive FontPicker) [["B"]; ["A"]])))
  = fira_consolas.
Proof.
  destruct (font_dismissal_rolls_back Part000File two_fonts fira_consolas
              (map (DidChangeActive FontPicker) [["B"]; ["A"]])) as (H & _).
  - vm_compute. reflexivity.
  - vm_compute. reflexivity.
  - destruct H as (_ & _ & _ & H); [vm_compute; reflexivity|].
    now apply (H [["B"]; ["A"]]).
Defined.

(** C2 as stated fails when the font family exists and is the empty
    string: the hide handler tests the value it captured, finds it empty
    and writes nothing, so the last preview stays and the setting is not
    back at its value from before the command. *)
Lemma empty_preference_not_restored :
  empty_family !! "fontFamily" = Some EmptyString
  /\ enabled (DidHide FontPicker)
       (trace ExtensionTsFile two_fonts empty_family
          [DidChangeActive FontPicker ["B"]]) = true
  /\ selected_of FontPicker
       (trace ExtensionTsFile two_fonts empty_family
          [DidChangeActive FontPicker ["B"]]) = []
  /\ config (deliver (handlers_of ExtensionTsFile) (DidHide FontPicker)
               (trace ExtensionTsFile two_fonts empty_family
                  [DidChangeActive FontPicker ["B"]]))
       !! "fontFamily" = Some "B"
  /\ config (deliver (handlers_of Part000File) (DidHide FontPicker)
               (trace Part000File two_fonts empty_family
                  [DidChangeActive FontPicker ["B"]]))
       !! "fontFamily" = Some "B"
  /\ Some "B" <> empty_family !! "fontFamily".
Proof.
  split; [vm_compute; reflexivity|]. split; [vm_compute; reflexivity|].
  split; [vm_compute; reflexivity|]. split; [vm_compute; reflexivity|].
  split; [vm_compute; reflexivity|]. vm_compute. discriminate.
Qed.

(** ** Back from the weight stage *)

Lemma deliver_part_set_actives st e :
  set_actives (log (deliver Part000.handlers e st)) = set_actives (log st).
Proof.
  unfold deliver. destruct (enabled e st); [|reflexivity].
  destruct st as [cfg orig last fq wq lg].
  destruct e as [[] l|[] l|[]]; cbn.
  - unfold Part000.font_onDidChangeActive. destruct l; log_done.
  - unfold Part000.weight_onDidChangeActive, Part000.applyWeight.
    destruct l as [|w l]; cbn; [reflexivity|]. destruct (truthy w); log_done.
  - unfold Part000.font_onDidAccept, selected_of.
    destruct fq as [fq|]; cbn; [|reflexivity].
    destruct l as [|x l]; cbn; [reflexivity|].
    destruct (truthy (Part000.font_of_label x)); [|reflexivity].
    unfold Part000.handleWeightSelection. log_done.
  - unfold Part000.weight_onDidAccept, Part000.applyWeight, selected_of.
    destruct wq as [wq|]; cbn; [|log_done].
    destruct l as [|w l]; cbn; [log_done|]. destruct (truthy w); log_done.
  - unfold font_onDidHide, selected_of.
    destruct fq as [fq|]; cbn; destruct orig as [o|]; cbn; try log_done.
    + destruct (Nat.eqb (length (selectedItems fq)) 0 && truthy o); log_done.
    + destruct (truthy o); log_done.
  - unfold Part000.weight_onDidHide, selected_of.
    destruct wq as [wq|]; cbn.
    + destruct (Nat.eqb (length (selectedItems wq)) 0); [|log_done].
      unfold show. cbn. destruct fq as [fq|]; cbn; [|log_done].
      destruct (disposed fq); log_done.
    + unfold show. cbn. destruct fq as [fq|]; cbn; [|log_done].
      destruct (disposed fq); log_done.
Qed.

Lemma command_part_set_actives env cfg :
  set_actives (log (Part000.command env (initial cfg))) = [].
Proof.
  unfold Part000.command.
  destruct (getMonospacedFonts env) as [fonts|e|]; try reflexivity.
  destruct (Nat.eqb (length fonts) 0); reflexivity.
Qed.

(** C3, the behaviour of the code. Hiding the weight picker leaves the
    weight setting alone and asks the font picker to show again; but no
    run of the second variant ever assigns the active items of a quick
    pick: the index kept in [lastActiveFontIndex] is read only once, before
    it can hold a value. With the fonts A and B, B highlighted and accepted
    and the weight picker then hidden, the index is 1 and the handler only
    shows the font picker and disposes of the weight picker. After the font
    picker has received its own hide event, which disposes of it, the
    request to show it again has no effect either. *)
Theorem back_navigation_never_restores_highlight :
  (forall env cfg0 es, set_actives (log (trace Part000File env cfg0 es)) = [])
  /\ (forall st,
        config (Part000.weight_onDidHide st) = config st
        /\ writes (log (Part000.weight_onDidHide st)) = writes (log st)
        /\ lastActiveFontIndex (Part000.weight_onDidHide st)
           = lastActiveFontIndex st)
  /\ lastActiveFontIndex
       (trace Part000File two_fonts ∅
          (to_weight_stage ++ [DidHide WeightPicker]))
     = Some 1
  /\ log (trace Part000File two_fonts ∅
            (to_weight_stage ++ [DidHide WeightPicker]))
     = log (trace Part000File two_fonts ∅ to_weight_stage)
       ++ [Show FontPicker; Dispose WeightPicker]
  /\ on_screen FontPicker
       (trace Part000File two_fonts ∅
          (to_weight_stage ++ [DidHide FontPicker; DidHide WeightPicker]))
     = false.
Proof.
  split; [|split; [|split; [|split]; vm_compute; reflexivity]].
  - intros env cfg0 es. unfold trace. cbn [handlers_of command_of].
    generalize (command_part_set_actives env cfg0).
    generalize (Part000.command env (initial cfg0)).
    induction es as [|e es IH]; intros st Hst; [exact Hst|].
    change (run Part000.handlers (e :: es) st)
      with (run Part000.handlers es (deliver Part000.handlers e st)).
    apply IH. now rewrite deliver_part_set_actives.
  - intros st. unfold Part000.weight_onDidHide.
    destruct st as [cfg orig last fq wq lg]. unfold show, selected_of. cbn.
    destruct wq as [wq|]; cbn.
    + destruct (Nat.eqb (length (selectedItems wq)) 0); cbn.
      * destruct fq as [fq|]; cbn;
          [destruct (disposed fq); cbn|];
          rewrite ?writes_app; cbn; rewrite ?app_nil_r; auto.
      * rewrite writes_app. cbn. rewrite app_nil_r. auto.
    + destruct fq as [fq|]; cbn;
        [destruct (disposed fq); cbn|];
        rewrite ?writes_app; cbn; rewrite ?app_nil_r; auto.
Qed.

(** ** The matcher *)

Section Matcher.

Context {R : Type}.
Implicit Types (k : Cont R) (p : ascii -> bool) (l run tail : list ascii).

Lemma after_app prev l1 l2 : after prev (l1 ++ l2) = after (after prev l1) l2.
Proof. revert prev. induction l1; intros prev; cbn; auto. Qed.

(** When the continuation cannot start inside the run, the star takes the
    whole run. *)
Lemma m_star_maximal p k run : forall tail prev,
  forallb p run = true -> stops p tail = true ->
  (forall prev' c l, p c = true -> k prev' (c :: l) = None) ->
  m_star p k prev (run ++ tail) = k (after prev run) tail.
Proof.
  induction run as [|c run IH]; intros tail prev Hrun Hstop Hk; cbn.
  - destruct tail as [|t tail]; cbn; [reflexivity|].
    cbn in Hstop. apply negb_true_iff in Hstop. now rewrite Hstop.
  - cbn in Hrun. apply andb_true_iff in Hrun as [Hc Hrun].
    rewrite Hc, (IH tail (Some c) Hrun Hstop Hk).
    destruct (k (after (Some c) run) tail) eqn:Hres; [reflexivity|].
    now apply Hk.
Qed.

(** When the continuation gives the same answer wherever the star stops,
    that is the answer. *)
Lemma m_star_const p k run res : forall tail prev,
  forallb p run = true -> stops p tail = true ->
  (forall prev' pre suf, run = pre ++ suf -> k prev' (suf ++ tail) = res) ->
  m_star p k prev (run ++ tail) = res.
Proof.
  induction run as [|c run IH]; intros tail prev Hrun Hstop Hk; cbn.
  - specialize (Hk prev [] [] eq_refl). cbn in Hk.
    destruct tail as [|t tail]; cbn; [assumption|].
    cbn in Hstop. apply negb_true_iff in Hstop. now rewrite Hstop.
  - cbn in Hrun. apply andb_true_iff in Hrun as [Hc Hrun].
    rewrite Hc, (IH tail (Some c) Hrun Hstop).
    + destruct res; [reflexivity|]. apply (Hk prev [] (c :: run) eq_refl).
    + intros prev' pre suf ->. apply (Hk prev' (c :: pre) suf eq_refl).
Qed.

Lemma m_lit_app s k : forall prev l,
  m_lit s k prev (s ++ l) = k (after prev s) l.
Proof.
  induction s as [|c s IH]; intros prev l; cbn; [reflexivity|].
  rewrite Ascii.eqb_refl. apply IH.
Qed.

Lemma m_lit_mismatch a s k c l prev :
  Ascii.eqb a c = false -> m_lit (a :: s) k prev (c :: l) = None.
Proof. intros H. cbn [m_lit]. unfold m_char. now rewrite H. Qed.

Lemma m_plus_run p k c run tail prev :
  p c = true -> forallb p run = true -> stops p tail = true ->
  (forall prev' c' l, p c' = true -> k prev' (c' :: l) = None) ->
  m_plus p k prev ((c :: run) ++ tail) = k (after prev (c :: run)) tail.
Proof.
  intros Hc Hrun Hstop Hk. unfold m_plus, m_char. cbn. rewrite Hc.
  now apply m_star_maximal.
Qed.

End Matcher.

(** ** The pattern on one value line *)

Lemma terminator_is_space c :
  is_line_terminator c = true -> is_white_space c = true.
Proof.
  unfold is_line_terminator, is_white_space.
  intros [H | H]%orb_true_iff; rewrite H; now rewrite ?orb_true_r.
Qed.

Lemma blank_space c : blank c = true -> is_white_space c = true.
Proof. now intros [? _]%andb_true_iff. Qed.

Lemma blank_dot c : blank c = true -> cls_dot c = true.
Proof. now intros [_ ?]%andb_true_iff. Qed.

Lemma not_space_dot c : cls_not_space c = true -> cls_dot c = true.
Proof.
  unfold cls_not_space, cls_dot. intros H.
  destruct (is_line_terminator c) eqn:Ht; [|reflexivity].
  apply terminator_is_space in Ht. now rewrite Ht in H.
Qed.

Lemma forallb_impl {A} (p q : A -> bool) (l : list A) :
  (forall a, p a = true -> q a = true) ->
  forallb p l = true -> forallb q l = true.
Proof.
  intros Hpq. induction l as [|a l IH]; cbn; [reflexivity|].
  intros [Ha Hl]%andb_true_iff. now rewrite (Hpq a Ha), IH.
Qed.

(** A code unit of the class [p] differs from a letter [x] outside it. *)
Lemma eqb_outside (p : ascii -> bool) (x c : ascii) :
  p x = false -> p c = true -> Ascii.eqb x c = false.
Proof.
  intros Hx Hc.
  destruct (Ascii.eqb_spec x c) as [->|]; [congruence|reflexivity].
Qed.

Section Tail.

Variable g : list ascii.

Lemma k_ttf_exact s rest prev :
  forallb cls_dot s = true -> stops cls_dot rest = true ->
  k_ttf g prev (s ++ rest) = found g (bool_decide (s = chars ".ttf")) rest.
Proof.
  intros Hs Hrest.
  assert (Hr : forall (x : ascii) (k' : Cont Match) p',
             is_line_terminator x = false ->
             m_char (Ascii.eqb x) k' p' rest = None).
  { intros x k' p' Hx. destruct rest as [|t rest]; [reflexivity|]. cbn.
    cbn in Hrest. unfold cls_dot in Hrest. rewrite negb_involutive in Hrest.
    now rewrite (eqb_outside is_line_terminator x t Hx Hrest). }
  unfold k_ttf. cbn [list_ascii_of_string m_lit].
  destruct s as [|a [|b [|c [|d [|e s]]]]]; cbn [app].
  1-4: rewrite bool_decide_eq_false_2 by discriminate; cbn [found].
  - now apply Hr.
  - unfold m_char at 1. destruct (Ascii.eqb "." a); [|reflexivity].
    now apply Hr.
  - unfold m_char at 1. destruct (Ascii.eqb "." a); [|reflexivity].
    unfold m_char at 1. destruct (Ascii.eqb "t" b); [|reflexivity].
    now apply Hr.
  - unfold m_char at 1. destruct (Ascii.eqb "." a); [|reflexivity].
    unfold m_char at 1. destruct (Ascii.eqb "t" b); [|reflexivity].
    unfold m_char at 1. destruct (Ascii.eqb "t" c); [|reflexivity].
    now apply Hr.
  - unfold m_char.
    destruct (Ascii.eqb_spec "." a) as [<-|Ha];
      [|rewrite bool_decide_eq_false_2 by congruence; reflexivity].
    destruct (Ascii.eqb_spec "t" b) as [<-|Hb];
      [|rewrite bool_decide_eq_false_2 by congruence; reflexivity].
    destruct (Ascii.eqb_spec "t" c) as [<-|Hc];
      [|rewrite bool_decide_eq_false_2 by congruence; reflexivity].
    destruct (Ascii.eqb_spec "f" d) as [<-|Hd];
      [|rewrite bool_decide_eq_false_2 by congruence; reflexivity].
    rewrite bool_decide_eq_true_2 by reflexivity. unfold m_eol, k_end. cbn.
    destruct rest as [|t rest]; [reflexivity|].
    cbn in Hrest. unfold cls_dot in Hrest. rewrite negb_involutive in Hrest.
    now rewrite Hrest.
  - unfold m_char.
    rewrite bool_decide_eq_false_2 by discriminate. cbn [found].
    destruct (Ascii.eqb "." a); [|reflexivity].
    destruct (Ascii.eqb "t" b); [|reflexivity].
    destruct (Ascii.eqb "t" c); [|reflexivity].
    destruct (Ascii.eqb "f" d); [|reflexivity].
    unfold m_eol. cbn in Hs.
    do 4 (apply andb_true_iff in Hs as [_ Hs]).
    apply andb_true_iff in Hs as [He _]. unfold cls_dot in He.
    apply negb_true_iff in He. now rewrite He.
Qed.

(** [(.*\.ttf)$] on the rest of a line. *)
Lemma k_data_line seg : forall rest prev,
  forallb cls_dot seg = true -> stops cls_dot rest = true ->
  k_data g prev (seg ++ rest) = found g (ends_with (chars ".ttf") seg) rest.
Proof.
  unfold k_data.
  induction seg as [|c seg IH]; intros rest prev Hseg Hrest.
  - cbn [app ends_with]. rewrite orb_false_r.
    pose proof (k_ttf_exact [] rest prev eq_refl Hrest) as Hk. cbn [app] in Hk.
    destruct rest as [|t rest]; cbn [m_star]; [exact Hk|].
    cbn in Hrest. apply negb_true_iff in Hrest. now rewrite Hrest.
  - cbn in Hseg. apply andb_true_iff in Hseg as [Hc Hseg].
    cbn [app m_star]. rewrite Hc, (IH rest (Some c) Hseg Hrest).
    cbn [ends_with].
    destruct (ends_with (chars ".ttf") seg); cbn [found].
    + now rewrite orb_true_r.
    + rewrite orb_false_r.
      apply (k_ttf_exact (c :: seg) rest prev); [|assumption].
      cbn. now rewrite Hc.
Qed.

Lemma ends_with_after_blanks suf dat :
  forallb is_white_space suf = true ->
  ends_with (chars ".ttf") (suf ++ dat) = ends_with (chars ".ttf") dat.
Proof.
  induction suf as [|a suf IH]; intros Hs; [reflexivity|].
  cbn in Hs. apply andb_true_iff in Hs as [Ha Hs].
  cbn [app ends_with]. rewrite (IH Hs).
  rewrite bool_decide_eq_false_2; [reflexivity|].
  intros Heq. injection Heq as -> _. vm_compute in Ha. discriminate Ha.
Qed.

(** [\s+(.*\.ttf)$] after the type. *)
Lemma k_gap2_line b gap d dat rest prev :
  blank b = true -> forallb blank gap = true ->
  cls_not_space d = true -> forallb cls_dot dat = true ->
  stops cls_dot rest = true ->
  k_gap2 g prev ((b :: gap) ++ (d :: dat) ++ rest)
  = found g (ends_with (chars ".ttf") (d :: dat)) rest.
Proof.
  intros Hb Hgap Hd Hdat Hrest. unfold k_gap2, m_plus, m_char. cbn [app].
  unfold cls_space at 1. rewrite (blank_space b Hb).
  change (gap ++ d :: dat ++ rest) with (gap ++ (d :: dat) ++ rest).
  apply m_star_const.
  - exact (forallb_impl _ _ _ blank_space Hgap).
  - cbn. unfold cls_space. unfold cls_not_space in Hd. exact Hd.
  - intros prev' pre suf ->. rewrite app_assoc.
    rewrite forallb_app in Hgap. apply andb_true_iff in Hgap as [_ Hsuf].
    fold (k_data g). rewrite k_data_line; [| |assumption].
    + now rewrite (ends_with_after_blanks suf (d :: dat)
                     (forallb_impl _ _ _ blank_space Hsuf)).
    + rewrite forallb_app, (forallb_impl _ _ _ blank_dot Hsuf). cbn.
      now rewrite (not_space_dot d Hd), Hdat.
Qed.

End Tail.

Lemma regex_here_unfold prev rest :
  regex_here prev rest
  = m_bol (m_star cls_space (fun p1 r1 =>
      m_plus cls_not_space (fun p2 r2 =>
        k_gap1 (firstn (length r1 - length r2) r1) p2 r2) p1 r1)) prev rest.
Proof. reflexivity. Qed.

Lemma regex_here_not_bol prev rest :
  bol prev = false -> regex_here prev rest = None.
Proof.
  rewrite regex_here_unfold. unfold m_bol, bol.
  destruct prev as [c|]; [|discriminate]. now intros ->.
Qed.

Lemma k_gap1_line g b gap1 b2 gap2 d dat rest prev :
  blank b = true -> forallb blank gap1 = true ->
  blank b2 = true -> forallb blank gap2 = true ->
  cls_not_space d = true -> forallb cls_dot dat = true ->
  stops cls_dot rest = true ->
  k_gap1 g prev
    ((b :: gap1) ++ chars "REG_SZ" ++ (b2 :: gap2) ++ (d :: dat) ++ rest)
  = found g (ends_with (chars ".ttf") (d :: dat)) rest.
Proof.
  intros Hb Hg1 Hb2 Hg2 Hd Hdat Hrest. unfold k_gap1.
  rewrite m_plus_run.
  - unfold k_type. rewrite m_lit_app. now apply k_gap2_line.
  - exact (blank_space b Hb).
  - exact (forallb_impl _ _ _ blank_space Hg1).
  - reflexivity.
  - intros prev' c l Hc. unfold k_type.
    change (chars "REG_SZ") with ("R"%char :: chars "EG_SZ").
    apply m_lit_mismatch. now apply (eqb_outside is_white_space).
Qed.

Lemma token_line_parts e :
  token_line e = true ->
  exists n nm b1 g1 b2 g2 d dat,
    name e = n :: nm /\ gap1 e = b1 :: g1 /\ gap2 e = b2 :: g2
    /\ data e = d :: dat
    /\ forallb blank (indent e) = true
    /\ cls_not_space n = true /\ forallb cls_not_space nm = true
    /\ blank b1 = true /\ forallb blank g1 = true
    /\ blank b2 = true /\ forallb blank g2 = true
    /\ cls_not_space d = true /\ forallb cls_dot dat = true
    /\ forallb is_line_terminator (eol e) = true.
Proof.
  unfold token_line. intros Hwf.
  apply andb_true_iff in Hwf as [Hwf Heol].
  apply andb_true_iff in Hwf as [Hwf Hdat].
  apply andb_true_iff in Hwf as [Hwf Hd].
  apply andb_true_iff in Hwf as [Hwf Hg2].
  apply andb_true_iff in Hwf as [Hwf Hn2].
  apply andb_true_iff in Hwf as [Hwf Hg1].
  apply andb_true_iff in Hwf as [Hwf Hn1].
  apply andb_true_iff in Hwf as [Hwf Hnm].
  apply andb_true_iff in Hwf as [Hind Hn0].
  destruct e as [ind nm g1 g2 dat el]. cbn [Spec.name Spec.gap1 Spec.gap2
    Spec.data Spec.indent Spec.eol] in *.
  destruct nm as [|n nm]; [discriminate Hn0|].
  destruct g1 as [|b1 g1]; [discriminate Hn1|].
  destruct g2 as [|b2 g2]; [discriminate Hn2|].
  destruct dat as [|d dat]; [discriminate Hd|].
  cbn [forallb] in Hnm, Hg1, Hg2, Hdat.
  apply andb_true_iff in Hnm as [? ?]. apply andb_true_iff in Hg1 as [? ?].
  apply andb_true_iff in Hg2 as [? ?]. apply andb_true_iff in Hdat as [? ?].
  exists n, nm, b1, g1, b2, g2, d, dat. repeat split; assumption.
Qed.

(** The pattern tried at the start of a value line, after any white space:
    it matches when the data ends with [.ttf], with the name in group 1
    and the end of the match at the end of the line. *)
Lemma regex_here_entry prev pre e rest :
  forallb is_white_space pre = true -> token_line e = true ->
  stops cls_dot rest = true ->
  regex_here prev
    (pre ++ name e ++ gap1 e ++ chars "REG_SZ" ++ gap2 e ++ data e ++ rest)
  = if bol prev then found (name e) (ttf_path e) rest else None.
Proof.
  intros Hpre Hwf Hrest.
  destruct (bol prev) eqn:Hbol; [|now apply regex_here_not_bol].
  destruct (token_line_parts e Hwf)
    as (n & nm & b1 & g1 & b2 & g2 & d & dat & En & Eg1 & Eg2 & Ed & Hind
        & Hn & Hnm & Hb1 & Hg1 & Hb2 & Hg2 & Hd & Hdat & Heol).
  unfold ttf_path. rewrite En, Eg1, Eg2, Ed.
  rewrite regex_here_unfold. unfold m_bol.
  replace (match prev with
           | Some c => if is_line_terminator c then _ else None
           | None => _
           end)
    with (m_star cls_space (fun p1 r1 =>
            m_plus cls_not_space (fun p2 r2 =>
              k_gap1 (firstn (length r1 - length r2) r1) p2 r2) p1 r1) prev
            (pre ++ (n :: nm) ++ (b1 :: g1) ++ chars "REG_SZ" ++ (b2 :: g2)
               ++ (d :: dat) ++ rest))
    by (destruct prev as [c|]; [cbn in Hbol; now rewrite Hbol|reflexivity]).
  rewrite m_star_maximal.
  - rewrite m_plus_run.
    + replace (firstn _ _) with (n :: nm).
      * now apply k_gap1_line.
      * rewrite length_app, Nat.add_sub. now rewrite take_app_length.
    + assumption.
    + assumption.
    + cbn. unfold cls_not_space. now rewrite negb_involutive, (blank_space b1).
    + intros prev' c l Hc. unfold k_gap1, m_plus, m_char.
      unfold cls_not_space in Hc. apply negb_true_iff in Hc.
      unfold cls_space. now rewrite Hc.
  - exact Hpre.
  - cbn. unfold cls_space. exact Hn.
  - intros prev' c l Hc. unfold m_plus, m_char, cls_not_space.
    unfold cls_space in Hc. now rewrite Hc.
Qed.

(** ** The search through a listing *)

Lemma regex_exec_step prev l :
  regex_exec prev l
  = match regex_here prev l with
    | Some m => Some m
    | None => match l with
              | [] => None
              | c :: r => regex_exec (Some c) r
              end
    end.
Proof. destruct l; reflexivity. Qed.

(** Inside a line no position is the start of a line. *)
Lemma regex_exec_skip l : forall rest prev,
  bol prev = false -> forallb cls_dot l = true ->
  regex_exec prev (l ++ rest) = regex_exec (after prev l) rest.
Proof.
  induction l as [|c l IH]; intros rest prev Hbol Hl; [reflexivity|].
  cbn in Hl. apply andb_true_iff in Hl as [Hc Hl].
  cbn [app after]. rewrite regex_exec_step, (regex_here_not_bol _ _ Hbol).
  apply IH; [|assumption]. cbn. unfold cls_dot in Hc.
  now apply negb_true_iff in Hc.
Qed.

Lemma regex_here_spaces prev l :
  forallb is_white_space l = true -> regex_here prev l = None.
Proof.
  intros Hl. destruct (bol prev) eqn:Hbol; [|now apply regex_here_not_bol].
  rewrite regex_here_unfold. unfold m_bol.
  replace (match prev with
           | Some c => if is_line_terminator c then _ else None
           | None => _
           end)
    with (m_star cls_space (fun p1 r1 =>
            m_plus cls_not_space (fun p2 r2 =>
              k_gap1 (firstn (length r1 - length r2) r1) p2 r2) p1 r1) prev
            (l ++ []))
    by (rewrite app_nil_r; destruct prev as [c|];
        [cbn in Hbol; now rewrite Hbol|reflexivity]).
  rewrite m_star_maximal; [reflexivity|exact Hl|reflexivity|].
  intros prev' c r Hc. unfold m_plus, m_char, cls_not_space.
  unfold cls_space in Hc. now rewrite Hc.
Qed.

(** ** The loop over the matches *)

Lemma exec_loop_step fuel prev l fonts :
  exec_loop (S fuel) prev l fonts
  = match regex_exec prev l with
    | None => Some fonts
    | Some (g1, prev', rest') =>
        exec_loop fuel prev' rest'
          (if includes "mono" (toLowerCase (str g1)) then set_add fonts (str g1)
           else fonts)
    end.
Proof. reflexivity. Qed.

Lemma lower_is_letter (a : ascii) :
  Ascii.eqb "m" (lower_char a) = is_letter "m" "M" a
  /\ Ascii.eqb "o" (lower_char a) = is_letter "o" "O" a
  /\ Ascii.eqb "n" (lower_char a) = is_letter "n" "N" a.
Proof.
  destruct a as [[] [] [] [] [] [] [] []]; repeat split; vm_compute;
    reflexivity.
Qed.

Lemma starts_with_mono l :
  starts_with_chars (chars "mono") (map lower_char l) = mono_here l.
Proof.
  destruct l as [|a [|b [|c [|d l]]]]; cbn [map chars list_ascii_of_string
    starts_with_chars mono_here]; rewrite ?andb_false_r; try reflexivity.
  destruct (lower_is_letter a) as (-> & _ & _).
  destruct (lower_is_letter b) as (_ & -> & _).
  destruct (lower_is_letter c) as (_ & _ & ->).
  destruct (lower_is_letter d) as (_ & -> & _).
  now rewrite andb_true_r, !andb_assoc.
Qed.

(** [toLowerCase] followed by [includes('mono')] finds [mono] in any
    letter case and nothing else. *)
Lemma includes_mono_anycase l :
  includes "mono" (toLowerCase (str l)) = mono_anycase l.
Proof.
  unfold includes, toLowerCase.
  rewrite !list_ascii_of_string_of_list_ascii.
  induction l as [|a l IH].
  - reflexivity.
  - cbn [mono_anycase]. rewrite <- IH, <- starts_with_mono. reflexivity.
Qed.

Lemma string_length_str l : String.length (str l) = length l.
Proof. induction l as [|c l IH]; cbn; [reflexivity|now rewrite IH]. Qed.

(** ** Words and lines *)

Lemma leading_behind p l : leading p l ++ behind p l = l.
Proof.
  induction l as [|c l IH]; [reflexivity|]. cbn.
  destruct (p c); [cbn; now rewrite IH|reflexivity].
Qed.

Lemma leading_all p l : forallb p (leading p l) = true.
Proof.
  induction l as [|c l IH]; [reflexivity|]. cbn.
  destruct (p c) eqn:Hc; [cbn; now rewrite Hc|reflexivity].
Qed.

Lemma behind_stops p l : stops p (behind p l) = true.
Proof.
  induction l as [|c l IH]; [reflexivity|]. cbn.
  destruct (p c) eqn:Hc; [exact IH|cbn; now rewrite Hc].
Qed.

Lemma leading_app p w r :
  forallb p w = true -> stops p r = true ->
  leading p (w ++ r) = w /\ behind p (w ++ r) = r.
Proof.
  intros Hw Hr. induction w as [|c w IH]; cbn.
  - destruct r as [|x r]; [auto|]. cbn in Hr.
    apply negb_true_iff in Hr. cbn. now rewrite Hr.
  - cbn in Hw. apply andb_true_iff in Hw as [Hc Hw]. rewrite Hc.
    destruct (IH Hw) as [-> ->]. auto.
Qed.

Lemma behind_all p w r : forallb p w = true -> behind p (w ++ r) = behind p r.
Proof.
  intros Hw. induction w as [|c w IH]; [reflexivity|]. cbn in *.
  apply andb_true_iff in Hw as [-> Hw]. auto.
Qed.

Lemma forallb_leading (q p : ascii -> bool) l :
  forallb q l = true -> forallb q (leading p l) = true.
Proof.
  induction l as [|c l IH]; [reflexivity|]. cbn.
  intros [Hc Hl]%andb_true_iff. destruct (p c); [cbn; rewrite Hc; auto|auto].
Qed.

Lemma forallb_behind (q p : ascii -> bool) l :
  forallb q l = true -> forallb q (behind p l) = true.
Proof.
  induction l as [|c l IH]; [reflexivity|]. cbn.
  intros [Hc Hl]%andb_true_iff. destruct (p c); [auto|cbn; now rewrite Hc, Hl].
Qed.

Lemma stops_not_space_space l :
  stops is_white_space l = true -> stops cls_not_space l = true
  -> l = [].
Proof.
  destruct l as [|c l]; [reflexivity|]. cbn. unfold cls_not_space.
  destruct (is_white_space c); discriminate.
Qed.

(** A text is white space, a word, and the rest. *)
Lemma text_cut t :
  t = leading is_white_space t ++ word1 t ++ past1 t.
Proof. unfold word1, past1. now rewrite !leading_behind. Qed.

Lemma word1_not_space t : forallb cls_not_space (word1 t) = true.
Proof. apply leading_all. Qed.

Lemma past1_stops t : stops cls_not_space (past1 t) = true.
Proof. apply behind_stops. Qed.

Lemma word1_skip pre t :
  forallb is_white_space pre = true ->
  word1 (pre ++ t) = word1 t /\ past1 (pre ++ t) = past1 t.
Proof. intros H. unfold word1, past1. now rewrite (behind_all _ _ _ H). Qed.

Lemma word1_empty t :
  word1 t = [] -> forallb is_white_space t = true.
Proof.
  intros Hw. rewrite (text_cut t), Hw. cbn [app].
  pose proof (past1_stops t) as Hs. unfold past1 in *.
  unfold word1 in Hw.
  pose proof (leading_behind cls_not_space (behind is_white_space t)) as Hc.
  rewrite Hw in Hc. cbn in Hc. rewrite Hc in *.
  rewrite (stops_not_space_space _ (behind_stops _ _) Hs), app_nil_r.
  apply leading_all.
Qed.

Lemma word1_of_cut lead w r :
  forallb is_white_space lead = true -> forallb cls_not_space w = true ->
  nonempty w = true -> stops cls_not_space r = true ->
  word1 (lead ++ w ++ r) = w /\ past1 (lead ++ w ++ r) = r.
Proof.
  intros Hl Hw Hn Hr. unfold word1, past1. rewrite (behind_all _ _ _ Hl).
  assert (Hs : behind is_white_space (w ++ r) = w ++ r).
  { destruct w as [|c w]; [discriminate Hn|]. cbn in Hw |- *.
    apply andb_true_iff in Hw as [Hc _]. unfold cls_not_space in Hc.
    apply negb_true_iff in Hc. now rewrite Hc. }
  rewrite Hs. now apply leading_app.
Qed.

(** A word that stands before white space or at the end is the first
    word also of a longer text. *)
Lemma word1_app t x :
  nonempty (word1 t) = true -> stops cls_not_space x = true ->
  word1 (t ++ x) = word1 t /\ past1 (t ++ x) = past1 t ++ x.
Proof.
  intros Hn Hx.
  assert (Hp : stops cls_not_space (past1 t ++ x) = true).
  { pose proof (past1_stops t). destruct (past1 t); [exact Hx|assumption]. }
  pose proof (word1_of_cut (leading is_white_space t) (word1 t)
                (past1 t ++ x) (leading_all _ _) (word1_not_space t) Hn Hp)
    as H.
  rewrite !app_assoc, <- (app_assoc _ (word1 t)), <- text_cut in H.
  exact H.
Qed.

(** ** The pattern at a word *)

Lemma m_lit_split {R} s (k : Cont R) : forall prev l,
  m_lit s k prev l = None
  \/ exists l', l = s ++ l' /\ m_lit s k prev l = k (after prev s) l'.
Proof.
  induction s as [|c s IH]; intros prev l; cbn [m_lit].
  - right. exists l. auto.
  - unfold m_char. destruct l as [|x l]; [now left|].
    destruct (Ascii.eqb_spec c x) as [<-|]; [|now left].
    destruct (IH (Some c) l) as [H|(l' & -> & H)]; [now left|].
    right. exists l'. auto.
Qed.

Lemma m_plus_stops {R} p (k : Cont R) prev t :
  stops p t = true -> m_plus p k prev t = None.
Proof.
  unfold m_plus, m_char. destruct t as [|c t]; [reflexivity|]. cbn.
  now intros ->%negb_true_iff.
Qed.

Lemma leading_nil_stops p t : leading p t = [] -> stops p t = true.
Proof.
  destruct t as [|c t]; [reflexivity|]. cbn.
  destruct (p c); [discriminate|reflexivity].
Qed.

Lemma k_type_space g prev c l :
  cls_space c = true -> k_type g prev (c :: l) = None.
Proof.
  intros Hc. unfold k_type.
  change (chars "REG_SZ") with ("R"%char :: chars "EG_SZ").
  apply m_lit_mismatch. now apply (eqb_outside is_white_space).
Qed.

Lemma k_type_other g prev w r :
  forallb cls_not_space w = true -> stops cls_not_space r = true ->
  is_REG_SZ w = false -> k_type g prev (w ++ r) = None.
Proof.
  intros Hw Hr Hne. unfold k_type.
  destruct (m_lit_split (chars "REG_SZ") (k_gap2 g) prev (w ++ r))
    as [H|(l' & Hl & ->)]; [exact H|].
  unfold k_gap2.
  destruct (stops cls_space l') eqn:Hs; [now apply m_plus_stops|].
  assert (Hs' : stops cls_not_space l' = true).
  { destruct l' as [|c l']; [reflexivity|]. cbn in Hs |- *.
    unfold cls_not_space, cls_space in *. now rewrite Hs. }
  destruct (leading_app cls_not_space w r Hw Hr) as [H1 _].
  destruct (leading_app cls_not_space (chars "REG_SZ") l' eq_refl Hs')
    as [H2 _].
  rewrite Hl, H2 in H1. unfold is_REG_SZ in Hne.
  apply bool_decide_eq_false in Hne. congruence.
Qed.

(** After the name the pattern wants the word [REG_SZ]. *)
Lemma k_gap1_next g prev t :
  is_REG_SZ (word1 t) = false -> k_gap1 g prev t = None.
Proof.
  intros Hne. unfold k_gap1.
  destruct (leading is_white_space t) as [|c run] eqn:Hl.
  - apply m_plus_stops. now apply leading_nil_stops.
  - pose proof (leading_all is_white_space t) as Hall. rewrite Hl in Hall.
    cbn in Hall. apply andb_true_iff in Hall as [Hc Hrun].
    rewrite <- (leading_behind is_white_space t), Hl.
    rewrite m_plus_run.
    + rewrite <- (leading_behind cls_not_space (behind is_white_space t)).
      apply k_type_other;
        [apply leading_all|apply behind_stops|exact Hne].
    + exact Hc.
    + exact Hrun.
    + apply behind_stops.
    + intros prev' c' l Hc'. now apply k_type_space.
Qed.

Lemma regex_here_word prev pre w r :
  forallb is_white_space pre = true -> forallb cls_not_space w = true ->
  nonempty w = true -> stops cls_not_space r = true -> bol prev = true ->
  regex_here prev (pre ++ w ++ r) = k_gap1 w (after prev (pre ++ w)) r.
Proof.
  intros Hpre Hw Hn Hr Hbol.
  destruct w as [|n nm]; [discriminate Hn|].
  cbn in Hw. apply andb_true_iff in Hw as [Hc Hnm].
  rewrite regex_here_unfold. unfold m_bol.
  replace (match prev with
           | Some c => if is_line_terminator c then _ else None
           | None => _
           end)
    with (m_star cls_space (fun p1 r1 =>
            m_plus cls_not_space (fun p2 r2 =>
              k_gap1 (firstn (length r1 - length r2) r1) p2 r2) p1 r1) prev
            (pre ++ (n :: nm) ++ r))
    by (destruct prev as [c|]; [cbn in Hbol; now rewrite Hbol|reflexivity]).
  rewrite m_star_maximal.
  - rewrite m_plus_run.
    + replace (firstn _ _) with (n :: nm).
      * now rewrite after_app.
      * rewrite length_app, Nat.add_sub. now rewrite take_app_length.
    + assumption.
    + assumption.
    + assumption.
    + intros prev' c l Hc'. unfold k_gap1. apply m_plus_stops. cbn.
      unfold cls_not_space in Hc'. unfold cls_space. now rewrite Hc'.
  - exact Hpre.
  - cbn. unfold cls_space. unfold cls_not_space in Hc. exact Hc.
  - intros prev' c l Hc'. apply m_plus_stops. cbn.
    unfold cls_not_space. unfold cls_space in Hc'. now rewrite Hc'.
Qed.

(** ** The pattern at a line *)

Lemma eol_space e r : eol_ok e r = true -> forallb is_white_space e = true.
Proof.
  destruct e as [|t [|u e]]; [reflexivity| |discriminate]. cbn.
  intros H%terminator_is_space. now rewrite H.
Qed.

Lemma eol_stops e r :
  eol_ok e r = true ->
  stops cls_dot (e ++ render_lines r) = true
  /\ stops cls_not_space (e ++ render_lines r) = true.
Proof.
  destruct e as [|t [|u e]]; [|cbn|discriminate].
  - destruct r; [auto|discriminate].
  - intros H. unfold cls_dot, cls_not_space.
    now rewrite H, (terminator_is_space _ H).
Qed.

Lemma not_REG_SZ_nil : is_REG_SZ [] = false.
Proof. apply bool_decide_eq_false. discriminate. Qed.

Lemma behind_nonempty p l x :
  nonempty (behind p l) = true -> behind p (l ++ x) = behind p l ++ x.
Proof.
  induction l as [|c l IH]; [discriminate|]. cbn.
  destruct (p c); [exact IH|reflexivity].
Qed.

Lemma behind_nil_all p l : behind p l = [] -> forallb p l = true.
Proof.
  induction l as [|c l IH]; [reflexivity|]. cbn.
  destruct (p c); [exact IH|discriminate].
Qed.

Lemma word1_nonempty_behind l :
  nonempty (word1 l) = true -> nonempty (behind is_white_space l) = true.
Proof. unfold word1. now destruct (behind is_white_space l). Qed.

(** Where a line ends, the next word and the next stretch of text without
    a line terminator are those of the next line that is not blank. *)
Lemma next_line_text ls :
  lines_ok ls = true ->
  word1 (render_lines ls) = word1 (next_line (map fst ls))
  /\ leading cls_dot (behind is_white_space (render_lines ls))
     = behind is_white_space (next_line (map fst ls)).
Proof.
  induction ls as [|[l e] r IH]; intros Hok; [auto|].
  cbn in Hok. apply andb_true_iff in Hok as [[Hl He]%andb_true_iff Hok].
  destruct (eol_stops e r He) as [Hsd Hsn].
  cbn [render_lines map fst]. unfold next_line. cbn [List.filter].
  destruct (nonempty (word1 l)) eqn:Hn; cbn [hd].
  - destruct (word1_app l (e ++ render_lines r) Hn Hsn) as [-> _].
    split; [reflexivity|].
    rewrite (behind_nonempty _ _ _ (word1_nonempty_behind l Hn)).
    now apply leading_app; [apply forallb_behind|].
  - assert (Hw : word1 l = []) by (destruct (word1 l); [auto|discriminate]).
    assert (Hs : forallb is_white_space (l ++ e) = true)
      by (rewrite forallb_app, (word1_empty l Hw); exact (eol_space e r He)).
    rewrite !app_assoc. destruct (word1_skip (l ++ e) (render_lines r) Hs)
      as [-> _].
    rewrite (behind_all _ _ _ Hs). exact (IH Hok).
Qed.

(** [\s+(.*\.ttf)$] when the next stretch of text does not end with
    [.ttf]. *)
Lemma k_gap2_none g prev t :
  ends_with (chars ".ttf") (leading cls_dot (behind is_white_space t)) = false
  -> k_gap2 g prev t = None.
Proof.
  intros Hend. unfold k_gap2.
  destruct (leading is_white_space t) as [|c run] eqn:Hl.
  - apply m_plus_stops. now apply leading_nil_stops.
  - pose proof (leading_all is_white_space t) as Hall. rewrite Hl in Hall.
    cbn in Hall. apply andb_true_iff in Hall as [Hc Hrun].
    rewrite <- (leading_behind is_white_space t), Hl.
    unfold m_plus, m_char. cbn [app]. unfold cls_space at 1. rewrite Hc.
    apply m_star_const; [exact Hrun|apply behind_stops|].
    intros prev' pre suf ->.
    rewrite forallb_app in Hrun. apply andb_true_iff in Hrun as [_ Hsuf].
    fold (k_data g).
    rewrite <- (leading_behind cls_dot (suf ++ behind is_white_space t)).
    rewrite k_data_line; [|apply leading_all|apply behind_stops].
    replace (ends_with _ _) with false; [reflexivity|].
    symmetry. clear pre Hl.
    induction suf as [|a suf IH]; [exact Hend|].
    cbn in Hsuf. apply andb_true_iff in Hsuf as [Ha Hsuf].
    cbn [app leading]. destruct (cls_dot a); [|reflexivity].
    change (a :: leading cls_dot (suf ++ behind is_white_space t))
      with ([a] ++ leading cls_dot (suf ++ behind is_white_space t)).
    rewrite ends_with_after_blanks by (cbn; now rewrite Ha).
    exact (IH Hsuf).
Qed.

Lemma forallb_blank l :
  forallb is_white_space l = true -> forallb cls_dot l = true ->
  forallb blank l = true.
Proof.
  induction l as [|c l IH]; [reflexivity|]. cbn.
  intros [Hc Hl]%andb_true_iff [Hd Hl']%andb_true_iff.
  unfold blank, cls_dot in *. rewrite Hc, Hd. cbn. auto.
Qed.

(** A value line is its name, [REG_SZ] and its data between blanks. *)
Lemma value_line_entry l :
  forallb cls_dot l = true -> is_value_line l = true ->
  exists e,
    token_line e = true /\ indent e = [] /\ name e = word1 l
    /\ data e = value_of l
    /\ l = leading is_white_space l ++ name e ++ gap1 e ++ chars "REG_SZ"
           ++ gap2 e ++ data e.
Proof.
  intros Hl Hv. unfold is_value_line in Hv.
  apply andb_true_iff in Hv as [[Hn Hr]%andb_true_iff Hd].
  unfold is_REG_SZ in Hr. apply bool_decide_eq_true in Hr.
  set (G1 := leading is_white_space (past1 l)).
  set (G2 := leading is_white_space (past1 (past1 l))).
  assert (Hp1 : past1 l = G1 ++ chars "REG_SZ" ++ past1 (past1 l)).
  { rewrite (text_cut (past1 l)) at 1. fold (word2 l). now rewrite Hr. }
  assert (Hp2 : past1 (past1 l) = G2 ++ value_of l).
  { unfold value_of, G2. now rewrite leading_behind. }
  assert (Hdl : forallb cls_dot (past1 l) = true)
    by (unfold past1; now do 2 apply forallb_behind).
  assert (Hdl2 : forallb cls_dot (past1 (past1 l)) = true)
    by (unfold past1 at 1; now do 2 apply forallb_behind).
  assert (HG1 : nonempty G1 = true).
  { pose proof (past1_stops l) as Hs. rewrite Hp1 in Hs.
    destruct G1; [discriminate Hs|reflexivity]. }
  assert (HG2 : nonempty G2 = true).
  { pose proof (past1_stops (past1 l)) as Hs. rewrite Hp2 in Hs.
    pose proof (behind_stops is_white_space (past1 (past1 l))) as Hw.
    fold (value_of l) in Hw.
    destruct G2; [|reflexivity]. cbn [app] in Hs.
    destruct (value_of l) as [|c v]; [discriminate Hd|].
    cbn in Hs, Hw. unfold cls_not_space in Hs. rewrite Hw in Hs.
    discriminate Hs. }
  exists {| indent := []; name := word1 l; gap1 := G1; gap2 := G2;
            data := value_of l; eol := [] |}.
  split; [|split; [reflexivity|split; [reflexivity|split; [reflexivity|]]]].
  - unfold token_line. cbn.
    rewrite Hn, (word1_not_space l), HG1, HG2. cbn.
    rewrite (forallb_blank G1), (forallb_blank G2);
      [|apply leading_all|now apply forallb_leading
       |apply leading_all|now apply forallb_leading].
    cbn. rewrite (forallb_behind _ _ _ Hdl2 : forallb cls_dot (value_of l) = _).
    rewrite andb_true_r.
    pose proof (behind_stops is_white_space (past1 (past1 l))) as Hw.
    fold (value_of l) in Hw. destruct (value_of l); [discriminate Hd|].
    cbn in Hw. unfold cls_not_space. now rewrite Hw.
  - cbn [name gap1 gap2 data]. rewrite <- Hp2, <- Hp1. apply text_cut.
Qed.

(** A name and [REG_SZ] without data: the pattern looks for the data on
    the next line that is not blank. *)
Lemma k_gap1_no_data g prev l x :
  is_REG_SZ (word2 l) = true -> value_of l = [] ->
  ends_with (chars ".ttf") (leading cls_dot (behind is_white_space x)) = false
  -> k_gap1 g prev (past1 l ++ x) = None.
Proof.
  intros Hr Hv Hend. unfold is_REG_SZ in Hr. apply bool_decide_eq_true in Hr.
  assert (Hp1 : past1 l = leading is_white_space (past1 l) ++ chars "REG_SZ"
                          ++ past1 (past1 l)).
  { rewrite (text_cut (past1 l)) at 1. fold (word2 l). now rewrite Hr. }
  pose proof (behind_nil_all _ _ Hv) as Hw2.
  pose proof (leading_all is_white_space (past1 l)) as Hall.
  destruct (leading is_white_space (past1 l)) as [|c run] eqn:HG1.
  - pose proof (past1_stops l) as Hs. rewrite Hp1 in Hs. discriminate Hs.
  - cbn in Hall. apply andb_true_iff in Hall as [Hc Hrun].
    rewrite Hp1, <- !app_assoc. unfold k_gap1. rewrite m_plus_run.
    + unfold k_type. rewrite m_lit_app. apply k_gap2_none.
      now rewrite (behind_all _ _ _ Hw2).
    + exact Hc.
    + exact Hrun.
    + reflexivity.
    + intros prev' c' t Hc'. now apply k_type_space.
Qed.

Lemma regex_here_lines ls : forall pre prev,
  lines_ok ls = true -> regular_lines (map fst ls) = true ->
  forallb is_white_space pre = true -> bol prev = true ->
  regex_here prev (pre ++ render_lines ls) = hit_match (head_hit ls).
Proof.
  induction ls as [|[l e] r IH]; intros pre prev Hok Hreg Hpre Hbol.
  - cbn. rewrite app_nil_r. now apply regex_here_spaces.
  - cbn in Hok, Hreg.
    apply andb_true_iff in Hok as [[Hl He]%andb_true_iff Hok].
    apply andb_true_iff in Hreg as [Hrl Hreg].
    destruct (eol_stops e r He) as [Hsd Hsn].
    destruct (next_line_text r Hok) as [Hnw Hnb].
    pose proof (eol_space e r He) as Hes.
    cbn [render_lines head_hit]. destruct (nonempty (word1 l)) eqn:Hn.
    + unfold matched. destruct (is_value_line l) eqn:Hv.
      * destruct (value_line_entry l Hl Hv)
          as (en & Htok & _ & Hname & Hdata & Hcut).
        rewrite Hcut at 1. rewrite <- !app_assoc, app_assoc.
        rewrite regex_here_entry;
          [|rewrite forallb_app, Hpre; apply leading_all|exact Htok
           |exact Hsd].
        rewrite Hbol. unfold ttf_path. rewrite Hname, Hdata. cbn [andb].
        unfold found. now destruct (ends_with _ _).
      * cbn [andb hit_match].
        rewrite (text_cut l) at 1. rewrite <- !app_assoc, app_assoc.
        assert (Hstop : stops cls_not_space
                          (past1 l ++ e ++ render_lines r) = true).
        { pose proof (past1_stops l). destruct (past1 l); auto. }
        rewrite regex_here_word;
          [|rewrite forallb_app, Hpre; apply leading_all
           |apply word1_not_space|exact Hn|exact Hstop|exact Hbol].
        unfold unbroken, one_word, no_data in Hrl. rewrite Hn in Hrl.
        apply andb_true_iff in Hrl as [H1 H2].
        unfold is_value_line in Hv. rewrite Hn in Hv. cbn [andb] in Hv, H1.
        destruct (nonempty (word2 l)) eqn:Hn2.
        -- destruct (is_REG_SZ (word2 l)) eqn:Hr.
           ++ cbn [andb] in Hv, H2. rewrite Hv in H2. cbn in H2.
              apply negb_true_iff in H2.
              apply k_gap1_no_data; [exact Hr| |].
              ** destruct (value_of l); [reflexivity|discriminate Hv].
              ** rewrite (behind_all _ _ _ Hes), Hnb.
                 pose proof (ends_with_after_blanks
                               (leading is_white_space (next_line (map fst r)))
                               (behind is_white_space (next_line (map fst r)))
                               (leading_all _ _)) as Hb.
                 rewrite leading_behind in Hb. rewrite <- Hb. exact H2.
           ++ apply k_gap1_next.
              destruct (word1_app (past1 l) (e ++ render_lines r) Hn2 Hsn)
                as [-> _].
              exact Hr.
        -- cbn [negb andb] in H1. apply negb_true_iff in H1.
           apply k_gap1_next.
           assert (Hw : word1 (past1 l) = [])
             by (unfold word2 in Hn2; destruct (word1 (past1 l));
                 [auto|discriminate]).
           rewrite !app_assoc.
           destruct (word1_skip (past1 l ++ e) (render_lines r)) as [-> _].
           ++ rewrite forallb_app, (word1_empty _ Hw). exact Hes.
           ++ now rewrite Hnw.
    + assert (Hw : word1 l = []) by (destruct (word1 l); [auto|discriminate]).
      rewrite !app_assoc. apply IH; auto.
      rewrite !forallb_app, Hpre, (word1_empty l Hw). exact Hes.
Qed.

(** ** The search through the lines *)

Lemma matched_nonempty l : matched l = true -> nonempty (word1 l) = true.
Proof.
  unfold matched, is_value_line.
  now intros [[[H _]%andb_true_iff _]%andb_true_iff _]%andb_true_iff.
Qed.

Lemma head_first ls : forall x, head_hit ls = Some x -> first_hit ls = Some x.
Proof.
  induction ls as [|[l e] r IH]; intros x; cbn; [discriminate|].
  destruct (nonempty (word1 l)) eqn:Hn.
  - destruct (matched l); [auto|discriminate].
  - destruct (matched l) eqn:Hm; [|auto].
    apply matched_nonempty in Hm. congruence.
Qed.

Lemma head_none l e r :
  head_hit ((l, e) :: r) = None -> matched l = false.
Proof.
  cbn. destruct (matched l) eqn:Hm; [|reflexivity].
  now rewrite (matched_nonempty l Hm).
Qed.

Lemma bol_after l : forall prev,
  bol prev = false -> forallb cls_dot l = true -> bol (after prev l) = false.
Proof.
  induction l as [|c l IH]; intros prev Hb Hl; [exact Hb|].
  cbn in Hl. apply andb_true_iff in Hl as [Hc Hl]. cbn [after].
  apply IH; [|exact Hl]. cbn. unfold cls_dot in Hc.
  now apply negb_true_iff in Hc.
Qed.

Lemma regex_exec_nil prev : regex_exec prev [] = None.
Proof. cbn. now rewrite (regex_here_spaces prev [] eq_refl). Qed.

Lemma regex_exec_listing ls : forall prev,
  lines_ok ls = true -> regular_lines (map fst ls) = true ->
  bol prev = true ->
  regex_exec prev (render_lines ls) = hit_match (first_hit ls).
Proof.
  induction ls as [|[l e] r IH]; intros prev Hok Hreg Hbol;
    [apply regex_exec_nil|].
  pose proof (regex_here_lines ((l, e) :: r) [] prev Hok Hreg eq_refl Hbol)
    as Hhere.
  cbn [app] in Hhere. rewrite regex_exec_step, Hhere.
  destruct (head_hit ((l, e) :: r)) as [[[g e'] r']|] eqn:Hh.
  - now rewrite (head_first _ _ Hh).
  - cbn [hit_match first_hit]. rewrite (head_none l e r Hh).
    cbn in Hok, Hreg.
    apply andb_true_iff in Hok as [[Hl He]%andb_true_iff Hok].
    apply andb_true_iff in Hreg as [_ Hreg].
    assert (Heol : forall p, bol p = false ->
              regex_exec p (e ++ render_lines r) = hit_match (first_hit r)).
    { intros p Hp. destruct e as [|t [|u e]]; [| |discriminate He].
      - destruct r; [apply regex_exec_nil|discriminate He].
      - cbn [app]. rewrite regex_exec_step, (regex_here_not_bol _ _ Hp).
        now apply IH. }
    cbn [render_lines]. destruct l as [|c l].
    + destruct e as [|t [|u e]]; [| |discriminate He].
      * destruct r; [reflexivity|discriminate He].
      * cbn [app]. now apply IH.
    + cbn [app]. cbn in Hl. apply andb_true_iff in Hl as [Hc Hl].
      assert (Hb : bol (Some c) = false)
        by (cbn; unfold cls_dot in Hc; now apply negb_true_iff in Hc).
      rewrite (regex_exec_skip l _ _ Hb Hl). apply Heol.
      now apply bol_after.
Qed.

Lemma regex_exec_from_eol prev e r :
  lines_ok r = true -> regular_lines (map fst r) = true ->
  eol_ok e r = true -> bol prev = false ->
  regex_exec prev (e ++ render_lines r) = hit_match (first_hit r).
Proof.
  intros Hok Hreg He Hp. destruct e as [|t [|u e]]; [| |discriminate He].
  - destruct r; [apply regex_exec_nil|discriminate He].
  - cbn [app]. rewrite regex_exec_step, (regex_here_not_bol _ _ Hp).
    now apply regex_exec_listing.
Qed.

Lemma exec_loop_listing ls : forall fuel fonts prev text,
  lines_ok ls = true -> regular_lines (map fst ls) = true ->
  (length (List.filter matched (map fst ls)) < fuel)%nat ->
  regex_exec prev text = hit_match (first_hit ls) ->
  exec_loop fuel prev text fonts
  = Some (fold_left add_name
            (map word1 (List.filter matched (map fst ls))) fonts).
Proof.
  induction ls as [|[l e] r IH]; intros fuel fonts prev text Hok Hreg Hf Hx.
  - destruct fuel as [|fuel]; [cbn in Hf; lia|].
    rewrite exec_loop_step, Hx. reflexivity.
  - cbn in Hok, Hreg, Hf.
    apply andb_true_iff in Hok as [[Hl He]%andb_true_iff Hok].
    apply andb_true_iff in Hreg as [_ Hreg].
    cbn [first_hit] in Hx. cbn [map fst List.filter] in Hf |- *.
    destruct (matched l) eqn:Hm.
    + destruct fuel as [|fuel]; [lia|].
      rewrite exec_loop_step, Hx. cbn [hit_match map fold_left].
      cbn [length] in Hf.
      apply IH; [assumption|assumption|lia|].
      now apply regex_exec_from_eol.
    + apply IH; [assumption|assumption|exact Hf|exact Hx].
Qed.

(** ** A text and its lines *)

Lemma text_lines_render t : render_lines (text_lines t) = t.
Proof.
  induction t as [|c t IH]; [reflexivity|]. cbn [text_lines].
  destruct (is_line_terminator c); [cbn; now rewrite IH|].
  destruct (text_lines t) as [|[l e] ls]; cbn in *; now rewrite <- IH.
Qed.

Lemma text_lines_ok t : lines_ok (text_lines t) = true.
Proof.
  induction t as [|c t IH]; [reflexivity|]. cbn [text_lines].
  destruct (is_line_terminator c) eqn:Hc.
  - cbn. now rewrite Hc, IH.
  - destruct (text_lines t) as [|[l e] ls]; cbn in *; unfold cls_dot;
      rewrite Hc; [reflexivity|exact IH].
Qed.

Lemma text_lines_length t : (length (text_lines t) <= S (length t))%nat.
Proof.
  induction t as [|c t IH]; [cbn; lia|]. cbn [text_lines].
  destruct (is_line_terminator c); [cbn; lia|].
  destruct (text_lines t) as [|[l e] ls]; cbn in *; lia.
Qed.

Lemma matched_count ls :
  (length (List.filter matched (map fst ls)) <= length (render_lines ls))%nat.
Proof.
  induction ls as [|[l e] r IH]; [reflexivity|].
  cbn [map fst List.filter render_lines]. rewrite !length_app.
  destruct (matched l) eqn:Hm; [|lia].
  apply matched_nonempty in Hm.
  destruct l as [|c l]; [discriminate Hm|]. cbn [length]. lia.
Qed.

Lemma fold_add_name gs : forall fonts,
  fold_left add_name gs fonts
  = fold_left set_add (map str (List.filter mono_anycase gs)) fonts.
Proof.
  induction gs as [|g gs IH]; intros fonts; [reflexivity|].
  cbn [fold_left List.filter]. unfold add_name at 2.
  rewrite includes_mono_anycase, IH.
  now destruct (mono_anycase g).
Qed.

Lemma extracted_names ls :
  map str (List.filter mono_anycase (map word1 (List.filter matched ls)))
  = map (fun l => str (word1 l)) (List.filter extracted ls).
Proof.
  induction ls as [|l ls IH]; [reflexivity|]. cbn [List.filter].
  unfold extracted at 1. destruct (matched l); cbn [andb map List.filter];
    [|exact IH].
  destruct (mono_anycase (word1 l)); cbn [map]; now rewrite IH.
Qed.

(** C6, amended. On every listing in which no value line is broken across
    lines, that is, blank lines apart, a line of one word does not stand
    before a line that begins with the word [REG_SZ], and a name with
    [REG_SZ] but without data does not stand before a line that ends with
    [.ttf], the parser extracts the names of the value lines
    [<name> REG_SZ <data>] whose name is one word that contains [mono] in
    any letter case and whose data end the line with [.ttf]: one entry
    per name, at the place where the name is first seen.  Key headers,
    blank lines, values of other types, values without data and names of
    several words may stand in the listing; they give no entry. *)
Theorem registry_output_parsed (output : string) :
  regular_listing output = true ->
  parseMonospacedFonts output "win32" = Some (registry_names output)
  /\ List.NoDup (registry_names output)
  /\ (forall font, In font (registry_names output) <->
        exists l, In l (lines output) /\ is_value_line l = true
                  /\ ends_with (chars ".ttf") (value_of l) = true
                  /\ mono_anycase (word1 l) = true
                  /\ font = str (word1 l)).
Proof.
  intros Hreg. split; [|split].
  - unfold parseMonospacedFonts. cbn [String.eqb Ascii.eqb Bool.eqb].
    unfold regular_listing, lines in Hreg.
    pose proof (text_lines_ok (chars output)) as Hok.
    pose proof (matched_count (text_lines (chars output))) as Hc.
    rewrite text_lines_render in Hc.
    rewrite (exec_loop_listing (text_lines (chars output))
               (S (String.length output)) [] None (chars output) Hok Hreg).
    + cbn [option_map]. unfold Array_from, registry_names, lines.
      now rewrite fold_add_name, fold_set_add_nil, extracted_names.
    + rewrite <- (string_length_str (chars output)),
        string_of_list_ascii_of_string in Hc.
      lia.
    + rewrite <- (text_lines_render (chars output)) at 1.
      now apply regex_exec_listing.
  - apply dedup_first_NoDup.
  - intros font. unfold registry_names. rewrite dedup_first_In, in_map_iff.
    split.
    + intros (l & <- & Hl). apply filter_In in Hl as [Hin Hx].
      unfold extracted, matched in Hx.
      apply andb_true_iff in Hx as [[Hv Ht]%andb_true_iff Hm].
      exists l. auto.
    + intros (l & Hin & Hv & Ht & Hm & ->). exists l.
      split; [reflexivity|]. apply filter_In. split; [exact Hin|].
      unfold extracted, matched. now rewrite Hv, Ht, Hm.
Qed.

Lemma registry_output_witness :
  parseMonospacedFonts reg_query_listing "win32"
  = Some ["JetBrainsMono-Regular"; "monofur"].
Proof.
  destruct (registry_output_parsed reg_query_listing) as [H _].
  - vm_compute. reflexivity.
  - rewrite H. vm_compute. reflexivity.
Defined.

(** C6 as stated fails on a name of several words: the value line of
    Cascadia Mono has a name that contains [mono] and data that end with
    [.ttf], and nothing is extracted from it.  It also fails where a value
    line is broken across lines: a value without data takes the next line
    for its data, and a key of one word is taken for the name of the
    value on the next line. *)
Lemma registry_claim_counterexamples :
  wanted cascadia = true
  /\ parseMonospacedFonts (str (render [cascadia])) "win32" = Some []
  /\ registry_fonts [cascadia] = ["Cascadia Mono (TrueType)"]
  /\ parseMonospacedFonts (str (render [cascadia])) "win32"
     <> Some (registry_fonts [cascadia])
  /\ regular_listing (str (render [cascadia])) = true
  /\ parseMonospacedFonts value_without_data "win32" = Some ["FooMono"]
  /\ regular_listing value_without_data = false
  /\ parseMonospacedFonts word_before_REG_SZ "win32" = Some ["HKLM\Mono"]
  /\ regular_listing word_before_REG_SZ = false.
Proof.
  split; [vm_compute; reflexivity|]. split; [vm_compute; reflexivity|].
  split; [vm_compute; reflexivity|].
  split; [intros H; vm_compute in H; discriminate H|].
  split; [vm_compute; reflexivity|]. split; [vm_compute; reflexivity|].
  split; [vm_compute; reflexivity|]. split; vm_compute; reflexivity.
Qed.

(** ** The loop ends on every output *)

Lemma shrinks_end g : shrinks (k_end g) 0.
Proof. intros prev rest g' p r H. injection H as _ _ <-. lia. Qed.

Lemma shrinks_eol k n : shrinks k n -> shrinks (m_eol k) n.
Proof.
  intros Hk prev rest g p r. unfold m_eol.
  destruct rest as [|c rest]; [apply Hk|].
  destruct (is_line_terminator c); [apply Hk|discriminate].
Qed.

Lemma shrinks_char q k n : shrinks k n -> shrinks (m_char q k) (S n).
Proof.
  intros Hk prev rest g p r. unfold m_char.
  destruct rest as [|c rest]; [discriminate|].
  destruct (q c); [|discriminate]. intros H%Hk. cbn. lia.
Qed.

Lemma shrinks_star q k n : shrinks k n -> shrinks (m_star q k) n.
Proof.
  intros Hk prev rest. revert prev.
  induction rest as [|c rest IH]; intros prev g p r; cbn [m_star].
  - apply Hk.
  - destruct (q c); [|apply Hk].
    destruct (m_star q k (Some c) rest) as [[[g' p'] r']|] eqn:Hs.
    + intros H. injection H as -> -> ->. apply IH in Hs. cbn. lia.
    + apply Hk.
Qed.

Lemma shrinks_lit s k n : shrinks k n -> shrinks (m_lit s k) n.
Proof.
  revert k. induction s as [|c s IH]; intros k Hk; cbn [m_lit]; [exact Hk|].
  intros prev rest g p r H.
  apply (shrinks_char _ _ n (IH k Hk)) in H. lia.
Qed.

Lemma shrinks_gap1 g : shrinks (k_gap1 g) 1.
Proof.
  unfold k_gap1, m_plus. apply shrinks_char, shrinks_star.
  unfold k_type. apply shrinks_lit. unfold k_gap2, m_plus.
  intros prev rest g' p r H.
  apply (shrinks_char _ _ 0) in H; [lia|].
  apply shrinks_star. unfold k_data. apply shrinks_star. unfold k_ttf.
  apply shrinks_lit, shrinks_eol, shrinks_end.
Qed.

Lemma regex_here_shrinks : shrinks regex_here 1.
Proof.
  intros prev rest g p r. rewrite regex_here_unfold. unfold m_bol.
  assert (Hs : shrinks (m_star cls_space (fun p1 r1 =>
                 m_plus cls_not_space (fun p2 r2 =>
                   k_gap1 (firstn (length r1 - length r2) r1) p2 r2) p1 r1)) 1).
  { apply shrinks_star. intros p1 r1 g' p' r' H. unfold m_plus in H.
    apply (shrinks_char _ _ 0) in H; [lia|]. apply shrinks_star.
    intros p2 r2 g2 p3 r3 H2. apply shrinks_gap1 in H2. lia. }
  destruct prev as [c|]; [|apply Hs].
  destruct (is_line_terminator c); [apply Hs|discriminate].
Qed.

Lemma regex_exec_shrinks rest : forall prev g p r,
  regex_exec prev rest = Some (g, p, r) -> (length r < length rest)%nat.
Proof.
  induction rest as [|c rest IH]; intros prev g p r; rewrite regex_exec_step;
    destruct (regex_here prev _) as [[[g' p'] r']|] eqn:Hh.
  - intros H. injection H as -> -> ->. apply regex_here_shrinks in Hh. lia.
  - discriminate.
  - intros H. injection H as -> -> ->. apply regex_here_shrinks in Hh. lia.
  - intros H%IH. cbn. lia.
Qed.

Lemma exec_loop_ends fuel : forall prev rest fonts,
  (length rest < fuel)%nat ->
  exists fonts', exec_loop fuel prev rest fonts = Some fonts'.
Proof.
  induction fuel as [|fuel IH]; intros prev rest fonts Hfuel; [lia|].
  rewrite exec_loop_step.
  destruct (regex_exec prev rest) as [[[g p] r]|] eqn:Hx; [|eauto].
  apply regex_exec_shrinks in Hx. apply IH. lia.
Qed.

(** The parser returns a list on every output and platform: the loop
    over the matches ends. *)
Lemma parseMonospacedFonts_total output platform :
  exists fonts, parseMonospacedFonts output platform = Some fonts.
Proof.
  unfold parseMonospacedFonts.
  destruct (String.eqb platform "win32"); [|destruct (_ || _); eauto].
  destruct (exec_loop_ends (S (String.length output)) None (chars output) [])
    as [fonts ->]; [|cbn; eauto].
  rewrite <- (string_of_list_ascii_of_string output) at 2.
  rewrite string_length_str. lia.
Qed.

(** * Further properties *)

(** ** Strings *)

Lemma chars_append a b : chars (a +:+ b) = chars a ++ chars b.
Proof.
  induction a as [|c a IH]; [reflexivity|].
  change (chars (String c (a +:+ b)) = c :: (chars a ++ chars b)).
  cbn [list_ascii_of_string]. f_equal. exact IH.
Qed.

Lemma chars_str l : chars (str l) = l.
Proof. apply list_ascii_of_string_of_list_ascii. Qed.

Lemma str_chars s : str (chars s) = s.
Proof. apply string_of_list_ascii_of_string. Qed.

Lemma drop_white_stops l : stops is_white_space (drop_white l) = true.
Proof.
  induction l as [|c l IH]; cbn; [reflexivity|].
  destruct (is_white_space c) eqn:Hc; [exact IH|]. cbn. now rewrite Hc.
Qed.

Lemma drop_white_id l : stops is_white_space l = true -> drop_white l = l.
Proof.
  destruct l as [|c l]; cbn; [reflexivity|].
  intros H. apply negb_true_iff in H. now rewrite H.
Qed.

Lemma drop_white_suffix l : exists w, l = w ++ drop_white l.
Proof.
  induction l as [|c l [w IH]]; cbn; [now exists []|].
  destruct (is_white_space c); [|now exists []].
  exists (c :: w). cbn. now rewrite <- IH.
Qed.

Lemma stops_app_l p (x y : list ascii) :
  stops p (x ++ y) = true -> stops p x = true.
Proof. destruct x; [reflexivity|exact id]. Qed.

Lemma trim_chars_fixed l :
  let t := rev (drop_white (rev (drop_white l))) in
  rev (drop_white (rev (drop_white t))) = t.
Proof.
  cbv zeta. set (a := drop_white l). set (b := drop_white (rev a)).
  assert (Hb : drop_white (rev b) = rev b).
  { apply drop_white_id. destruct (drop_white_suffix (rev a)) as [w Hw].
    fold b in Hw. apply (stops_app_l _ _ (rev w)).
    rewrite <- rev_app_distr, <- Hw, rev_involutive. apply drop_white_stops. }
  rewrite Hb, rev_involutive. unfold b at 1. 
  now rewrite (drop_white_id _ (drop_white_stops (rev a))).
Qed.

(** [trim] is idempotent. *)
Lemma trim_idempotent s : trim (trim s) = trim s.
Proof.
  unfold trim. rewrite chars_str. f_equal. apply trim_chars_fixed.
Qed.

Lemma drop_white_In c l : In c (drop_white l) -> In c l.
Proof.
  destruct (drop_white_suffix l) as [w Hw]. intros H. rewrite Hw.
  apply in_or_app. now right.
Qed.

Lemma trim_In c s : In c (chars (trim s)) -> In c (chars s).
Proof.
  unfold trim. rewrite chars_str. intros H.
  apply in_rev, drop_white_In, in_rev in H. now apply drop_white_In.
Qed.

Lemma split_chars_nonempty sep l : split_chars sep l <> [].
Proof.
  induction l as [|c l IH]; cbn; [discriminate|].
  destruct (Ascii.eqb c sep); [discriminate|].
  destruct (split_chars sep l); [contradiction|discriminate].
Qed.

Lemma split_chars_free sep x :
  existsb (Ascii.eqb sep) x = false -> split_chars sep x = [x].
Proof.
  induction x as [|c x IH]; cbn; [reflexivity|].
  rewrite Ascii.eqb_sym. intros [Hc Hx]%orb_false_iff.
  now rewrite Hc, (IH Hx).
Qed.

Lemma split_chars_app sep x rest :
  existsb (Ascii.eqb sep) x = false ->
  split_chars sep (x ++ sep :: rest) = x :: split_chars sep rest.
Proof.
  induction x as [|c x IH]; cbn.
  - now rewrite Ascii.eqb_refl.
  - rewrite Ascii.eqb_sym. intros [Hc Hx]%orb_false_iff.
    now rewrite Hc, (IH Hx).
Qed.

(** A piece of [split] holds no separator. *)
Lemma split_chars_pieces sep l piece :
  In piece (split_chars sep l) -> existsb (Ascii.eqb sep) piece = false.
Proof.
  revert piece. induction l as [|c l IH]; cbn; intros piece.
  - intros [<-|[]]. reflexivity.
  - destruct (Ascii.eqb c sep) eqn:Hc.
    + intros [<-|H]; [reflexivity|now apply IH].
    + destruct (split_chars sep l) as [|h t] eqn:Hs.
      * intros [<-|[]]. cbn. now rewrite Ascii.eqb_sym, Hc.
      * intros [<-|H].
        -- cbn. rewrite Ascii.eqb_sym, Hc. apply IH. now left.
        -- apply IH. now right.
Qed.

Lemma trim_space_left s : trim (" " +:+ s) = trim s.
Proof. reflexivity. Qed.

(** Splitting a joined list at the commas and trimming the pieces gives
    the trimmed entries back, when no entry holds a comma. *)
Lemma split_join_trim l :
  l <> [] -> forallb comma_free l = true ->
  map trim (split comma (join ", " l)) = map trim l.
Proof.
  unfold split. induction l as [|x l IH]; [congruence|]. intros _.
  cbn [forallb]. intros [Hx Hl]%andb_true_iff.
  unfold comma_free in Hx. apply negb_true_iff in Hx.
  destruct l as [|y l].
  - cbn [join]. rewrite (split_chars_free _ _ Hx). cbn. now rewrite str_chars.
  - change (join ", " (x :: y :: l)) with (x +:+ ", " +:+ join ", " (y :: l)).
    rewrite chars_append.
    change (chars (", " +:+ join ", " (y :: l)))
      with (comma :: chars (" " +:+ join ", " (y :: l))).
    rewrite (split_chars_app _ _ _ Hx). cbn [map]. rewrite str_chars. f_equal.
    specialize (IH ltac:(discriminate) Hl).
    change (chars (" " +:+ join ", " (y :: l)))
      with (" "%char :: chars (join ", " (y :: l))).
    cbn [split_chars]. change (Ascii.eqb " " comma) with false. cbv iota.
    destruct (split_chars comma (chars (join ", " (y :: l)))) as [|h t] eqn:Hs;
      [now apply split_chars_nonempty in Hs|].
    cbn [map] in IH |- *. rewrite <- IH. f_equal.
Qed.

Lemma truthy_append_r a b : truthy b = true -> truthy (a +:+ b) = true.
Proof. destruct a; [exact id|reflexivity]. Qed.

Lemma dedup_first_fixed l : List.NoDup l -> dedup_first l = l.
Proof.
  induction 1 as [|x l Hx Hl IH]; cbn; [reflexivity|].
  rewrite IH. f_equal. apply filter_all. intros y Hy.
  destruct (String.eqb_spec y x) as [->|]; [contradiction|reflexivity].
Qed.

Lemma without_absent c l : ~ In c l -> without c l = l.
Proof.
  intros Hc. apply filter_all. intros y Hy.
  destruct (String.eqb_spec y c) as [->|]; [contradiction|reflexivity].
Qed.

Lemma without_not_In c l : ~ In c (without c l).
Proof.
  unfold without. rewrite filter_In, String.eqb_refl. now intros [_ H].
Qed.

(** The entries of a fallback chain are trimmed and hold no comma. *)
Lemma fallback_chain_entries o x :
  In x (fallback_chain o) -> trim x = x /\ comma_free x = true.
Proof.
  unfold fallback_chain. destruct o as [s|]; [|intros []].
  destruct (truthy s); [|intros []].
  unfold split. rewrite map_map, in_map_iff. intros (piece & <- & Hp).
  split; [apply trim_idempotent|].
  apply split_chars_pieces in Hp. unfold comma_free, comma.
  apply negb_true_iff.
  destruct (existsb (Ascii.eqb ",") (chars (trim (str piece)))) eqn:He;
    [|reflexivity].
  apply existsb_exists in He as (c & Hin & Hc).
  apply trim_In in Hin. rewrite chars_str in Hin.
  assert (existsb (Ascii.eqb ",") piece = true)
    by (apply existsb_exists; eauto).
  congruence.
Qed.

(** ** The previewed value *)

Lemma preview_entries_shape c o :
  preview_entries c o = c :: dedup_first (without c (fallback_chain o)).
Proof.
  unfold preview_entries.
  now rewrite js_filter_first_occurrence, dedup_first_head.
Qed.

(** X1. The preview loses no font: the array it joins begins with the
    candidate, holds the candidate and every entry of the original chain,
    nothing else, and nothing twice. *)
Theorem preview_keeps_every_font (c : string) (o : option string) :
  updatedFontFamily c o = join ", " (preview_entries c o)
  /\ hd_error (preview_entries c o) = Some c
  /\ List.NoDup (preview_entries c o)
  /\ (forall x,
        In x (preview_entries c o) <-> x = c \/ In x (fallback_chain o)).
Proof.
  split; [reflexivity|]. rewrite preview_entries_shape.
  split; [reflexivity|]. split.
  - constructor; [|apply dedup_first_NoDup].
    rewrite dedup_first_In. apply without_not_In.
  - intros x. cbn [In]. rewrite dedup_first_In. unfold without.
    rewrite filter_In. destruct (String.eqb_spec x c) as [->|Hne]; cbn.
    + intuition.
    + intuition congruence.
Qed.

Lemma preview_entries_clean c o :
  trim c = c -> comma_free c = true ->
  forallb comma_free (preview_entries c o) = true
  /\ map trim (preview_entries c o) = preview_entries c o.
Proof.
  intros Ht Hc. rewrite preview_entries_shape.
  assert (H : forall x, In x (dedup_first (without c (fallback_chain o))) ->
                        trim x = x /\ comma_free x = true).
  { intros x Hx. apply dedup_first_In, filter_In in Hx as [Hx _].
    now apply fallback_chain_entries in Hx. }
  cbn [forallb map]. rewrite Hc, Ht.
  induction (dedup_first (without c (fallback_chain o))) as [|d D IH];
    [now split|].
  destruct (H d ltac:(now left)) as [Hd1 Hd2].
  destruct IH as [IH1 IH2]; [intros x Hx; apply H; now right|].
  cbn [forallb map] in *. rewrite Hd1, Hd2. split; [exact IH1|].
  injection IH2 as IH2. now rewrite IH2.
Qed.

Lemma join_truthy c l : truthy c = true -> truthy (join ", " (c :: l)) = true.
Proof.
  intros Hc. destruct l as [|d l]; [exact Hc|].
  change (join ", " (c :: d :: l)) with (c +:+ ", " +:+ join ", " (d :: l)).
  now apply truthy_append_r.
Qed.

(** X2. What a preview writes reads back as the list it was made of: for a
    candidate that is not empty, is trimmed and holds no comma, the
    fallback chain of the written value is the array that was joined; and
    a preview of the same candidate on top of the written value writes the
    same value again. *)
Theorem preview_round_trip (c : string) (o : option string) :
  truthy c = true -> trim c = c -> comma_free c = true ->
  fallback_chain (Some (updatedFontFamily c o)) = preview_entries c o
  /\ updatedFontFamily c (Some (updatedFontFamily c o)) = updatedFontFamily c o.
Proof.
  intros Hne Ht Hc.
  destruct (preview_entries_clean c o Ht Hc) as [Hfree Htrim].
  assert (Hchain : fallback_chain (Some (updatedFontFamily c o))
                   = preview_entries c o).
  { change (updatedFontFamily c o) with (join ", " (preview_entries c o)).
    assert (Htr : truthy (join ", " (preview_entries c o)) = true)
      by (rewrite preview_entries_shape; now apply join_truthy).
    unfold fallback_chain. rewrite Htr. change ","%char with comma.
    rewrite split_join_trim; [exact Htrim| |exact Hfree].
    rewrite preview_entries_shape. discriminate. }
  split; [exact Hchain|].
  change (updatedFontFamily c (Some (updatedFontFamily c o)))
    with (join ", " (preview_entries c (Some (updatedFontFamily c o)))).
  change (updatedFontFamily c o) with (join ", " (preview_entries c o)) at 2.
  f_equal. rewrite (preview_entries_shape c (Some _)), Hchain.
  rewrite preview_entries_shape. f_equal.
  unfold without at 1. cbn [List.filter]. rewrite String.eqb_refl. cbn [negb].
  fold (without c (dedup_first (without c (fallback_chain o)))).
  rewrite without_absent.
  - apply dedup_first_fixed, dedup_first_NoDup.
  - rewrite dedup_first_In. apply without_not_In.
Qed.

Lemma preview_round_trip_witness :
  fallback_chain
    (Some (updatedFontFamily "Consolas" (Some "Fira Code,Consolas , Menlo")))
  = ["Consolas"; "Fira Code"; "Menlo"].
Proof.
  rewrite (proj1 (preview_round_trip "Consolas"
                    (Some "Fira Code,Consolas , Menlo")
                    eq_refl eq_refl eq_refl)).
  vm_compute. reflexivity.
Defined.

(** ** The current-font marker *)

Lemma starts_with_chars_app p l : starts_with_chars p (p ++ l) = true.
Proof.
  induction p as [|c p IH]; [reflexivity|]. cbn.
  now rewrite Ascii.eqb_refl, IH.
Qed.

Lemma replace_chars_prefix p r l : replace_chars p r (p ++ l) = r ++ l.
Proof.
  destruct (p ++ l) as [|c t] eqn:Hpl.
  - destruct p; [|discriminate Hpl]. cbn in Hpl. subst l. cbn.
    now rewrite app_nil_r.
  - rewrite <- Hpl. 
    assert (H : starts_with_chars p (p ++ l) = true)
      by apply starts_with_chars_app.
    rewrite Hpl in *. cbn [replace_chars]. rewrite H. rewrite <- Hpl.
    now rewrite skipn_app, skipn_all, Nat.sub_diag.
Qed.

Lemma replace_chars_absent p r l :
  includes_chars p l = false -> replace_chars p r l = l.
Proof.
  induction l as [|c l IH]; cbn.
  - intros H. apply orb_false_iff in H as [H _]. now rewrite H.
  - intros [H1 H2]%orb_false_iff. rewrite H1. f_equal. now apply IH.
Qed.

Lemma font_of_marked f : Part000.font_of_label (Part000.marker +:+ f) = trim f.
Proof.
  unfold Part000.font_of_label, replace. rewrite chars_append.
  rewrite replace_chars_prefix. cbn [chars list_ascii_of_string app].
  now rewrite str_chars.
Qed.

(** X3. Stripping the marker leaves an ordinary label alone: a label that
    is trimmed and does not contain the marker text stands for itself, so
    both variants preview the same value for it. *)
Theorem plain_label_is_its_font (label : string) (o : option string) :
  trim label = label -> includes Part000.marker label = false ->
  Part000.font_of_label label = label
  /\ (forall v, updatedFontFamily (candidate v label) o
                = updatedFontFamily label o).
Proof.
  intros Ht Hi.
  assert (H : Part000.font_of_label label = label).
  { unfold Part000.font_of_label, replace.
    rewrite (replace_chars_absent _ _ _ Hi), str_chars. exact Ht. }
  split; [exact H|]. intros [|]; cbn [candidate]; now rewrite ?H.
Qed.

Lemma plain_label_witness : Part000.font_of_label "Fira Code" = "Fira Code".
Proof.
  apply (plain_label_is_its_font "Fira Code" None); reflexivity.
Defined.

Lemma first_font_head o :
  truthy o = true ->
  exists rest, fallback_chain (Some o) = first_font o :: rest.
Proof.
  intros Ho. unfold fallback_chain, first_font, split. rewrite Ho.
  change ","%char with comma.
  destruct (split_chars comma (chars o)) as [|h t] eqn:Hs;
    [now apply split_chars_nonempty in Hs|].
  cbn [map hd]. eauto.
Qed.

Lemma truthy_first_font o : truthy (first_font o) = true -> truthy o = true.
Proof. destruct o; [vm_compute; discriminate|reflexivity]. Qed.

Lemma command_part_entry env cfg0 fonts o :
  getMonospacedFonts env = Resolved fonts -> fonts <> [] ->
  cfg0 !! "fontFamily" = Some o -> truthy (first_font o) = true ->
  Part000.command env (initial cfg0)
  = show FontPicker
      (assign_placeholder FontPicker "Select a monospaced font"
         (assign_items FontPicker ((Part000.marker +:+ first_font o) :: fonts)
            (create FontPicker
               (with_originalFont (Some o)
                  (emit (ConfigGet "fontFamily")
                     (emit (GetConfiguration "editor") (initial cfg0))))))).
Proof.
  intros Hf Hne Ho Ht. unfold Part000.command. rewrite Hf.
  destruct fonts as [|f fonts]; [congruence|]. cbn [length Nat.eqb].
  unfold config_get. cbn [config emit initial]. rewrite Ho.
  unfold Part000.handleFontSelection. cbn [option_map].
  fold (first_font o). change ","%char with comma. fold (first_font o).
  rewrite Ht. reflexivity.
Qed.

Section Marker.

Local Arguments Part000.font_of_label : simpl never.
Local Arguments updatedFontFamily : simpl never.
Local Arguments truthy : simpl never.
Local Arguments fallback_chain : simpl never.
Local Arguments String.append : simpl never.

(** X4. With a font family set whose first entry is not empty, the second
    variant lists the item Current Font: <first entry> before the
    enumerated fonts and writes nothing by itself; accepting that item
    opens the weight picker for the first entry, and highlighting it
    writes the original chain without its duplicates, so the active font
    stays the same. *)
Theorem current_font_item (env : Env) (cfg0 : gmap string string)
    (fonts : list string) (o : string) :
  getMonospacedFonts env = Resolved fonts -> fonts <> [] ->
  cfg0 !! "fontFamily" = Some o -> truthy (first_font o) = true ->
  let s0 := Part000.command env (initial cfg0) in
  let item := Part000.marker +:+ first_font o in
  let s1 := deliver Part000.handlers (DidAccept FontPicker [item]) s0 in
  let s2 := deliver Part000.handlers (DidChangeActive FontPicker [item]) s0 in
  (items_of FontPicker s0 = item :: fonts
   /\ on_screen FontPicker s0 = true /\ config s0 = cfg0)
  /\ (on_screen WeightPicker s1 = true /\ on_screen FontPicker s1 = false
      /\ placeholder_of WeightPicker s1
         = "Select a font weight for " +:+ first_font o
      /\ config s1 = cfg0)
  /\ (config s2
      = <["fontFamily" := join ", " (dedup_first (fallback_chain (Some o)))]>
          cfg0
      /\ hd_error (fallback_chain (Some o)) = Some (first_font o)).
Proof.
  intros Hf Hne Ho Ht s0 item s1 s2.
  assert (Hs0 : s0 = _)
    by exact (command_part_entry env cfg0 fonts o Hf Hne Ho Ht).
  fold item in Hs0.
  assert (Hlabel : Part000.font_of_label item = first_font o).
  { unfold item. rewrite font_of_marked. apply trim_idempotent. }
  destruct (first_font_head o (truthy_first_font o Ht)) as [rest Hrest].
  assert (Hprev : updatedFontFamily (first_font o) (Some o)
                  = join ", " (dedup_first (fallback_chain (Some o)))).
  { rewrite updatedFontFamily_preview. unfold preview. rewrite Hrest.
    f_equal. cbn [dedup_first]. f_equal. unfold without. cbn [List.filter].
    rewrite String.eqb_refl. cbn [negb]. now rewrite dedup_first_filter. }
  clearbody item. revert Hlabel Hprev Ht Hrest.
  generalize (first_font o). intros f Hlabel Hprev Ht Hrest.
  assert (Hrec : s0 =
    {| config := cfg0; originalFont := Some o; lastActiveFontIndex := None;
       fontQuickPick :=
         Some {| items := item :: fonts;
                 placeholder := "Select a monospaced font";
                 activeItems := []; selectedItems := []; visible := true;
                 disposed := false |};
       weightQuickPick := None;
       log := [GetConfiguration "editor"; ConfigGet "fontFamily";
               CreateQuickPick FontPicker; SetItems FontPicker (item :: fonts);
               SetPlaceholder FontPicker "Select a monospaced font";
               Show FontPicker] |}) by (rewrite Hs0; reflexivity).
  unfold s1, s2. rewrite Hrec. clear Hrec Hs0 s0 s1 s2.
  split; [|split].
  - cbn. auto.
  - unfold deliver. cbn. rewrite String.eqb_refl. cbn.
    unfold Part000.font_onDidAccept. cbn. rewrite Hlabel, Ht.
    cbn. auto.
  - unfold deliver. cbn. rewrite String.eqb_refl. cbn.
    rewrite Hlabel, Hprev. split; [reflexivity|now rewrite Hrest].
Qed.

End Marker.

Lemma current_font_item_witness :
  config (deliver Part000.handlers
            (DidChangeActive FontPicker
               [Part000.marker +:+ first_font "Fira Code, Consolas"])
            (Part000.command two_fonts (initial fira_consolas)))
  = <["fontFamily" :=
        join ", " (dedup_first (fallback_chain (Some "Fira Code, Consolas")))]>
      fira_consolas.
Proof.
  apply (current_font_item two_fonts fira_consolas ["A"; "B"]
           "Fira Code, Consolas").
  - vm_compute. reflexivity.
  - discriminate.
  - vm_compute. reflexivity.
  - vm_compute. reflexivity.
Defined.

(** ** The parser on any output *)

Lemma yields_end g : yields g (k_end g).
Proof. intros prev rest g' p r H. now injection H as <- _ _. Qed.

Lemma yields_eol g k : yields g k -> yields g (m_eol k).
Proof.
  intros Hk prev rest g' p r. unfold m_eol.
  destruct rest as [|c rest]; [apply Hk|].
  destruct (is_line_terminator c); [apply Hk|discriminate].
Qed.

Lemma yields_char g q k : yields g k -> yields g (m_char q k).
Proof.
  intros Hk prev rest g' p r. unfold m_char.
  destruct rest as [|c rest]; [discriminate|].
  destruct (q c); [apply Hk|discriminate].
Qed.

Lemma yields_star g q k : yields g k -> yields g (m_star q k).
Proof.
  intros Hk prev rest. revert prev.
  induction rest as [|c rest IH]; intros prev g' p r; cbn [m_star].
  - apply Hk.
  - destruct (q c); [|apply Hk].
    destruct (m_star q k (Some c) rest) as [[[g2 p2] r2]|] eqn:Hs.
    + intros H. injection H as -> -> ->. now apply IH in Hs.
    + apply Hk.
Qed.

Lemma yields_lit g s k : yields g k -> yields g (m_lit s k).
Proof.
  revert k. induction s as [|c s IH]; intros k Hk; cbn [m_lit]; [exact Hk|].
  now apply yields_char, IH.
Qed.

Lemma yields_gap1 g : yields g (k_gap1 g).
Proof.
  unfold k_gap1, m_plus. apply yields_char, yields_star.
  unfold k_type. apply yields_lit. unfold k_gap2, m_plus.
  apply yields_char, yields_star. unfold k_data. apply yields_star.
  unfold k_ttf. apply yields_lit, yields_eol, yields_end.
Qed.

(** A successful star has read a run of the class and handed the rest to
    its continuation. *)
Lemma m_star_run {R} (q : ascii -> bool) (k : Cont R) rest : forall prev x,
  m_star q k prev rest = Some x ->
  exists run tail,
    rest = run ++ tail /\ forallb q run = true
    /\ k (after prev run) tail = Some x.
Proof.
  induction rest as [|c rest IH]; intros prev x; cbn [m_star].
  - intros H. now exists [], [].
  - destruct (q c) eqn:Hc; [|intros H; now exists [], (c :: rest)].
    destruct (m_star q k (Some c) rest) as [y|] eqn:Hs.
    + intros H. injection H as ->.
      destruct (IH _ _ Hs) as (run & tail & -> & Hrun & Hk).
      exists (c :: run), tail. cbn. now rewrite Hc, Hrun.
    + intros H. now exists [], (c :: rest).
Qed.

Lemma regex_here_group prev rest g p r :
  regex_here prev rest = Some (g, p, r) ->
  nonempty g = true /\ forallb cls_not_space g = true.
Proof.
  rewrite regex_here_unfold. unfold m_bol. intros H.
  assert (Hs : m_star cls_space (fun p1 r1 =>
                 m_plus cls_not_space (fun p2 r2 =>
                   k_gap1 (firstn (length r1 - length r2) r1) p2 r2) p1 r1)
                 prev rest = Some (g, p, r)).
  { destruct prev as [c|]; [|exact H].
    destruct (is_line_terminator c); [exact H|discriminate H]. }
  clear H. apply m_star_run in Hs as (run1 & r1 & _ & _ & Hk).
  unfold m_plus, m_char in Hk.
  destruct r1 as [|c r1]; [discriminate Hk|].
  destruct (cls_not_space c) eqn:Hc; [|discriminate Hk].
  apply m_star_run in Hk as (run & tail & -> & Hrun & Hk).
  apply yields_gap1 in Hk. subst g.
  replace (length (c :: run ++ tail) - length tail)%nat
    with (length (c :: run)) by (cbn; rewrite length_app; lia).
  change (c :: run ++ tail) with ((c :: run) ++ tail).
  rewrite take_app_length. cbn. now rewrite Hc, Hrun.
Qed.

Lemma regex_exec_group rest : forall prev g p r,
  regex_exec prev rest = Some (g, p, r) ->
  nonempty g = true /\ forallb cls_not_space g = true.
Proof.
  induction rest as [|c rest IH]; intros prev g p r; rewrite regex_exec_step;
    destruct (regex_here prev _) as [[[g' p'] r']|] eqn:Hh.
  - intros H. injection H as -> -> ->. now apply regex_here_group in Hh.
  - discriminate.
  - intros H. injection H as -> -> ->. now apply regex_here_group in Hh.
  - apply IH.
Qed.

Lemma NoDup_snoc (l : list string) x :
  List.NoDup l -> ~ In x l -> List.NoDup (l ++ [x]).
Proof.
  induction 1 as [|y l Hy Hl IH]; intros Hx; cbn.
  - constructor; [intros []|constructor].
  - constructor.
    + rewrite in_app_iff. intros [H|[<-|[]]]; [contradiction|].
      apply Hx. now left.
    + apply IH. intros H. apply Hx. now right.
Qed.

Lemma set_add_NoDup fonts x : List.NoDup fonts -> List.NoDup (set_add fonts x).
Proof.
  intros Hn. unfold set_add. destruct (set_has fonts x) eqn:Hx; [exact Hn|].
  apply NoDup_snoc; [exact Hn|]. intros H. apply set_has_In in H. congruence.
Qed.

Lemma exec_loop_names fuel : forall prev rest fonts fonts',
  exec_loop fuel prev rest fonts = Some fonts' ->
  List.NoDup fonts -> forallb mono_token fonts = true ->
  List.NoDup fonts' /\ forallb mono_token fonts' = true.
Proof.
  induction fuel as [|fuel IH]; intros prev rest fonts fonts'; [discriminate|].
  rewrite exec_loop_step.
  destruct (regex_exec prev rest) as [[[g p] r]|] eqn:Hx.
  - intros H Hn Hm. apply regex_exec_group in Hx as [Hg1 Hg2].
    apply (IH _ _ _ _ H).
    + destruct (includes _ _); [now apply set_add_NoDup|exact Hn].
    + rewrite includes_mono_anycase.
      destruct (mono_anycase g) eqn:Hmono; [|exact Hm].
      unfold set_add. destruct (set_has fonts (str g)); [exact Hm|].
      rewrite forallb_app, Hm. cbn. unfold mono_token.
      rewrite chars_str, Hg2, Hmono.
      destruct g; [discriminate Hg1|reflexivity].
  - intros H. injection H as <-. auto.
Qed.

(** X5. Whatever the output, on win32 the parser returns a list without
    duplicates in which every name is one token: not empty, without white
    space, with [mono] in some letter case. *)
Theorem windows_names_are_mono_tokens (output : string) :
  exists fonts,
    parseMonospacedFonts output "win32" = Some fonts
    /\ List.NoDup fonts
    /\ (forall f, In f fonts ->
          truthy f = true /\ forallb cls_not_space (chars f) = true
          /\ mono_anycase (chars f) = true).
Proof.
  destruct (parseMonospacedFonts_total output "win32") as [fonts H].
  exists fonts. split; [exact H|].
  unfold parseMonospacedFonts in H. cbn [String.eqb Ascii.eqb Bool.eqb] in H.
  destruct (exec_loop _ _ _ _) as [set|] eqn:Hl; [|discriminate H].
  injection H as <-.
  destruct (exec_loop_names _ _ _ _ _ Hl (List.NoDup_nil _) eq_refl) as [Hn Hm].
  split; [exact Hn|]. intros f Hf. unfold Array_from in Hf.
  rewrite forallb_forall in Hm. specialize (Hm f Hf). unfold mono_token in Hm.
  apply andb_true_iff in Hm as [[H1 H2]%andb_true_iff H3]. auto.
Qed.

(** X6. Whatever the output, on darwin and linux every name in the parsed
    list is trimmed and holds no line feed; a line that begins with a full
    stop after leading blanks does pass the filter, since the test is made
    before the trim. *)
Theorem unix_names_are_trimmed (output : string) :
  exists fonts,
    parseMonospacedFonts output "linux" = Some fonts
    /\ parseMonospacedFonts output "darwin" = Some fonts
    /\ (forall f, In f fonts ->
          trim f = f /\ existsb (Ascii.eqb LF) (chars f) = false)
    /\ (forall l, In l (split LF output) -> truthy l = true ->
          startsWith "." l = false -> In (trim l) fonts).
Proof.
  exists (unix_fonts output). unfold parseMonospacedFonts.
  cbn [String.eqb Ascii.eqb Bool.eqb orb]. rewrite parse_unix.
  split; [reflexivity|]. split; [reflexivity|]. split.
  - intros f Hf. unfold unix_fonts in Hf.
    apply dedup_first_In, in_map_iff in Hf as (l & <- & Hl).
    apply filter_In in Hl as [Hl _]. split; [apply trim_idempotent|].
    unfold split in Hl. apply in_map_iff in Hl as (piece & <- & Hp).
    apply split_chars_pieces in Hp.
    destruct (existsb (Ascii.eqb LF) (chars (trim (str piece)))) eqn:He;
      [|reflexivity].
    apply existsb_exists in He as (c & Hin & Hc).
    apply trim_In in Hin. rewrite chars_str in Hin.
    assert (existsb (Ascii.eqb LF) piece = true)
      by (apply existsb_exists; eauto).
    congruence.
  - intros l Hl Ht Hd. unfold unix_fonts.
    apply dedup_first_In, in_map_iff. exists l. split; [reflexivity|].
    apply filter_In. split; [exact Hl|].
    unfold kept_line, empty_line, dot_line. now rewrite Ht, Hd.
Qed.

(** ** The enumeration as a whole *)

Lemma recognized_cases platform :
  recognized platform = true ->
  platform = "win32" \/ platform = "darwin" \/ platform = "linux".
Proof.
  unfold recognized.
  destruct (String.eqb_spec platform "win32"); [auto|].
  destruct (String.eqb_spec platform "darwin"); [auto|].
  destruct (String.eqb_spec platform "linux"); [auto|discriminate].
Qed.

Lemma command_for_recognized platform :
  recognized platform = true -> truthy (command_for platform) = true.
Proof.
  intros H. apply recognized_cases in H.
  destruct H as [H|[H|H]]; subst platform; vm_compute; reflexivity.
Qed.

(** X7. The parser gives the empty list for every output on a platform
    other than win32, darwin and linux, and for the empty output on every
    platform. *)
Theorem parser_empty_results :
  (forall output platform,
     recognized platform = false ->
     parseMonospacedFonts output platform = Some [])
  /\ (forall platform, parseMonospacedFonts EmptyString platform = Some []).
Proof.
  split.
  - intros output platform. unfold recognized, parseMonospacedFonts.
    destruct (String.eqb platform "win32"); [discriminate|].
    destruct (String.eqb platform "darwin"); [discriminate|].
    destruct (String.eqb platform "linux"); [discriminate|reflexivity].
  - intros platform. unfold parseMonospacedFonts.
    destruct (String.eqb platform "win32"); [reflexivity|].
    destruct (_ || _); reflexivity.
Qed.

Lemma parser_empty_results_witness :
  parseMonospacedFonts "Mono REG_SZ a.ttf" "freebsd" = Some [].
Proof. apply (proj1 parser_empty_results). reflexivity. Defined.

Lemma utf8_length_chars l :
  Z.of_nat (length l) <= utf8_length (str l) <= 2 * Z.of_nat (length l).
Proof.
  unfold utf8_length. rewrite chars_str.
  induction l as [|c l IH]; [cbn; lia|].
  cbn [fold_right length]. destruct (Nat.ltb (code c) 128); lia.
Qed.

Lemma length_le_utf8 s : Z.of_nat (String.length s) <= utf8_length s.
Proof.
  rewrite <- (str_chars s) at 2. rewrite <- (str_chars s) at 1.
  rewrite string_length_str. apply utf8_length_chars.
Qed.

Lemma getMonospacedFonts_pending env :
  getMonospacedFonts env = Pending
  <-> recognized (platform env) = true
      /\ shell env (command_for (platform env)) = Hangs.
Proof.
  unfold getMonospacedFonts, exec.
  destruct (recognized (platform env)) eqn:Hr.
  - rewrite (command_for_recognized _ Hr).
    destruct (shell env (command_for (platform env)))
      as [code out err| |reason].
    + split; [|intros [_ H]; discriminate H].
      destruct (Z.ltb _ (utf8_length out)); [discriminate|].
      destruct (Z.ltb _ (utf8_length err)); [discriminate|].
      destruct (Z.eqb code 0); [|discriminate].
      destruct (parseMonospacedFonts_total out (platform env)) as [fonts ->].
      discriminate.
    + split; auto.
    + split; [discriminate|intros [_ H]; discriminate H].
  - rewrite (command_for_unrecognized _ Hr). cbn.
    split; [discriminate|intros [H _]; discriminate H].
Qed.

(** X8. On win32, darwin and linux, when the process exits with 0 and
    neither its output nor its error stream is longer than the buffer of
    1 MiB, counted in bytes of UTF-8, the enumeration resolves with the
    parsed output.  The enumeration stays pending exactly when the process
    is started and never exits: the program sets no timeout. *)
Theorem enumeration_resolves (env : Env) (out err : string) :
  recognized (platform env) = true ->
  shell env (command_for (platform env)) = Exited 0 out err ->
  utf8_length out <= MiB ->
  utf8_length err <= MiB ->
  (exists fonts,
     parseMonospacedFonts out (platform env) = Some fonts
     /\ getMonospacedFonts env = Resolved fonts)
  /\ (forall env',
        getMonospacedFonts env' = Pending
        <-> recognized (platform env') = true
            /\ shell env' (command_for (platform env')) = Hangs).
Proof.
  intros Hr Hs Hout Herr. split; [|exact getMonospacedFonts_pending].
  destruct (parseMonospacedFonts_total out (platform env)) as [fonts Hp].
  exists fonts. split; [exact Hp|].
  unfold getMonospacedFonts, exec.
  rewrite (command_for_recognized _ Hr), Hs.
  fold MiB. destruct (Z.ltb_spec MiB (utf8_length out)); [lia|].
  destruct (Z.ltb_spec MiB (utf8_length err)); [lia|].
  cbn [Z.eqb]. now rewrite Hp.
Qed.

Lemma enumeration_resolves_witness :
  exists fonts,
    parseMonospacedFonts ("A" +:+ String LF "B") (platform two_fonts)
    = Some fonts
    /\ getMonospacedFonts two_fonts = Resolved fonts.
Proof.
  refine (proj1 (enumeration_resolves two_fonts ("A" +:+ String LF "B")
                   EmptyString _ _ _ _)).
  - reflexivity.
  - reflexivity.
  - vm_compute. discriminate.
  - vm_compute. discriminate.
Defined.

(** ** Steps of the flow *)

Lemma deliver_items v st e :
  items_of FontPicker (deliver (handlers_of v) e st) = items_of FontPicker st.
Proof.
  unfold deliver. destruct (enabled e st); [|auto].
  destruct st as [cfg orig last fq wq lg].
  destruct fq as [[fi fp fa fs fv fd]|]; destruct wq as [[wi wp wa ws wv wd]|];
    destruct e as [[] l|[] l|[]]; destruct v; cbn;
    unfold ExtensionTs.font_onDidChangeActive, ExtensionTs.font_onDidAccept,
      ExtensionTs.weight_onDidAccept, ExtensionTs.weight_onDidHide,
      Part000.font_onDidChangeActive, Part000.font_onDidAccept,
      Part000.weight_onDidChangeActive, Part000.weight_onDidAccept,
      Part000.weight_onDidHide, Part000.handleWeightSelection,
      Part000.applyWeight, font_onDidHide, selected_of, items_of, show; cbn;
    case_inner; reflexivity.
Qed.

Lemma run_items v es : forall st,
  items_of FontPicker (run (handlers_of v) es st) = items_of FontPicker st.
Proof.
  induction es as [|e es IH]; intros st; [reflexivity|].
  change (run (handlers_of v) (e :: es) st)
    with (run (handlers_of v) es (deliver (handlers_of v) e st)).
  now rewrite IH, deliver_items.
Qed.

Section Steps.

Local Arguments Part000.font_of_label : simpl never.
Local Arguments updatedFontFamily : simpl never.
Local Arguments truthy : simpl never.
Local Arguments fallback_chain : simpl never.
Local Arguments String.append : simpl never.

Lemma font_highlight_step v st label rest :
  enabled (DidChangeActive FontPicker (label :: rest)) st = true ->
  let st' :=
    deliver (handlers_of v) (DidChangeActive FontPicker (label :: rest)) st in
  let value := updatedFontFamily (candidate v label) (originalFont st) in
  In label (items_of FontPicker st)
  /\ config st' = <["fontFamily" := value]> (config st)
  /\ log st' = log st ++ [ConfigUpdate "fontFamily" value]
  /\ enabled (DidChangeActive FontPicker (label :: rest)) st' = true.
Proof.
  intros He. cbv zeta. unfold deliver. rewrite He.
  cbn [enabled] in He. apply andb_true_iff in He as [Hs Ha].
  pose proof (all_in_In _ _ _ Ha) as Hin.
  destruct st as [cfg orig last fq wq lg].
  destruct fq as [[fi fp fa fs fv fd]|]; [|discriminate Hs].
  unfold on_screen, items_of in *. cbn in Hs, Ha, Hin.
  destruct v; cbn; unfold on_screen, items_of; cbn; rewrite Hs, Ha; auto.
Qed.

Lemma deliver_effects v st e :
  flow_inv st ->
  exists l,
    log (deliver (handlers_of v) e st) = log st ++ l
    /\ Forall (legal_write v (originalFont st) (items_of FontPicker st)) l
    /\ (forall k, k <> "fontFamily" -> k <> "fontWeight" ->
          config (deliver (handlers_of v) e st) !! k = config st !! k).
Proof.
  intros Hinv.
  destruct (enabled e st) eqn:He;
    [|unfold deliver; rewrite He; exists []; now rewrite app_nil_r].
  destruct e as [[] [|x l]|[] [|x l]|[]].
  - unfold deliver. rewrite He. exists [].
    destruct v; cbn; rewrite app_nil_r; auto.
  - destruct (font_highlight_step v st x l He) as (Hin & Hc & Hl & _).
    cbv zeta in Hc, Hl. eexists. split; [exact Hl|]. split.
    + constructor; [|constructor]. left. split; [reflexivity|].
      right. exists x. auto.
    + intros k Hk _. rewrite Hc. now apply lookup_insert_ne.
  - unfold deliver. rewrite He. exists [].
    destruct v; cbn; rewrite app_nil_r; auto.
  - destruct v.
    + unfold deliver. rewrite He. exists []. cbn. rewrite app_nil_r. auto.
    + destruct (weight_highlight_step st x l Hinv He) as (Hin & Hc & Hl & _).
      cbv zeta in Hc, Hl. eexists. split; [exact Hl|]. split.
      * constructor; [|constructor]. right. auto.
      * intros k _ Hk. cbn [handlers_of]. rewrite Hc.
        now apply lookup_insert_ne.
  - unfold deliver. rewrite He. exists [].
    destruct st as [cfg orig last [fq|] wq lg]; [|discriminate He].
    destruct v; cbn; rewrite app_nil_r; auto.
  - unfold deliver. rewrite He.
    destruct st as [cfg orig last [[fi fp fa fs fv fd]|] wq lg];
      [|discriminate He].
    destruct v; cbn;
      unfold ExtensionTs.font_onDidAccept, Part000.font_onDidAccept,
        Part000.handleWeightSelection, selected_of; cbn;
      (destruct (truthy _);
       [|exists []; cbn; rewrite app_nil_r; now auto]);
      unfold show; cbn; rewrite <- ?app_assoc;
      (eexists; split; [reflexivity|]); (split; [|now auto]);
      repeat constructor.
  - unfold deliver. rewrite He.
    destruct st as [cfg orig last fq [[wi wp wa ws wv wd]|] lg];
      [|discriminate He].
    destruct v; cbn;
      unfold ExtensionTs.weight_onDidAccept, Part000.weight_onDidAccept,
        Part000.applyWeight, selected_of; cbn;
      (eexists; split; [reflexivity|]); (split; [|now auto]);
      repeat constructor.
  - destruct (weight_accept_step v st x l Hinv He) as (Hin & Hc & Hl & _).
    cbv zeta in Hc, Hl. eexists. split; [exact Hl|]. split.
    + constructor; [|repeat constructor]. right. auto.
    + intros k _ Hk. rewrite Hc. now apply lookup_insert_ne.
  - unfold deliver. rewrite He.
    destruct st as [cfg orig last [[fi fp fa fs fv fd]|] wq lg];
      [|discriminate He].
    replace (onDidHide (handlers_of v) FontPicker) with font_onDidHide
      by (now destruct v).
    unfold font_onDidHide, selected_of. cbn.
    destruct orig as [o|]; cbn;
      [|eexists; split; [reflexivity|]; split; [repeat constructor|auto]].
    destruct (_ && _); cbn; rewrite <- ?app_assoc;
      (eexists; split; [reflexivity|]); (split; [|]).
    + constructor; [|repeat constructor]. left. auto.
    + intros k Hk _. now apply lookup_insert_ne.
    + repeat constructor.
    + auto.
  - unfold deliver. rewrite He.
    destruct st as [cfg orig last fq [[wi wp wa ws wv wd]|] lg];
      [|discriminate He].
    destruct v; cbn;
      unfold ExtensionTs.weight_onDidHide, Part000.weight_onDidHide,
        selected_of, show; cbn; case_inner; rewrite <- ?app_assoc;
      (eexists; split; [reflexivity|]); (split; [|now auto]);
      repeat constructor.
Qed.

Lemma flow_inv_step v st e :
  flow_inv st -> flow_inv (deliver (handlers_of v) e st).
Proof.
  destruct v; [apply flow_inv_step_ext|apply flow_inv_step_part].
Qed.

Lemma run_effects v es : forall st,
  flow_inv st ->
  Forall (legal_write v (originalFont st) (items_of FontPicker st)) (log st) ->
  Forall (legal_write v (originalFont st) (items_of FontPicker st))
    (log (run (handlers_of v) es st))
  /\ (forall k, k <> "fontFamily" -> k <> "fontWeight" ->
        config (run (handlers_of v) es st) !! k = config st !! k).
Proof.
  induction es as [|e es IH]; intros st Hinv Hlog; [auto|].
  change (run (handlers_of v) (e :: es) st)
    with (run (handlers_of v) es (deliver (handlers_of v) e st)).
  destruct (deliver_effects v st e Hinv) as (l & Hl & Hleg & Hk).
  destruct (deliver_original v st e) as [Ho _].
  pose proof (deliver_items v st e) as Hi.
  destruct (IH (deliver (handlers_of v) e st)) as [H1 H2].
  - now apply flow_inv_step.
  - rewrite Ho, Hi, Hl. apply Forall_app. auto.
  - rewrite Ho, Hi in H1. split; [exact H1|].
    intros k Hf Hw. rewrite H2 by assumption. now apply Hk.
Qed.

Lemma command_effects v env cfg0 o items :
  Forall (legal_write v o items) (log (command_of v env (initial cfg0)))
  /\ config (command_of v env (initial cfg0)) = cfg0.
Proof.
  destruct v; cbn [command_of]; unfold ExtensionTs.command, Part000.command;
    (destruct (getMonospacedFonts env) as [[|f fonts]|e|]); cbn;
    unfold Part000.handleFontSelection, show; cbn; case_inner;
    (split; [repeat constructor|reflexivity]).
Qed.

Lemma command_without_picker v env cfg0 :
  alive FontPicker (command_of v env (initial cfg0)) = false ->
  forall es, trace v env cfg0 es = command_of v env (initial cfg0).
Proof.
  intros Ha es. unfold trace. apply run_without_pickers.
  - revert Ha. destruct v; cbn [command_of];
      unfold ExtensionTs.command, Part000.command;
      (destruct (getMonospacedFonts env) as [[|f fonts]|e|]); cbn;
      try reflexivity; unfold Part000.handleFontSelection, show, alive; cbn;
      case_inner; discriminate.
  - destruct v; [apply command_ext_no_weight|apply command_part_no_weight].
Qed.

End Steps.

(** X9. Whatever the events of an invocation, every write to the settings
    is one of three: a preview of an item of the font picker over the font
    family read when the command started, that font family itself, or one
    of the eleven weight tokens under [fontWeight]; every other key keeps
    its value. *)
Theorem session_writes_are_legal (v : Variant) (env : Env)
    (cfg0 : gmap string string) (es : list Event) :
  let s := trace v env cfg0 es in
  Forall (legal_write v (cfg0 !! "fontFamily") (items_of FontPicker s)) (log s)
  /\ (forall k, k <> "fontFamily" -> k <> "fontWeight" ->
        config s !! k = cfg0 !! k).
Proof.
  cbv zeta.
  destruct (alive FontPicker (command_of v env (initial cfg0))) eqn:Ha.
  - destruct (command_alive_font v env cfg0 Ha) as [Ho _].
    unfold trace.
    destruct (run_effects v es (command_of v env (initial cfg0))) as [H1 H2].
    + apply (trace_inv v env cfg0 []).
    + apply command_effects.
    + rewrite Ho, <- (run_items v es) in H1. split; [exact H1|].
      intros k Hf Hw. rewrite H2 by assumption.
      now rewrite (proj2 (command_effects v env cfg0 None [])).
  - rewrite (command_without_picker v env cfg0 Ha es).
    destruct (command_effects v env cfg0 (cfg0 !! "fontFamily")
                (items_of FontPicker (command_of v env (initial cfg0))))
      as [H1 H2].
    split; [exact H1|]. intros k _ _. now rewrite H2.
Qed.

(** ** The command *)

(** X10. When the enumeration is rejected, the command shows one message
    made of [Error fetching fonts: ] and the message of the error, and does
    nothing else: the settings are neither read nor written, no quick pick
    is created, and no event of the host can follow.  So it is on a
    platform other than win32, darwin and linux. *)
Theorem failed_enumeration_only_notifies (v : Variant) (env : Env)
    (cfg0 : gmap string string) (e : JsError) :
  getMonospacedFonts env = Rejected e ->
  let notified :=
    showErrorMessage ("Error fetching fonts: " +:+ message e) (initial cfg0) in
  command_of v env (initial cfg0) = notified
  /\ log notified = [ShowErrorMessage ("Error fetching fonts: " +:+ message e)]
  /\ config notified = cfg0
  /\ (forall es, trace v env cfg0 es = notified)
  /\ (forall env', recognized (platform env') = false ->
        exists e', forall es,
          log (trace v env' cfg0 es)
          = [ShowErrorMessage ("Error fetching fonts: " +:+ message e')]).
Proof.
  intros Hr. cbv zeta.
  assert (Hc : forall env1 e1, getMonospacedFonts env1 = Rejected e1 ->
            command_of v env1 (initial cfg0)
            = showErrorMessage ("Error fetching fonts: " +:+ message e1)
                (initial cfg0)).
  { intros env1 e1 H1.
    destruct v; cbn [command_of]; unfold ExtensionTs.command, Part000.command;
      now rewrite H1. }
  assert (Ht : forall env1 e1 es, getMonospacedFonts env1 = Rejected e1 ->
            trace v env1 cfg0 es
            = showErrorMessage ("Error fetching fonts: " +:+ message e1)
                (initial cfg0)).
  { intros env1 e1 es H1. unfold trace. rewrite (Hc env1 e1 H1).
    now apply run_without_pickers. }
  split; [now apply Hc|]. split; [reflexivity|]. split; [reflexivity|].
  split; [intros es; now apply Ht|].
  intros env' Hu.
  assert (He : exists e', getMonospacedFonts env' = Rejected e').
  { unfold getMonospacedFonts, exec.
    rewrite (command_for_unrecognized _ Hu). cbn. eauto. }
  destruct He as [e' He]. exists e'. intros es. now rewrite (Ht env' e' es He).
Qed.

Lemma failed_enumeration_witness :
  trace Part000File
    {| platform := "linux"; shell := fun _ => NotRun "spawn ENOENT" |}
    fira_consolas [DidHide FontPicker]
  = showErrorMessage "Error fetching fonts: spawn ENOENT"
      (initial fira_consolas).
Proof.
  apply (failed_enumeration_only_notifies Part000File
           {| platform := "linux"; shell := fun _ => NotRun "spawn ENOENT" |}
           fira_consolas {| message := "spawn ENOENT" |}).
  reflexivity.
Defined.

Lemma command_entry (v : Variant) (env : Env) (cfg0 : gmap string string)
    (fonts : list string) :
  getMonospacedFonts env = Resolved fonts -> fonts <> [] ->
  let s := command_of v env (initial cfg0) in
  on_screen FontPicker s = true
  /\ placeholder_of FontPicker s = "Select a monospaced font"
  /\ selected_of FontPicker s = []
  /\ weightQuickPick s = None
  /\ originalFont s = cfg0 !! "fontFamily"
  /\ config s = cfg0
  /\ writes (log s) = []
  /\ List.filter touches_config (log s)
     = [GetConfiguration "editor"; ConfigGet "fontFamily"]
  /\ exists front,
       items_of FontPicker s = front ++ fonts
       /\ (length front <= 1)%nat
       /\ (v = ExtensionTsFile -> front = [])
       /\ (cfg0 !! "fontFamily" = None -> front = []).
Proof.
  intros Hr Hne. cbv zeta.
  destruct fonts as [|f fonts]; [contradiction|].
  destruct v; cbn [command_of]; unfold ExtensionTs.command, Part000.command;
    rewrite Hr; cbn.
  - repeat (split; [reflexivity|]). exists []. cbn. auto.
  - unfold Part000.handleFontSelection. cbn.
    destruct (cfg0 !! "fontFamily") as [o|]; cbn;
      [destruct (truthy _); cbn|];
      (repeat (split; [reflexivity|]));
      [eexists [_]|exists []|exists []]; cbn;
      (split; [reflexivity|]); (split; [lia|]); split; congruence.
Qed.

(** X11. When the enumeration gives at least one font, the command leaves
    the settings as they are and puts the font picker on the screen: its
    items are the enumerated fonts in their order, after at most one item
    in front (none in [extension.ts], none when no font family is set);
    nothing is selected and no weight picker exists. *)
Theorem command_opens_font_picker (v : Variant) (env : Env)
    (cfg0 : gmap string string) (fonts : list string) :
  getMonospacedFonts env = Resolved fonts -> fonts <> [] ->
  let s := command_of v env (initial cfg0) in
  on_screen FontPicker s = true
  /\ placeholder_of FontPicker s = "Select a monospaced font"
  /\ selected_of FontPicker s = []
  /\ weightQuickPick s = None
  /\ originalFont s = cfg0 !! "fontFamily"
  /\ config s = cfg0
  /\ writes (log s) = []
  /\ List.filter touches_config (log s)
     = [GetConfiguration "editor"; ConfigGet "fontFamily"]
  /\ exists front,
       items_of FontPicker s = front ++ fonts
       /\ (length front <= 1)%nat
       /\ (v = ExtensionTsFile -> front = [])
       /\ (cfg0 !! "fontFamily" = None -> front = []).
Proof. exact (command_entry v env cfg0 fonts). Qed.

Lemma command_opens_font_picker_witness :
  on_screen FontPicker
    (command_of Part000File two_fonts (initial fira_consolas))
  = true.
Proof.
  apply (command_opens_font_picker Part000File two_fonts fira_consolas
           ["A"; "B"]); [reflexivity|discriminate].
Defined.

(** ** The font stage *)

Section FontStage.

Local Arguments Part000.font_of_label : simpl never.
Local Arguments updatedFontFamily : simpl never.
Local Arguments truthy : simpl never.
Local Arguments fallback_chain : simpl never.
Local Arguments String.append : simpl never.

Lemma font_highlight_frame v st l l2 :
  enabled (DidChangeActive FontPicker l) st = true ->
  enabled (DidChangeActive FontPicker l2)
    (deliver (handlers_of v) (DidChangeActive FontPicker l) st)
  = enabled (DidChangeActive FontPicker l2) st.
Proof.
  intros He. unfold deliver. rewrite He. cbn [enabled] in *.
  destruct st as [cfg orig last [[fi fp fa fs fv fd]|] wq lg];
    [|discriminate He].
  destruct v, l; reflexivity.
Qed.

Lemma trace_original v env cfg0 es :
  alive FontPicker (trace v env cfg0 es) = true ->
  originalFont (trace v env cfg0 es) = cfg0 !! "fontFamily".
Proof.
  unfold trace. intros Ha.
  destruct (run_original v es (command_of v env (initial cfg0))) as [Ho Hal].
  rewrite Ho. now apply command_alive_font, Hal.
Qed.

(** X12. Previews do not stack.  In every state an invocation can reach, a
    highlight change in the font picker writes the candidate over the
    fallback chain of the font family read when the command started, not
    of the value written by an earlier preview; and a second highlight
    change leaves the settings as if the first had not happened. *)
Theorem previews_never_stack (v : Variant) (env : Env)
    (cfg0 : gmap string string) (es : list Event) (label : string)
    (rest : list string) :
  let s := trace v env cfg0 es in
  let highlight := DidChangeActive FontPicker (label :: rest) in
  enabled highlight s = true ->
  let s' := deliver (handlers_of v) highlight s in
  let value := updatedFontFamily (candidate v label) (cfg0 !! "fontFamily") in
  config s' = <["fontFamily" := value]> (config s)
  /\ log s' = log s ++ [ConfigUpdate "fontFamily" value]
  /\ (forall label2 rest2,
        let again := DidChangeActive FontPicker (label2 :: rest2) in
        enabled again s' = true ->
        config (deliver (handlers_of v) again s')
        = config (deliver (handlers_of v) again s)).
Proof.
  cbv zeta. intros He.
  assert (Ho : originalFont (trace v env cfg0 es) = cfg0 !! "fontFamily").
  { apply trace_original, on_screen_alive.
    cbn [enabled] in He. now apply andb_true_iff in He as [He _]. }
  destruct (font_highlight_step v _ label rest He) as (_ & Hc & Hl & _).
  cbv zeta in Hc, Hl. rewrite Ho in Hc, Hl.
  split; [exact Hc|]. split; [exact Hl|].
  intros label2 rest2 He2.
  pose proof He2 as He1. rewrite font_highlight_frame in He1 by exact He.
  destruct (font_highlight_step v _ label2 rest2 He2) as (_ & Hc2 & _).
  destruct (font_highlight_step v _ label2 rest2 He1) as (_ & Hc1 & _).
  cbv zeta in Hc1, Hc2. rewrite Hc2, Hc1, Hc.
  destruct (deliver_original v (trace v env cfg0 es)
              (DidChangeActive FontPicker (label :: rest))) as [-> _].
  apply insert_insert_eq.
Qed.

End FontStage.

Lemma previews_never_stack_witness :
  config (deliver (handlers_of Part000File) (DidChangeActive FontPicker ["A"])
            (trace Part000File two_fonts fira_consolas
               [DidChangeActive FontPicker ["B"]]))
  = <["fontFamily" := updatedFontFamily (candidate Part000File "A")
                       (fira_consolas !! "fontFamily")]>
      (config (trace Part000File two_fonts fira_consolas
                 [DidChangeActive FontPicker ["B"]])).
Proof.
  assert (He : enabled (DidChangeActive FontPicker ["A"])
                 (trace Part000File two_fonts fira_consolas
                    [DidChangeActive FontPicker ["B"]]) = true)
    by (vm_compute; reflexivity).
  exact (proj1 (previews_never_stack Part000File two_fonts fira_consolas
                  [DidChangeActive FontPicker ["B"]] "A" [] He)).
Defined.

Section Acceptance.

Local Arguments Part000.font_of_label : simpl never.
Local Arguments updatedFontFamily : simpl never.
Local Arguments truthy : simpl never.
Local Arguments fallback_chain : simpl never.
Local Arguments String.append : simpl never.

Lemma candidate_of_nothing v : truthy (candidate v EmptyString) = false.
Proof. destruct v; reflexivity. Qed.

Lemma font_accept_step (v : Variant) (st : State) (sel : list string) :
  enabled (DidAccept FontPicker sel) st = true ->
  let st' := deliver (handlers_of v) (DidAccept FontPicker sel) st in
  let font := candidate v (hd EmptyString sel) in
  config st' = config st
  /\ writes (log st') = writes (log st)
  /\ selected_of FontPicker st' = sel
  /\ (truthy font = true ->
        on_screen WeightPicker st' = true
        /\ on_screen FontPicker st' = false
        /\ items_of WeightPicker st' = fontWeights
        /\ placeholder_of WeightPicker st'
           = "Select a font weight for " +:+ font
        /\ selected_of WeightPicker st' = [])
  /\ (truthy font = false ->
        weightQuickPick st' = weightQuickPick st
        /\ log st' = log st
        /\ on_screen FontPicker st' = true).
Proof.
  intros He. cbv zeta. unfold deliver. rewrite He.
  cbn [enabled] in He. apply andb_true_iff in He as [Hs _].
  destruct st as [cfg orig last [[fi fp fa fs fv fd]|] wq lg];
    [|discriminate Hs].
  unfold on_screen in Hs. cbn in Hs.
  apply andb_true_iff in Hs as [-> Hd]. apply negb_true_iff in Hd. subst fd.
  destruct sel as [|label rest].
  - cbn [hd]. rewrite candidate_of_nothing.
    destruct v; cbn; (repeat (split; [reflexivity|]));
      (split; [discriminate|auto]).
  - cbn [hd].
    destruct v; cbn [candidate handlers_of]; cbn;
      unfold ExtensionTs.font_onDidAccept, Part000.font_onDidAccept,
        Part000.handleWeightSelection, selected_of; cbn;
      (destruct (truthy _) eqn:Ht; cbn);
      unfold show, placeholder_of, on_screen, items_of; cbn;
      rewrite ?writes_app; cbn; rewrite ?app_nil_r;
      (repeat (split; [reflexivity|]));
      (split; [|auto]); intros; try discriminate; auto.
Qed.

(** X13. The acceptance of the font picker writes nothing.  When the first
    accepted item stands for a font, the weight picker takes the screen
    from the font picker, offers the eleven weights and names that font in
    its placeholder; when no item is accepted, or the item stands for no
    font, nothing happens at all. *)
Theorem font_acceptance_opens_weight_picker (v : Variant) (st : State)
    (sel : list string) :
  enabled (DidAccept FontPicker sel) st = true ->
  let st' := deliver (handlers_of v) (DidAccept FontPicker sel) st in
  let font := candidate v (hd EmptyString sel) in
  config st' = config st
  /\ writes (log st') = writes (log st)
  /\ selected_of FontPicker st' = sel
  /\ (truthy font = true ->
        on_screen WeightPicker st' = true
        /\ on_screen FontPicker st' = false
        /\ items_of WeightPicker st' = fontWeights
        /\ placeholder_of WeightPicker st'
           = "Select a font weight for " +:+ font
        /\ selected_of WeightPicker st' = [])
  /\ (truthy font = false ->
        weightQuickPick st' = weightQuickPick st
        /\ log st' = log st
        /\ on_screen FontPicker st' = true).
Proof. exact (font_accept_step v st sel). Qed.

End Acceptance.

Lemma font_acceptance_witness :
  placeholder_of WeightPicker
    (deliver (handlers_of Part000File) (DidAccept FontPicker ["B"])
       (trace Part000File two_fonts ∅ []))
  = "Select a font weight for "
    +:+ candidate Part000File (hd EmptyString ["B"]).
Proof.
  assert (He : enabled (DidAccept FontPicker ["B"])
                 (trace Part000File two_fonts ∅ []) = true)
    by (vm_compute; reflexivity).
  assert (Ht : truthy (candidate Part000File (hd EmptyString ["B"])) = true)
    by (vm_compute; reflexivity).
  destruct (font_acceptance_opens_weight_picker Part000File _ ["B"] He)
    as (_ & _ & _ & H & _).
  exact (proj1 (proj2 (proj2 (proj2 (H Ht))))).
Defined.

(** ** After the font stage *)











(** ** The remembered highlight *)

Lemma findIndex_from_first {A} (p : A -> bool) (a : list A) : forall i x,
  In x a -> p x = true ->
  exists n y,
    findIndex_from p a i = i + Z.of_nat n
    /\ nth_error a n = Some y /\ p y = true
    /\ (forall m z, (m < n)%nat -> nth_error a m = Some z -> p z = false).
Proof.
  induction a as [|h a IH]; intros i x Hin Hp; [contradiction|].
  cbn [findIndex_from]. destruct (p h) eqn:Hh.
  - exists 0%nat, h. split; [lia|]. split; [reflexivity|]. split; [exact Hh|].
    intros m z Hm. lia.
  - destruct Hin as [->|Hin]; [congruence|].
    destruct (IH (i + 1) x Hin Hp) as (n & y & Hf & Hn & Hy & Hm).
    exists (S n), y. split; [lia|]. split; [exact Hn|]. split; [exact Hy|].
    intros [|m] z Hlt Hz; cbn in Hz.
    + now injection Hz as <-.
    + apply (Hm m); [lia|exact Hz].
Qed.

(** X16. In the second variant a highlight change in the font picker
    remembers the index of the highlighted item: the first position of the
    picker that holds its label. *)
Theorem highlighted_index_remembered (st : State) (label : string)
    (rest : list string) :
  enabled (DidChangeActive FontPicker (label :: rest)) st = true ->
  let st' :=
    deliver Part000.handlers (DidChangeActive FontPicker (label :: rest)) st in
  exists n,
    lastActiveFontIndex st' = Some (Z.of_nat n)
    /\ nth_error (items_of FontPicker st') n = Some label
    /\ (forall m, (m < n)%nat ->
          nth_error (items_of FontPicker st') m <> Some label).
Proof.
  intros He. cbv zeta. unfold deliver. rewrite He.
  cbn [enabled] in He. apply andb_true_iff in He as [Hs Ha].
  apply all_in_In in Ha.
  destruct st as [cfg orig last [[fi fp fa fs fv fd]|] wq lg];
    [|discriminate Hs].
  unfold items_of in *. cbn in Ha. cbn.
  destruct (findIndex_from_first (fun item => String.eqb item label) fi 0
              label Ha (String.eqb_refl label))
    as (n & y & Hf & Hn & Hy & Hm).
  apply String.eqb_eq in Hy. subst y.
  exists n. unfold findIndex. rewrite Hf. split; [reflexivity|].
  split; [exact Hn|]. intros m Hlt Hz.
  pose proof (Hm m label Hlt Hz) as Hb. now rewrite String.eqb_refl in Hb.
Qed.

Lemma highlighted_index_witness :
  exists n,
    lastActiveFontIndex
      (deliver Part000.handlers (DidChangeActive FontPicker ["B"])
         (trace Part000File two_fonts fira_consolas []))
    = Some (Z.of_nat n)
    /\ nth_error
         (items_of FontPicker
            (deliver Part000.handlers (DidChangeActive FontPicker ["B"])
               (trace Part000File two_fonts fira_consolas [])))
         n = Some "B"
    /\ (forall m, (m < n)%nat ->
          nth_error
            (items_of FontPicker
               (deliver Part000.handlers (DidChangeActive FontPicker ["B"])
                  (trace Part000File two_fonts fira_consolas [])))
            m <> Some "B").
Proof.
  assert (He : enabled (DidChangeActive FontPicker ["B"])
                 (trace Part000File two_fonts fira_consolas []) = true)
    by (vm_compute; reflexivity).
  exact (highlighted_index_remembered _ "B" [] He).
Defined.

(** ** A whole session *)

Lemma all_in_single x items : In x items -> all_in [x] items = true.
Proof.
  intros Hin. unfold all_in. cbn. rewrite andb_true_r.
  apply existsb_exists. exists x. split; [exact Hin|apply String.eqb_refl].
Qed.

Lemma accepted_font_hide v st :
  has_selection FontPicker st = true ->
  let st' := deliver (handlers_of v) (DidHide FontPicker) st in
  config st' = config st /\ writes (log st') = writes (log st)
  /\ weightQuickPick st' = weightQuickPick st.
Proof.
  intros Hsel. cbv zeta. unfold deliver.
  destruct (enabled _ st); [|auto].
  replace (onDidHide (handlers_of v) FontPicker) with font_onDidHide
    by (now destruct v).
  destruct st as [cfg orig last [[fi fp fa fs fv fd]|] wq lg];
    [|discriminate Hsel].
  unfold has_selection, selected_of, font_onDidHide in *. cbn in Hsel.
  destruct fs as [|x fs]; [discriminate Hsel|]. cbn.
  destruct orig; cbn; rewrite writes_app; cbn; rewrite app_nil_r; auto.
Qed.

Lemma run_cons h e es st : run h (e :: es) st = run h es (deliver h e st).
Proof. reflexivity. Qed.

Lemma trace_snoc v env cfg0 es e :
  trace v env cfg0 (es ++ [e])
  = deliver (handlers_of v) e (trace v env cfg0 es).
Proof. unfold trace, run. now rewrite fold_left_app. Qed.

Section Session.

Local Arguments Part000.font_of_label : simpl never.
Local Arguments updatedFontFamily : simpl never.
Local Arguments truthy : simpl never.
Local Arguments fallback_chain : simpl never.
Local Arguments String.append : simpl never.

(** X17. A whole session.  After the command has listed the fonts, the
    highlight and the acceptance of one of them and the acceptance of a
    weight leave exactly two writes: the preview of that font over the font
    family read at the start, and the weight; every other setting is as it
    was and nothing is left on the screen.  The hide event that the host
    sends to the font picker when the weight picker takes the screen
    changes none of this. *)
Theorem session_writes_font_and_weight (v : Variant) (env : Env)
    (cfg0 : gmap string string) (fonts : list string) (label w : string)
    (host_hides : bool) :
  getMonospacedFonts env = Resolved fonts ->
  In label fonts ->
  truthy (candidate v label) = true ->
  In w fontWeights ->
  let value := updatedFontFamily (candidate v label) (cfg0 !! "fontFamily") in
  let s :=
    trace v env cfg0
      (([DidChangeActive FontPicker [label]; DidAccept FontPicker [label]]
        ++ (if host_hides then [DidHide FontPicker] else []))
       ++ [DidAccept WeightPicker [w]]) in
  config s = <["fontWeight" := w]> (<["fontFamily" := value]> cfg0)
  /\ writes (log s)
     = [ConfigUpdate "fontFamily" value; ConfigUpdate "fontWeight" w]
  /\ on_screen FontPicker s = false
  /\ alive WeightPicker s = false.
Proof.
  intros Hr Hin Ht Hw. cbv zeta.
  assert (Hne : fonts <> []) by (intros ->; contradiction).
  destruct (command_entry v env cfg0 fonts Hr Hne)
    as (Hon & _ & _ & _ & Ho & Hc0 & Hw0 & _ & front & Hitems & _).
  cbv zeta in Hon, Ho, Hc0, Hw0, Hitems.
  set (s0 := command_of v env (initial cfg0)) in *.
  assert (He0 : enabled (DidChangeActive FontPicker [label]) s0 = true).
  { cbn [enabled]. rewrite Hon, Hitems. cbn [andb].
    apply all_in_single, in_or_app. now right. }
  destruct (font_highlight_step v s0 label [] He0) as (_ & Hc1 & Hl1 & He1).
  cbv zeta in Hc1, Hl1, He1. rewrite Ho, Hc0 in Hc1. rewrite Ho in Hl1.
  set (s1 := deliver (handlers_of v) (DidChangeActive FontPicker [label]) s0)
    in *.
  change (enabled (DidAccept FontPicker [label]) s1 = true) in He1.
  destruct (font_accept_step v s1 [label] He1) as (Hc2 & Hl2 & Hs2 & Hy & _).
  cbv zeta in Hc2, Hl2, Hs2, Hy. cbn [hd] in Hy.
  destruct (Hy Ht) as (Hon2 & _ & Hi2 & _). clear Hy.
  set (s2 := deliver (handlers_of v) (DidAccept FontPicker [label]) s1) in *.
  set (s3 := if host_hides
             then deliver (handlers_of v) (DidHide FontPicker) s2 else s2).
  assert (H3 : config s3 = config s2 /\ writes (log s3) = writes (log s2)
               /\ weightQuickPick s3 = weightQuickPick s2).
  { subst s3. destruct host_hides; [|auto].
    apply accepted_font_hide. unfold has_selection. now rewrite Hs2. }
  destruct H3 as (Hc3 & Hl3 & Hq3).
  assert (Htr : trace v env cfg0
                  ([DidChangeActive FontPicker [label];
                    DidAccept FontPicker [label]]
                   ++ (if host_hides then [DidHide FontPicker] else []))
                = s3).
  { subst s3 s2 s1 s0. unfold trace. now destruct host_hides. }
  rewrite trace_snoc, Htr.
  assert (He3 : enabled (DidAccept WeightPicker [w]) s3 = true).
  { revert Hon2 Hi2. unfold enabled, on_screen, items_of, picker.
    rewrite Hq3. intros -> ->. now apply all_in_single. }
  assert (Hinv : flow_inv s3) by (rewrite <- Htr; apply trace_inv).
  destruct (weight_accept_step v s3 w [] Hinv He3)
    as (_ & Hc4 & Hl4 & Ha & Hoff & _).
  cbv zeta in Hc4, Hl4, Ha, Hoff.
  split; [now rewrite Hc4, Hc3, Hc2, Hc1|].
  split.
  - rewrite Hl4, writes_app, Hl3, Hl2, Hl1, writes_app, Hw0. reflexivity.
  - split; [exact Hoff|exact Ha].
Qed.

End Session.

Lemma session_witness :
  config (trace Part000File two_fonts fira_consolas
            (([DidChangeActive FontPicker ["B"]; DidAccept FontPicker ["B"]]
              ++ [DidHide FontPicker])
             ++ [DidAccept WeightPicker ["bold"]]))
  = <["fontWeight" := "bold"]>
      (<["fontFamily" := updatedFontFamily (candidate Part000File "B")
                           (fira_consolas !! "fontFamily")]> fira_consolas).
Proof.
  assert (Hr : getMonospacedFonts two_fonts = Resolved ["A"; "B"])
    by (vm_compute; reflexivity).
  assert (Hin : In "B" ["A"; "B"]) by (right; left; reflexivity).
  assert (Hw : In "bold" fontWeights) by (right; left; reflexivity).
  exact (proj1 (session_writes_font_and_weight Part000File two_fonts
                  fira_consolas ["A"; "B"] "B" "bold" true Hr Hin eq_refl Hw)).
Defined.

(** X18. The enumeration resolves only from the output of a process: the
    platform is win32, darwin or linux, the process has exited with 0 and
    its output is not longer than the buffer of 1 MiB, in bytes of UTF-8
    and so in code units, and the fonts are the parsed output.  In every
    other case, also when the process cannot be run or writes more than
    the buffer holds, it does not resolve. *)
Theorem enumeration_resolved_from_output (env : Env) (fonts : list string) :
  getMonospacedFonts env = Resolved fonts ->
  recognized (platform env) = true
  /\ exists out err,
       shell env (command_for (platform env)) = Exited 0 out err
       /\ utf8_length out <= MiB
       /\ Z.of_nat (String.length out) <= MiB
       /\ parseMonospacedFonts out (platform env) = Some fonts.
Proof.
  unfold getMonospacedFonts, exec. intros H.
  destruct (recognized (platform env)) eqn:Hr;
    [|rewrite (command_for_unrecognized _ Hr) in H; discriminate H].
  split; [reflexivity|].
  rewrite (command_for_recognized _ Hr) in H.
  destruct (shell env (command_for (platform env)))
    as [code out err| |reason]; [|discriminate H..].
  fold MiB in H.
  destruct (Z.ltb_spec MiB (utf8_length out)); [discriminate H|].
  destruct (Z.ltb MiB (utf8_length err)); [discriminate H|].
  destruct (Z.eqb_spec code 0) as [->|]; [|discriminate H].
  exists out, err. split; [reflexivity|]. split; [assumption|].
  split; [pose proof (length_le_utf8 out); lia|].
  destruct (parseMonospacedFonts out (platform env)); [|discriminate H].
  now injection H as ->.
Qed.

Lemma enumeration_resolved_witness :
  recognized (platform two_fonts) = true
  /\ exists out err,
       shell two_fonts (command_for (platform two_fonts)) = Exited 0 out err
       /\ utf8_length out <= MiB
       /\ Z.of_nat (String.length out) <= MiB
       /\ parseMonospacedFonts out (platform two_fonts) = Some ["A"; "B"].
Proof.
  apply (enumeration_resolved_from_output two_fonts ["A"; "B"]).
  vm_compute. reflexivity.
Defined.
